(** * abi-coder: a shallow embedding of the ABI decoder (lib/decoder.js)
      and of the signature helpers (lib/utils.js).

    Conventions of the embedding.

    - A JavaScript [Number] that the decoder uses as an offset, a length or
      a loop bound is a [num]: either [NaN] or an integer [Num z].  Integers
      are kept exact, where the code computes with doubles: the two agree
      as long as the numbers are at most [MAX_SAFE_INTEGER] = 2^53 - 1.
      This covers every index that can address a byte of a Buffer; a larger
      number lies past the end of every Buffer whether it is rounded or
      not, so slices and reads behave alike.  Where a number computed from
      the data can exceed the bound (a next offset, the position of an
      element), the statement carries the bound.
    - A [BigInt] is a [Z].
    - A type descriptor string (ASCII) is a [string]; a string that is part
      of a decoded value is a [jsstring], the list of its UTF-16 code units.
    - A [Buffer] is the list of its bytes.
    - An array is a list; the limit of 2^32 - 1 elements of an array is not
      modelled, so the embedding agrees with the code for shorter arrays.
    - An object is the list of its own properties, in insertion order; an
      assignment to the key [__proto__] adds none ([obj_set]).
    - A function that can throw returns an [except]; the constructors of
      [error] are the exceptions the code can raise, and [OutOfFuel], which
      the decoder is proved never to return.
    - The helpers of lib/utils.js that work on buffers and strings are
      embedded as well; [parseABI] (JSON.parse) and the two selectors
      (keccak256 of ethers) call code that is not part of the library and
      are left out.  The argument of [toBigInt] is a [jsvalue], the length
      given to [padLeft] and [padRight] an integer. *)

From Stdlib Require Import ZArith List String Ascii Bool Lia.
From Stdlib.Strings Require Import Byte.
From Stdlib Require Import DecimalString DecimalZ DecimalNat.
Import ListNotations.
#[local] Set Warnings "-register-all".
Local Open Scope string_scope.
Local Open Scope list_scope.
Local Open Scope Z_scope.

(** ** Exceptions and results *)

Inductive error : Type :=
| ERR_OUT_OF_RANGE                      (* RangeError of Buffer.readUInt8 / readUInt32BE *)
| SyntaxError (s : string)              (* BigInt('0x'): cannot convert to a BigInt *)
| ValueTooLarge (bits value : Z)        (* `Value too large for uint${bits}: ${value}` *)
| ValueOutOfRange (bits value : Z)      (* `Value out of range for int${bits}: ${value}` *)
| UnsupportedType (typeStr : string)    (* `Unsupported type: ${typeStr}` *)
| InvalidTupleFormat (type : string)    (* `Invalid tuple type format: ${type}` *)
| InvalidTupleType                      (* `Invalid tuple type: ...` *)
| TypeError                             (* a method called on a value that lacks it *)
| OutOfFuel.                            (* the recursion bound of the embedding was hit *)

Inductive except (A : Type) : Type :=
| Ok (a : A)
| Err (e : error).
Arguments Ok {A} a.
Arguments Err {A} e.

Definition bind {A B : Type} (r : except A) (k : A -> except B) : except B :=
  match r with
  | Ok a => k a
  | Err e => Err e
  end.

Notation "x <- e ;; k" := (bind e (fun x => k))
  (at level 61, e at next level, right associativity).
Notation "' p <- e ;; k" := (bind e (fun x => match x with p => k end))
  (at level 61, p pattern, e at next level, right associativity).

(** ** Numbers *)

Inductive num : Type :=
| NaN
| Num (z : Z).

Coercion Num : Z >-> num.

(** [Number.MAX_SAFE_INTEGER].  The code computes with doubles: a sum, a
    product, [Math.floor], [Math.ceil] or [Number(string)] of integers is
    the exact integer as long as the operands and the result are at most
    this number in absolute value, and a rounded one beyond.  The
    operations below are the exact ones. *)
Definition MAX_SAFE_INTEGER : Z := 2 ^ 53 - 1.

(** [a + b] and [a * b] *)
Definition nadd (a b : num) : num :=
  match a, b with
  | Num x, Num y => Num (x + y)
  | _, _ => NaN
  end.

Definition nmul (a b : num) : num :=
  match a, b with
  | Num x, Num y => Num (x * y)
  | _, _ => NaN
  end.

(** [Math.floor(a / 32) * 32] and [Math.ceil(a / 32) * 32] on an integer. *)
Definition floor32 (a : num) : num :=
  match a with
  | Num x => Num (x / 32 * 32)
  | NaN => NaN
  end.

Definition ceil32 (a : num) : num :=
  match a with
  | Num x => Num ((x + 31) / 32 * 32)
  | NaN => NaN
  end.

(** The number of turns of [for (let i = 0; i < n; i++)]. *)
Definition loop_count (n : num) : nat :=
  match n with
  | Num x => Z.to_nat x
  | NaN => O
  end.

(** ** Strings *)

Definition jsstring : Type := list Z.

Definition str (s : string) : jsstring :=
  map (fun c => Z.of_N (N_of_ascii c)) (list_ascii_of_string s).

Definition code (c : ascii) : Z := Z.of_N (N_of_ascii c).

(** ECMAScript WhiteSpace and LineTerminator code units, the set that
    [trim] and the regular expression class [\s] use. *)
Definition isWhiteSpace (u : Z) : bool :=
  ((9 <=? u) && (u <=? 13)) || (u =? 32) || (u =? 160) || (u =? 5760)
  || ((8192 <=? u) && (u <=? 8202)) || (u =? 8232) || (u =? 8233)
  || (u =? 8239) || (u =? 8287) || (u =? 12288) || (u =? 65279).

Definition isSpaceChar (c : ascii) : bool := isWhiteSpace (code c).

Fixpoint trimStart (s : string) : string :=
  match s with
  | String c r => if isSpaceChar c then trimStart r else s
  | EmptyString => EmptyString
  end.

Fixpoint trimEnd (s : string) : string :=
  match s with
  | String c r =>
      match trimEnd r with
      | EmptyString => if isSpaceChar c then EmptyString else String c EmptyString
      | r' => String c r'
      end
  | EmptyString => EmptyString
  end.

Definition trim (s : string) : string := trimEnd (trimStart s).

(** [s.startsWith(p)] *)
Definition startsWith (s p : string) : bool := String.prefix p s.

(** [s.includes(p)] *)
Fixpoint includes (s p : string) : bool :=
  String.prefix p s ||
  match s with
  | String _ r => includes r p
  | EmptyString => false
  end.

(** [s.indexOf(c)] for a one-character needle; -1 when absent. *)
Fixpoint indexOf (s : string) (c : ascii) : Z :=
  match s with
  | String d r =>
      if Ascii.eqb d c then 0
      else let i := indexOf r c in if i <? 0 then -1 else i + 1
  | EmptyString => -1
  end.

(** Index arguments of [slice]: a negative index counts from the end, and
    every index is clamped to [0, len]; NaN is 0. *)
Definition relIndex (len : Z) (i : num) : Z :=
  match i with
  | NaN => 0
  | Num z => if z <? 0 then Z.max (len + z) 0 else Z.min z len
  end.

Definition strlen (s : string) : Z := Z.of_nat (String.length s).

(** [s.slice(from, to)] *)
Definition slice (s : string) (from to : num) : string :=
  let len := strlen s in
  let a := relIndex len from in
  let b := relIndex len to in
  String.substring (Z.to_nat a) (Z.to_nat (b - a)) s.

(** [s.slice(from)] *)
Definition sliceFrom (s : string) (from : num) : string :=
  slice s from (Num (strlen s)).

(** [s.split('[')[0]]: the part before the first occurrence of [c]. *)
Fixpoint beforeChar (s : string) (c : ascii) : string :=
  match s with
  | String d r => if Ascii.eqb d c then EmptyString else String d (beforeChar r c)
  | EmptyString => EmptyString
  end.

(** [s.substring(n)] for 0 <= n. *)
Definition substringFrom (s : string) (n : nat) : string :=
  String.substring n (String.length s - n) s.

(** [s.split(/\s+/)]: the pieces between maximal runs of white space. *)
Fixpoint split_ws_from (s : string) (cur : string) (inWs : bool) : list string :=
  match s with
  | EmptyString => [cur]
  | String c r =>
      if isSpaceChar c
      then (if inWs then split_ws_from r cur true
            else cur :: split_ws_from r EmptyString true)
      else split_ws_from r (cur ++ String c EmptyString)%string false
  end.

Definition split_ws (s : string) : list string := split_ws_from s EmptyString false.

(** Decimal rendering, [String(n)] and [n.toString()]. *)
Definition decimal (z : Z) : string := NilZero.string_of_int (Z.to_int z).

Definition decimal_nat (n : nat) : string := decimal (Z.of_nat n).

Definition digitValue (c : ascii) : option Z :=
  let n := code c in
  if (48 <=? n) && (n <=? 57) then Some (n - 48) else None.

Definition hexValueOf (n : Z) : option Z :=
  if (48 <=? n) && (n <=? 57) then Some (n - 48)
  else if (97 <=? n) && (n <=? 102) then Some (n - 87)
  else if (65 <=? n) && (n <=? 70) then Some (n - 55)
  else None.

Definition hexValue (c : ascii) : option Z := hexValueOf (code c).

(** The longest prefix of digits in the given radix, read as a number;
    [None] when the string does not start with a digit. *)
Fixpoint digitsPrefix (digit : ascii -> option Z) (radix : Z) (s : string)
    (acc : option Z) : option Z :=
  match s with
  | String c r =>
      match digit c with
      | Some d =>
          digitsPrefix digit radix r
            (Some (match acc with Some a => a * radix + d | None => d end))
      | None => acc
      end
  | EmptyString => acc
  end.

(** [parseInt(s)]: leading white space is skipped, a sign is read, a
    [0x] prefix selects radix 16, the longest run of digits is read and
    what follows is ignored; without a digit the result is NaN. *)
Definition parseInt (s : string) : num :=
  let s1 := trimStart s in
  let '(sign, s2) :=
    match s1 with
    | String "-" r => (-1, r)
    | String "+" r => (1, r)
    | _ => (1, s1)
    end in
  let body :=
    match s2 with
    | String "0" (String "x" r) => digitsPrefix hexValue 16 r None
    | String "0" (String "X" r) => digitsPrefix hexValue 16 r None
    | _ => digitsPrefix digitValue 10 s2 None
    end in
  match body with
  | Some n => Num (sign * n)
  | None => NaN
  end.

(** [parseInt(s) || 256] *)
Definition parseIntOr256 (s : string) : Z :=
  match parseInt s with
  | NaN => 256
  | Num 0 => 256
  | Num n => n
  end.

(** All the digits of [s] in the given radix, [None] when [s] is empty or
    holds another character. *)
Fixpoint allDigits (digit : ascii -> option Z) (radix : Z) (s : string)
    (acc : Z) : option Z :=
  match s with
  | String c r =>
      match digit c with
      | Some d =>
          match r with
          | EmptyString => Some (acc * radix + d)
          | _ => allDigits digit radix r (acc * radix + d)
          end
      | None => None
      end
  | EmptyString => None
  end.

(** [BigInt(s)] for the literal forms the decoder builds: a hexadecimal
    literal [0x...] or a run of decimal digits.  [BigInt('0x')] throws. *)
Definition BigInt (s : string) : except Z :=
  match s with
  | String "0" (String "x" r) =>
      match allDigits hexValue 16 r 0 with
      | Some v => Ok v
      | None => Err (SyntaxError s)
      end
  | _ =>
      match allDigits digitValue 10 s 0 with
      | Some v => Ok v
      | None => Err (SyntaxError s)
      end
  end.

(** [Number(s)] for a string: the empty string is 0, a run of decimal
    digits with an optional minus sign is that integer (the nearest double
    in the code, which is that integer up to [MAX_SAFE_INTEGER]), anything
    else NaN. *)
Fixpoint unitsDigits (s : jsstring) (acc : Z) : option Z :=
  match s with
  | [] => Some acc
  | u :: r =>
      if (48 <=? u) && (u <=? 57) then unitsDigits r (acc * 10 + (u - 48))
      else None
  end.

Definition Number (s : jsstring) : num :=
  match s with
  | [] => Num 0
  | u :: r =>
      if u =? 45 then
        match r with
        | [] => NaN
        | _ =>
            match unitsDigits r 0 with
            | Some v => Num (- v)
            | None => NaN
            end
        end
      else
        match unitsDigits s 0 with
        | Some v => Num v
        | None => NaN
        end
  end.

(** ** Buffers *)

Definition Buffer : Type := list byte.

Definition byteVal (b : byte) : Z := Z.of_N (Byte.to_N b).

Definition buflen (b : Buffer) : Z := Z.of_nat (List.length b).

(** [buffer.slice(from, to)] *)
Definition buf_slice (b : Buffer) (from to : num) : Buffer :=
  let len := buflen b in
  let s := relIndex len from in
  let e := relIndex len to in
  firstn (Z.to_nat (e - s)) (skipn (Z.to_nat s) b).

Definition hexDigit (d : Z) : ascii :=
  ascii_of_N (Z.to_N (if d <? 10 then 48 + d else 87 + d)).

(** [buffer.toString('hex')] *)
Fixpoint toString_hex (b : Buffer) : string :=
  match b with
  | [] => EmptyString
  | x :: r =>
      String (hexDigit (byteVal x / 16))
        (String (hexDigit (byteVal x mod 16)) (toString_hex r))
  end.

Definition byteOfZ (z : Z) : byte :=
  match Byte.of_N (Z.to_N z) with
  | Some b => b
  | None => x00
  end.

(** [Buffer.from(s, 'hex')]: pairs of hexadecimal digits are decoded up to
    the first pair that is not one; an odd last digit is dropped. *)
Fixpoint Buffer_from_hex (s : jsstring) : Buffer :=
  match s with
  | c1 :: c2 :: r =>
      match hexValueOf c1, hexValueOf c2 with
      | Some h, Some l => byteOfZ (h * 16 + l) :: Buffer_from_hex r
      | _, _ => []
      end
  | _ => []
  end.

(** [buffer[i]], undefined outside the buffer. *)
Definition buf_at (b : Buffer) (i : Z) : option Z :=
  if i <? 0 then None else option_map byteVal (nth_error b (Z.to_nat i)).

(** [buffer.readUInt8(offset)] *)
Definition readUInt8 (b : Buffer) (offset : num) : except Z :=
  match offset with
  | NaN => Err ERR_OUT_OF_RANGE
  | Num o =>
      match buf_at b o with
      | Some v => Ok v
      | None => Err ERR_OUT_OF_RANGE
      end
  end.

(** [buffer.readUInt32BE(offset)] *)
Definition readUInt32BE (b : Buffer) (offset : num) : except Z :=
  match offset with
  | NaN => Err ERR_OUT_OF_RANGE
  | Num o =>
      match buf_at b o, buf_at b (o + 1), buf_at b (o + 2), buf_at b (o + 3) with
      | Some b0, Some b1, Some b2, Some b3 =>
          Ok (b0 * 2 ^ 24 + b1 * 2 ^ 16 + b2 * 2 ^ 8 + b3)
      | _, _, _, _ => Err ERR_OUT_OF_RANGE
      end
  end.

(** [buffer.toString('utf8')]: the decoder reads one to four bytes per code
    point; a byte that cannot start or continue a sequence yields U+FFFD
    and, when it ended a sequence early, is read again as a first byte. *)
Record utf8_state : Type := mkUtf8 {
  u_needed : Z;      (* continuation bytes still expected *)
  u_point : Z;       (* the code point read so far *)
  u_lower : Z;       (* bounds of the next continuation byte *)
  u_upper : Z
}.

Definition utf8_init : utf8_state := mkUtf8 0 0 128 191.

Definition utf8_first (b : Z) : list Z * utf8_state :=
  if b <=? 127 then ([b], utf8_init)
  else if (194 <=? b) && (b <=? 223) then ([], mkUtf8 1 (Z.land b 31) 128 191)
  else if (224 <=? b) && (b <=? 239) then
    ([], mkUtf8 2 (Z.land b 15)
           (if b =? 224 then 160 else 128) (if b =? 237 then 159 else 191))
  else if (240 <=? b) && (b <=? 244) then
    ([], mkUtf8 3 (Z.land b 7)
           (if b =? 240 then 144 else 128) (if b =? 244 then 143 else 191))
  else ([65533], utf8_init).

Definition utf8_step (st : utf8_state) (b : Z) : list Z * utf8_state :=
  if u_needed st =? 0 then utf8_first b
  else if (u_lower st <=? b) && (b <=? u_upper st) then
    let p := Z.lor (Z.shiftl (u_point st) 6) (Z.land b 63) in
    if u_needed st =? 1 then ([p], utf8_init)
    else ([], mkUtf8 (u_needed st - 1) p 128 191)
  else
    let '(out, st') := utf8_first b in (65533 :: out, st').

Fixpoint utf8_points (bs : Buffer) (st : utf8_state) : list Z :=
  match bs with
  | [] => if u_needed st =? 0 then [] else [65533]
  | b :: r =>
      let '(out, st') := utf8_step st (byteVal b) in
      out ++ utf8_points r st'
  end.

(** UTF-16 code units of a code point. *)
Definition utf16_units (p : Z) : list Z :=
  if p <? 65536 then [p]
  else [55296 + (p - 65536) / 1024; 56320 + (p - 65536) mod 1024].

Definition toString_utf8 (b : Buffer) : jsstring :=
  flat_map utf16_units (utf8_points b utf8_init).

(** [s.replace(/\0/g, '')] *)
Definition removeNul (s : jsstring) : jsstring :=
  filter (fun u => negb (u =? 0)) s.

(** [s.trim()] on code units *)
Fixpoint js_trimStart (s : jsstring) : jsstring :=
  match s with
  | u :: r => if isWhiteSpace u then js_trimStart r else s
  | [] => []
  end.

Definition js_trim (s : jsstring) : jsstring :=
  rev (js_trimStart (rev (js_trimStart s))).

(** ** lib/utils.js *)

Definition hexToBuffer (hex : string) : Buffer :=
  let hex := if startsWith hex "0x" then sliceFrom hex 2 else hex in
  Buffer_from_hex (str hex).

Definition bufferToHex (buffer : Buffer) : string :=
  "0x" ++ toString_hex buffer.

(** [Buffer.alloc(size)]: [size] zero bytes. *)
Definition Buffer_alloc (size : Z) : Buffer := repeat x00 (Z.to_nat size).

(** [length] is an integer; the default is 32. *)
Definition padLeft (buffer : Buffer) (length : Z) : Buffer :=
  if buflen buffer >=? length then buffer
  else
    let padding := Buffer_alloc (length - buflen buffer) in
    padding ++ buffer.

Definition padRight (buffer : Buffer) (length : Z) : Buffer :=
  if buflen buffer >=? length then buffer
  else
    let padding := Buffer_alloc (length - buflen buffer) in
    buffer ++ padding.

(** A hexadecimal digit in either case, as a code unit. *)
Definition isHexUnit (u : Z) : bool :=
  match hexValueOf u with
  | Some _ => true
  | None => false
  end.

(** [s.startsWith('0x')] on code units. *)
Definition js_startsWith0x (s : jsstring) : bool :=
  match s with
  | u1 :: u2 :: _ => (u1 =? 48) && (u2 =? 120)
  | _ => false
  end.

(** [isHex(str)] for a string: the regular expression asks for the prefix
    0x and then hexadecimal digits only, up to the end of the string. *)
Definition isHex (str : jsstring) : bool :=
  js_startsWith0x str && forallb isHexUnit (skipn 2 str).

(** The digits of a BigInt literal. *)
Definition octValueOf (n : Z) : option Z :=
  if (48 <=? n) && (n <=? 55) then Some (n - 48) else None.

Definition binValueOf (n : Z) : option Z :=
  if (48 <=? n) && (n <=? 49) then Some (n - 48) else None.

Definition decValueOf (n : Z) : option Z :=
  if (48 <=? n) && (n <=? 57) then Some (n - 48) else None.

Fixpoint unitsValue (digit : Z -> option Z) (radix : Z) (s : jsstring) (acc : Z)
    : option Z :=
  match s with
  | [] => Some acc
  | u :: r =>
      match digit u with
      | Some d => unitsValue digit radix r (acc * radix + d)
      | None => None
      end
  end.

(** One digit or more, and nothing else. *)
Definition digitsValue (digit : Z -> option Z) (radix : Z) (s : jsstring) : option Z :=
  match s with
  | [] => None
  | _ => unitsValue digit radix s 0
  end.

(** StringToBigInt of ECMAScript: white space around the literal is
    skipped; the empty literal is 0; a decimal literal may carry a sign; a
    literal with the prefix 0x, 0o or 0b (in either case) may not; [None]
    when the text is none of these. *)
Definition StringToBigInt (s : jsstring) : option Z :=
  let t := js_trim s in
  match t with
  | [] => Some 0
  | u :: r =>
      if u =? 45 then option_map Z.opp (digitsValue decValueOf 10 r)
      else if u =? 43 then digitsValue decValueOf 10 r
      else if u =? 48 then
        match r with
        | [] => digitsValue decValueOf 10 t
        | p :: d =>
            if (p =? 120) || (p =? 88) then digitsValue hexValueOf 16 d
            else if (p =? 111) || (p =? 79) then digitsValue octValueOf 8 d
            else if (p =? 98) || (p =? 66) then digitsValue binValueOf 2 d
            else digitsValue decValueOf 10 t
        end
      else digitsValue decValueOf 10 t
  end.

(** The values that [toBigInt] tells apart by [typeof]; a number is an
    integer or NaN, [JOther] is a value of any other type. *)
Inductive jsvalue : Type :=
| JBigInt (z : Z)
| JString (s : jsstring)
| JNumber (n : num)
| JOther.

(** What [toBigInt] throws. *)
Inductive conversionError : Type :=
| BigIntSyntaxError (s : jsstring)   (* BigInt(string): cannot convert to a BigInt *)
| BigIntRangeError                   (* BigInt(number): not an integer *)
| CannotConvert.                     (* `Cannot convert to BigInt: ${value}` *)

(** [BigInt(value)] for a string and for a number. *)
Definition BigInt_of_string (s : jsstring) : Z + conversionError :=
  match StringToBigInt s with
  | Some z => inl z
  | None => inr (BigIntSyntaxError s)
  end.

Definition BigInt_of_number (n : num) : Z + conversionError :=
  match n with
  | Num z => inl z
  | NaN => inr BigIntRangeError
  end.

Definition toBigInt (value : jsvalue) : Z + conversionError :=
  match value with
  | JBigInt z => inl z
  | JString s =>
      if js_startsWith0x s then BigInt_of_string s else BigInt_of_string s
  | JNumber n => BigInt_of_number n
  | JOther => inr CannotConvert
  end.

(** ** lib/decoder.js: values and type descriptors *)

(** Decoded values.  [VBigInt] is a JavaScript BigInt; [VObject] holds the
    own properties of an object in insertion order; that JavaScript lists
    the keys that are array indices first is left aside. *)
Inductive value : Type :=
| VNull
| VBool (b : bool)
| VBigInt (z : Z)
| VStr (s : jsstring)
| VArray (l : list value)
| VObject (fields : list (string * value)).

(** The own property [k] of [o] is created, or overwritten in its place. *)
Fixpoint obj_define (o : list (string * value)) (k : string) (v : value)
    : list (string * value) :=
  match o with
  | [] => [(k, v)]
  | (k', v') :: r =>
      if String.eqb k' k then (k, v) :: r else (k', v') :: obj_define r k v
  end.

(** [o[k] = v] on an object made by [{}].  The key [__proto__] names the
    accessor that such an object inherits from [Object.prototype]: the
    assignment calls its setter, which stores no own property (it ignores
    a string or a boolean, and makes an array or an object the prototype
    of [o]), so the properties of [o] are what they were. *)
Definition obj_set (o : list (string * value)) (k : string) (v : value)
    : list (string * value) :=
  if String.eqb k "__proto__" then o else obj_define o k v.

(** [o[k]], [None] when the object has no such property. *)
Fixpoint obj_get (o : list (string * value)) (k : string) : option value :=
  match o with
  | [] => None
  | (k', v') :: r => if String.eqb k' k then Some v' else obj_get r k
  end.

(** A type descriptor is a type string or an ABI object
    [{ type, name, components }]; a missing [name] is the empty string. *)
Inductive abitype : Type :=
| TStr (s : string)
| TObj (type name : string) (components : option (list abitype)).

(** [typeof type === 'object' && type.type ? type.type : type], when the
    outcome is a string. *)
Definition typeStrOf (type : abitype) : option string :=
  match type with
  | TStr s => Some s
  | TObj "" _ _ => None
  | TObj t _ _ => Some t
  end.

(** [componentStr.match(/^tuple\((.+)\)$/)], the captured group. *)
Definition isLineTerminator (c : ascii) : bool :=
  (code c =? 10) || (code c =? 13).

Fixpoint anyChar (f : ascii -> bool) (s : string) : bool :=
  match s with
  | String c r => f c || anyChar f r
  | EmptyString => false
  end.

Definition match_tuple (s : string) : option string :=
  if startsWith s "tuple(" then
    let rest := substringFrom s 6 in
    let n := String.length rest in
    let inner := String.substring 0 (n - 1) rest in
    if (2 <=? n)%nat && String.eqb (substringFrom rest (n - 1)) ")"
       && negb (anyChar isLineTerminator inner)
    then Some inner else None
  else None.

(** The component pushed at a comma or at the end of the string. *)
Definition pushComponent (components : list (string * string)) (current : string)
    : list (string * string) :=
  let trimmed := trim current in
  if String.eqb trimmed "" then components
  else
    let parts := split_ws trimmed in
    let type := nth 0 parts "" in
    let name :=
      match nth_error parts 1 with
      | Some n => if String.eqb n "" then "field" ++ decimal_nat (List.length components) else n
      | None => "field" ++ decimal_nat (List.length components)
      end%string in
    components ++ [(type, name)].

Record parse_state : Type := mkParse {
  ps_components : list (string * string);
  ps_depth : Z;
  ps_current : string;
  ps_inType : bool
}.

Definition parseStep (st : parse_state) (char : ascii) : parse_state :=
  let '(mkParse components depth current inType) := st in
  if Ascii.eqb char "(" || Ascii.eqb char "[" then
    mkParse components (depth + 1) (current ++ String char "") inType
  else if Ascii.eqb char ")" || Ascii.eqb char "]" then
    mkParse components (depth - 1) (current ++ String char "") inType
  else if Ascii.eqb char "," && (depth =? 0) then
    mkParse (pushComponent components current) depth "" inType
  else if Ascii.eqb char " " && (depth =? 0)
          && negb (String.eqb (trim current) "") && inType then
    mkParse components depth current false
  else
    mkParse components depth (current ++ String char "") inType.

Fixpoint parseLoop (s : string) (st : parse_state) : parse_state :=
  match s with
  | String c r => parseLoop r (parseStep st c)
  | EmptyString => st
  end.

Definition parseTupleComponents (componentStr : string) : list (string * string) :=
  let st := parseLoop componentStr (mkParse [] 0 "" true) in
  pushComponent (ps_components st) (ps_current st).

(** [a.some(f)] for a callback that may throw. *)
Fixpoint some {A : Type} (f : A -> except bool) (l : list A) : except bool :=
  match l with
  | [] => Ok false
  | x :: r => b <- f x ;; if b then Ok true else some f r
  end.

Fixpoint isDynamicType_fuel (fuel : nat) (type : abitype) : except bool :=
  match fuel with
  | O => Err OutOfFuel
  | S fuel' =>
      match typeStrOf type with
      | None => Err TypeError
      | Some typeStr =>
          if String.eqb typeStr "string" || String.eqb typeStr "bytes" then Ok true
          else if includes typeStr "[]" then Ok true
          else if startsWith typeStr "tuple" then
            match type with
            | TObj _ _ (Some components) =>
                some (isDynamicType_fuel fuel') components
            | _ =>
                match match_tuple typeStr with
                | Some inner =>
                    some (fun comp => isDynamicType_fuel fuel' (TStr (fst comp)))
                         (parseTupleComponents inner)
                | None => Ok false
                end
            end
          else Ok false
      end
  end.

(** A bound on the nesting of a descriptor: a nested type string is
    shorter than the string that holds it. *)
Fixpoint type_fuel (type : abitype) : nat :=
  match type with
  | TStr s => S (String.length s)
  | TObj t _ None => S (String.length t)
  | TObj t _ (Some cs) =>
      S (Nat.max (String.length t) (list_max (map type_fuel cs)))
  end.

Definition isDynamicType (type : abitype) : except bool :=
  isDynamicType_fuel (type_fuel type) type.

(** ** lib/decoder.js: the word decoders *)

Definition decodeBool (buffer : Buffer) (offset : num) : except (bool * num) :=
  b <- readUInt8 buffer (nadd offset 31) ;;
  Ok (negb (b =? 0), nadd offset 32).

Definition decodeUint (buffer : Buffer) (offset : num) (bits : Z)
    : except (jsstring * num) :=
  let slice := buf_slice buffer offset (nadd offset 32) in
  value <-
    (if bits <=? 64 then
       high <- readUInt32BE buffer (nadd offset 24) ;;
       low <- readUInt32BE buffer (nadd offset 28) ;;
       Ok (Z.lor (Z.shiftl high 32) low)
     else
       let hex := toString_hex slice in
       if String.eqb hex "" then Ok 0 else BigInt ("0x" ++ hex)%string) ;;
  let maxValue := Z.shiftl 1 bits - 1 in
  if value >? maxValue then Err (ValueTooLarge bits value)
  else Ok (str (decimal value), nadd offset 32).

Definition decodeInt (buffer : Buffer) (offset : num) (bits : Z)
    : except (jsstring * num) :=
  let slice := buf_slice buffer offset (nadd offset 32) in
  let hex := toString_hex slice in
  value <- BigInt ("0x" ++ hex)%string ;;
  let signBit := Z.shiftl 1 (bits - 1) in
  let value :=
    if value >=? signBit then
      let maxUint := Z.shiftl 1 bits in value - maxUint
    else value in
  let minValue := - Z.shiftl 1 (bits - 1) in
  let maxValue := Z.shiftl 1 (bits - 1) - 1 in
  if (value <? minValue) || (value >? maxValue) then Err (ValueOutOfRange bits value)
  else Ok (str (decimal value), nadd offset 32).

Definition decodeAddress (buffer : Buffer) (offset : num) : except (jsstring * num) :=
  let addressBytes := buf_slice buffer (nadd offset 12) (nadd offset 32) in
  let value := str ("0x" ++ toString_hex addressBytes) in
  Ok (value, nadd offset 32).

Definition decodeFixedBytes (buffer : Buffer) (offset : num) (size : num)
    : except (jsstring * num) :=
  let slice := buf_slice buffer offset (nadd offset size) in
  let value := str ("0x" ++ toString_hex slice) in
  Ok (value, nadd offset 32).

Definition decodeBytesAt (buffer : Buffer) (offset : num) : except (jsstring * num) :=
  '(lengthStr, _) <- decodeUint buffer offset 256 ;;
  let length := Number lengthStr in
  let dataOffset := nadd offset 32 in
  let value := str ("0x" ++ toString_hex (buf_slice buffer dataOffset (nadd dataOffset length))) in
  let paddedLength := ceil32 length in
  let nextOffset := nadd dataOffset paddedLength in
  Ok (value, nextOffset).

Definition decodeBytes (buffer : Buffer) (offset : num) : except (jsstring * num) :=
  decodeBytesAt buffer offset.

Definition decodeString (buffer : Buffer) (offset : num) : except (jsstring * num) :=
  '(bytesValue, nextOffset) <- decodeBytes buffer offset ;;
  let hex := skipn 2 bytesValue in
  let value := toString_utf8 (Buffer_from_hex hex) in
  let value := js_trim (removeNul value) in
  Ok (value, nextOffset).

(** ** lib/decoder.js: arrays, tuples and parameters

    [decodeParameter], [decodeArray] and [decodeTuple] call one another; the
    array and tuple decoders take the parameter decoder as [rec]. *)

Section Recursive.

Variable rec : abitype -> Buffer -> num -> except (value * num).

(** The loop over the elements of an array of dynamic elements. *)
Fixpoint decodeDynamicElements (type baseType : string) (buffer : Buffer)
    (offset staticOffset : num) (i : Z) (count : nat) (results : list value)
    : except (list value) :=
  match count with
  | O => Ok results
  | S count' =>
      '(elementStr, _) <- decodeUint buffer (nadd staticOffset (nmul i 32)) 256 ;;
      let elementOffset := Number elementStr in
      dynamic <- isDynamicType (TStr type) ;;
      let absoluteOffset :=
        nadd (if dynamic then floor32 offset else Num 0) elementOffset in
      '(value, _) <- rec (TStr baseType) buffer absoluteOffset ;;
      decodeDynamicElements type baseType buffer offset staticOffset (i + 1) count'
        (results ++ [value])
  end.

(** The loop over the elements of an array of static elements.  The list
    grows without bound, where [results.push] throws once an array holds
    2^32 - 1 elements. *)
Fixpoint decodeStaticElements (baseType : string) (buffer : Buffer)
    (currentOffset : num) (count : nat) (results : list value)
    : except (list value * num) :=
  match count with
  | O => Ok (results, currentOffset)
  | S count' =>
      '(value, nextOffset) <- rec (TStr baseType) buffer currentOffset ;;
      decodeStaticElements baseType buffer nextOffset count' (results ++ [value])
  end.

Definition decodeArray (type : string) (buffer : Buffer) (offset : num)
    : except (list value * num) :=
  let bracketIndex := indexOf type "[" in
  let baseType := slice type 0 bracketIndex in
  let arraySpec := sliceFrom type bracketIndex in
  let isFixedSize := negb (String.eqb arraySpec "[]") in
  let fixedSize := parseInt (slice arraySpec 1 (-1)) in
  dynamic <- isDynamicType (TStr type) ;;
  currentOffset <-
    (if dynamic then
       '(dataStr, _) <- decodeUint buffer offset 256 ;;
       Ok (Number dataStr)
     else Ok offset) ;;
  '(arrayLength, currentOffset) <-
    (if isFixedSize then Ok (fixedSize, currentOffset)
     else
       '(lengthStr, nextOffset) <- decodeUint buffer currentOffset 256 ;;
       Ok (Number lengthStr, nextOffset)) ;;
  dynamicBase <- isDynamicType (TStr baseType) ;;
  if dynamicBase then
    let staticOffset := currentOffset in
    results <- decodeDynamicElements type baseType buffer offset staticOffset 0
                 (loop_count arrayLength) [] ;;
    let nextOffset := nadd currentOffset (nmul arrayLength 32) in
    Ok (results, nextOffset)
  else
    decodeStaticElements baseType buffer currentOffset (loop_count arrayLength) [].

(** [component.name || `field${i}`] *)
Definition fieldNameOf (component : abitype) (i : nat) : string :=
  match component with
  | TObj _ (String c n) _ => String c n
  | _ => ("field" ++ decimal_nat i)%string
  end.

(** An entry of [dynamicOffsets]. *)
Record dynamicInfo : Type := mkDynamicInfo {
  di_index : nat;
  di_offset : num;
  di_fieldName : string;
  di_component : abitype
}.

(** First pass of [decodeTuple]. *)
Fixpoint decodeTupleFirst (components : list abitype) (buffer : Buffer)
    (offset : num) (i : nat) (result : list (string * value))
    (currentOffset : num) (dynamicOffsets : list dynamicInfo)
    : except (list (string * value) * num * list dynamicInfo) :=
  match components with
  | [] => Ok (result, currentOffset, dynamicOffsets)
  | component :: rest =>
      let fieldName := fieldNameOf component i in
      dynamic <- isDynamicType component ;;
      if dynamic then
        '(offsetStr, _) <- decodeUint buffer currentOffset 256 ;;
        let relativeOffset := Number offsetStr in
        let absoluteOffset := nadd offset relativeOffset in
        decodeTupleFirst rest buffer offset (S i) result (nadd currentOffset 32)
          (dynamicOffsets ++ [mkDynamicInfo i absoluteOffset fieldName component])
      else
        '(value, nextOffset) <- rec component buffer currentOffset ;;
        decodeTupleFirst rest buffer offset (S i) (obj_set result fieldName value)
          nextOffset dynamicOffsets
  end.

(** Second pass of [decodeTuple]. *)
Fixpoint decodeTupleSecond (dynamicOffsets : list dynamicInfo) (buffer : Buffer)
    (result : list (string * value)) : except (list (string * value)) :=
  match dynamicOffsets with
  | [] => Ok result
  | info :: rest =>
      '(value, _) <- rec (di_component info) buffer (di_offset info) ;;
      decodeTupleSecond rest buffer (obj_set result (di_fieldName info) value)
  end.

Definition tupleComponents (type : abitype) : except (list abitype) :=
  match type with
  | TObj _ _ (Some components) => Ok components
  | TStr s =>
      match match_tuple s with
      | None => Err (InvalidTupleFormat s)
      | Some componentStr =>
          Ok (map (fun c => TObj (fst c) (snd c) None) (parseTupleComponents componentStr))
      end
  | TObj _ _ None => Err InvalidTupleType
  end.

Definition decodeTuple (type : abitype) (buffer : Buffer) (offset : num)
    : except (list (string * value) * num) :=
  components <- tupleComponents type ;;
  '(result, currentOffset, dynamicOffsets) <-
    decodeTupleFirst components buffer offset O [] offset [] ;;
  result <- decodeTupleSecond dynamicOffsets buffer result ;;
  Ok (result, currentOffset).

Definition decodeParameter_body (type : abitype) (buffer : Buffer) (offset : num)
    : except (value * num) :=
  match typeStrOf type with
  | None => Err TypeError
  | Some typeStr =>
      if includes typeStr "[" then
        '(v, n) <- decodeArray typeStr buffer offset ;; Ok (VArray v, n)
      else if startsWith typeStr "tuple" then
        '(v, n) <- decodeTuple type buffer offset ;; Ok (VObject v, n)
      else if String.eqb typeStr "bool" then
        '(v, n) <- decodeBool buffer offset ;; Ok (VBool v, n)
      else if String.eqb typeStr "address" then
        '(v, n) <- decodeAddress buffer offset ;; Ok (VStr v, n)
      else if String.eqb typeStr "bytes" then
        '(v, n) <- decodeBytes buffer offset ;; Ok (VStr v, n)
      else if String.eqb typeStr "string" then
        '(v, n) <- decodeString buffer offset ;; Ok (VStr v, n)
      else if startsWith typeStr "uint" then
        let bits := parseIntOr256 (sliceFrom typeStr 4) in
        '(v, n) <- decodeUint buffer offset bits ;; Ok (VStr v, n)
      else if startsWith typeStr "int" then
        let bits := parseIntOr256 (sliceFrom typeStr 3) in
        '(v, n) <- decodeInt buffer offset bits ;; Ok (VStr v, n)
      else if startsWith typeStr "bytes" && (5 <? strlen typeStr) then
        let size := parseInt (sliceFrom typeStr 5) in
        '(v, n) <- decodeFixedBytes buffer offset size ;; Ok (VStr v, n)
      else Err (UnsupportedType typeStr)
  end.

End Recursive.

Fixpoint decodeParameter_fuel (fuel : nat) (type : abitype) (buffer : Buffer)
    (offset : num) : except (value * num) :=
  match fuel with
  | O => Err OutOfFuel
  | S fuel' => decodeParameter_body (decodeParameter_fuel fuel') type buffer offset
  end.

Definition decodeParameter (type : abitype) (buffer : Buffer) (offset : num)
    : except (value * num) :=
  decodeParameter_fuel (S (type_fuel type)) type buffer offset.

(** The loop of [decodeParameters]. *)
Fixpoint decodeParametersLoop (types : list abitype) (buffer : Buffer)
    (staticOffset : num) (results : list value) : except (list value) :=
  match types with
  | [] => Ok results
  | currentType :: rest =>
      dynamic <- isDynamicType currentType ;;
      '(value, _) <-
        (if dynamic then
           '(offsetStr, _) <- decodeUint buffer staticOffset 256 ;;
           let dataOffset := Number offsetStr in
           decodeParameter currentType buffer dataOffset
         else decodeParameter currentType buffer staticOffset) ;;
      decodeParametersLoop rest buffer (nadd staticOffset 32) (results ++ [value])
  end.

(** [data] is a hexadecimal string; the empty string stands for a missing
    one. *)
Definition decodeParameters (types : list abitype) (data : string)
    : except (list value) :=
  if String.eqb data "" || String.eqb data "0x" then
    Ok (repeat VNull (List.length types))
  else
    let buffer := hexToBuffer data in
    decodeParametersLoop types buffer 0 [].

(** ** lib/decoder.js: event logs *)

(** An input of an event definition, [{ name, type, indexed }]. *)
Record EventInput : Type := mkInput {
  in_name : string;
  in_type : string;
  in_indexed : bool
}.

Record EventAbi : Type := mkEvent {
  ev_name : string;
  ev_inputs : list EventInput
}.

(** The decoded record, [{ name, args }]. *)
Record LogResult : Type := mkLog {
  log_name : string;
  log_args : list (string * value)
}.

(** The loop over the indexed parameters; [topics[i + 1]] is missing when
    the list is too short, and an empty topic is falsy as well. *)
Fixpoint decodeIndexed (indexedParams : list EventInput) (topics : list string)
    (i : nat) (args : list (string * value)) : except (list (string * value)) :=
  match indexedParams with
  | [] => Ok args
  | param :: rest =>
      match nth_error topics (i + 1) with
      | None => decodeIndexed rest topics (S i) args
      | Some "" => decodeIndexed rest topics (S i) args
      | Some topic =>
          dynamic <- isDynamicType (TStr (in_type param)) ;;
          if dynamic then
            decodeIndexed rest topics (S i) (obj_set args (in_name param) (VStr (str topic)))
          else
            let topicBuffer := hexToBuffer topic in
            '(value, _) <- decodeParameter (TStr (in_type param)) topicBuffer 0 ;;
            decodeIndexed rest topics (S i) (obj_set args (in_name param) value)
      end
  end.

(** The loop that stores the decoded data values; [decodedData[i]] is
    undefined, here [VNull], past the end. *)
Fixpoint storeData (nonIndexedParams : list EventInput) (decodedData : list value)
    (i : nat) (args : list (string * value)) : list (string * value) :=
  match nonIndexedParams with
  | [] => args
  | param :: rest =>
      storeData rest decodedData (S i)
        (obj_set args (in_name param) (nth i decodedData VNull))
  end.

Definition decodeLog (eventAbi : EventAbi) (data : string) (topics : list string)
    : except LogResult :=
  let indexedParams := filter (fun input => in_indexed input) (ev_inputs eventAbi) in
  let nonIndexedParams := filter (fun input => negb (in_indexed input)) (ev_inputs eventAbi) in
  args <- decodeIndexed indexedParams topics O [] ;;
  args <-
    (if (0 <? List.length nonIndexedParams)%nat
        && negb (String.eqb data "") && negb (String.eqb data "0x") then
       let types := map (fun param => TStr (in_type param)) nonIndexedParams in
       decodedData <- decodeParameters types data ;;
       Ok (storeData nonIndexedParams decodedData O args)
     else Ok args) ;;
  Ok (mkLog (ev_name eventAbi) args).

(** ** lib/utils.js: canonical types and signatures *)

Definition getBaseCanonicalType (type : string) : string :=
  if String.eqb type "tuple" then "tuple"
  else if String.eqb type "uint" then "uint256"
  else if String.eqb type "int" then "int256"
  else if String.eqb type "bytes" && negb (includes type "bytes") then "bytes"
  else type.

(** [param] is an ABI object; a bare string has no [type] property. *)
Definition getCanonicalType (param : abitype) : except string :=
  match param with
  | TStr _ => Err TypeError
  | TObj type _ _ =>
      if includes type "[" then
        let baseType := beforeChar type "[" in
        let arrayPart := substringFrom type (String.length baseType) in
        Ok (getBaseCanonicalType baseType ++ arrayPart)%string
      else Ok (getBaseCanonicalType type)
  end.

(** [inputs.map(f)] for a callback that may throw. *)
Fixpoint mapE {A B : Type} (f : A -> except B) (l : list A) : except (list B) :=
  match l with
  | [] => Ok []
  | x :: r => y <- f x ;; ys <- mapE f r ;; Ok (y :: ys)
  end.

(** [parts.join(',')] *)
Fixpoint join (sep : string) (parts : list string) : string :=
  match parts with
  | [] => ""
  | [p] => p
  | p :: r => (p ++ sep ++ join sep r)%string
  end.

(** A function or event definition, [{ name, inputs }]. *)
Record AbiItem : Type := mkItem {
  item_name : string;
  item_inputs : list abitype
}.

Definition getFunctionSignature (func : AbiItem) : except string :=
  inputs <- mapE getCanonicalType (item_inputs func) ;;
  Ok (item_name func ++ "(" ++ join "," inputs ++ ")")%string.

Definition getEventSignature (event : AbiItem) : except string :=
  inputs <- mapE getCanonicalType (item_inputs event) ;;
  Ok (item_name event ++ "(" ++ join "," inputs ++ ")")%string.

(** ** Notions used by the statements *)

(** What a word decoder is expected to do: throw, or return a value and
    the offset that follows the word. *)
Inductive outcome : Type :=
| Throws (e : error)
| Returns (value : jsstring) (next : Z).

(** The decoder does so.  The next offset is compared when it is at most
    [MAX_SAFE_INTEGER], the numbers that the code computes exactly. *)
Definition behaves (r : except (jsstring * num)) (o : outcome) : Prop :=
  match o with
  | Throws e => r = Err e
  | Returns value next =>
      exists n, r = Ok (value, n) /\ (next <= MAX_SAFE_INTEGER -> n = Num next)
  end.

(** The big-endian unsigned integer held by a run of bytes. *)
Definition beValue (bs : Buffer) : Z :=
  fold_left (fun acc b => acc * 256 + byteVal b) bs 0.

(** The 32-byte word that a decoder reads at [offset]. *)
Definition wordAt (buffer : Buffer) (offset : Z) : Buffer :=
  buf_slice buffer offset (offset + 32).

(** The indices [start], [start + 1], ... of a loop of [count] turns. *)
Fixpoint indices (start : Z) (count : nat) : list Z :=
  match count with
  | O => []
  | S count' => start :: indices (start + 1) count'
  end.

(** The offset that the array holds for its element [i], the word at
    [staticOffset + i * 32]. *)
Definition elementOffsetAt (buffer : Buffer) (staticOffset i : Z) : Z :=
  beValue (wordAt buffer (staticOffset + i * 32)).

(** Where the element [i] of a dynamic array at [offset] is decoded:
    the offset of the array rounded down to a word boundary, plus the
    offset recorded for the element. *)
Definition elementPosition (buffer : Buffer) (offset staticOffset i : Z) : Z :=
  offset / 32 * 32 + elementOffsetAt buffer staticOffset i.

(** The decoding of element [i] by the parameter decoder [rec]. *)
Definition elementAt (rec : abitype -> Buffer -> num -> except (value * num))
    (baseType : string) (buffer : Buffer) (offset staticOffset i : Z)
    : except value :=
  '(value, _) <- rec (TStr baseType) buffer
                   (Num (elementPosition buffer offset staticOffset i)) ;;
  Ok value.

(** Length and start of the offset table of a dynamic array whose data is
    at [dataOffset]. *)
Definition arrayHeader (type : string) (buffer : Buffer) (dataOffset : Z) : num * Z :=
  let arraySpec := sliceFrom type (indexOf type "[") in
  if String.eqb arraySpec "[]"
  then (Num (beValue (wordAt buffer dataOffset)), dataOffset + 32)
  else (parseInt (slice arraySpec 1 (-1)), dataOffset).

(** The numbers that [decodeArray] computes for an array of dynamic
    elements at [offset] are at most [MAX_SAFE_INTEGER], so that the code
    computes them exactly, and the array can hold its elements: the offset,
    the length, below 2^32, the end of the offset table and the position of
    every element. *)
Definition exactArray (type : string) (buffer : Buffer) (offset : Z) : Prop :=
  0 <= offset <= MAX_SAFE_INTEGER
  /\ let '(arrayLength, staticOffset) :=
       arrayHeader type buffer (beValue (wordAt buffer offset)) in
     match arrayLength with
     | NaN => staticOffset <= MAX_SAFE_INTEGER
     | Num n =>
         Z.abs n < 2 ^ 32
         /\ staticOffset + 32 * Z.abs n <= MAX_SAFE_INTEGER
         /\ Forall (fun i => elementPosition buffer offset staticOffset i
                             <= MAX_SAFE_INTEGER)
              (indices 0 (Z.to_nat n))
     end.

(** What one turn of the loop of [decodeParameters] decodes when the head
    cursor is at [position]. *)
Definition parameterAt (currentType : abitype) (buffer : Buffer) (position : num)
    : except value :=
  dynamic <- isDynamicType currentType ;;
  '(value, _) <-
    (if dynamic then
       '(offsetStr, _) <- decodeUint buffer position 256 ;;
       decodeParameter currentType buffer (Number offsetStr)
     else decodeParameter currentType buffer position) ;;
  Ok value.

(** The head positions 0, 32, 64, ... paired with the types. *)
Fixpoint headSlots (types : list abitype) (position : Z) : list (abitype * Z) :=
  match types with
  | [] => []
  | t :: rest => (t, position) :: headSlots rest (position + 32)
  end.


(** The type strings [uintN] and [intN], and the widths 8, 16, ..., 256. *)
Definition uintType (bits : Z) : string := "uint" ++ decimal bits.

Definition intType (bits : Z) : string := "int" ++ decimal bits.

Definition validWidth (bits : Z) : Prop :=
  8 <= bits <= 256 /\ bits mod 8 = 0.












(** The type string of a fixed array, [elem[n]]. *)
Definition fixedArrayType (elem : string) (n : Z) : string :=
  elem ++ "[" ++ decimal n ++ "]".

(** Well-formed UTF-8 byte sequences (Unicode, table 3-7). *)
Definition isCont (lo hi : Z) (b : byte) : bool :=
  (lo <=? byteVal b) && (byteVal b <=? hi).

Fixpoint validUtf8 (bs : Buffer) : bool :=
  match bs with
  | [] => true
  | b1 :: r1 =>
      let v := byteVal b1 in
      if v <=? 127 then validUtf8 r1
      else
        match r1 with
        | [] => false
        | b2 :: r2 =>
            if (194 <=? v) && (v <=? 223) then isCont 128 191 b2 && validUtf8 r2
            else
              match r2 with
              | [] => false
              | b3 :: r3 =>
                  if (224 <=? v) && (v <=? 239) then
                    isCont (if v =? 224 then 160 else 128)
                           (if v =? 237 then 159 else 191) b2
                    && isCont 128 191 b3 && validUtf8 r3
                  else
                    match r3 with
                    | [] => false
                    | b4 :: r4 =>
                        (240 <=? v) && (v <=? 244)
                        && isCont (if v =? 240 then 144 else 128)
                                  (if v =? 244 then 143 else 191) b2
                        && isCont 128 191 b3 && isCont 128 191 b4 && validUtf8 r4
                    end
              end
        end
  end.

(** The first code unit of a string is white space. *)
Definition startsWithSpace (s : jsstring) : bool :=
  match s with
  | u :: _ => isWhiteSpace u
  | [] => false
  end.

(** The inputs of an event that a topic list covers: every non-indexed
    input, and the first [n] indexed ones. *)
Fixpoint coveredInputs (n : nat) (inputs : list EventInput) : list EventInput :=
  match inputs with
  | [] => []
  | input :: rest =>
      if in_indexed input then
        match n with
        | O => coveredInputs O rest
        | S n' => input :: coveredInputs n' rest
        end
      else input :: coveredInputs n rest
  end.

(** The canonical type of section 4.1 of the specification, with tuples
    expanded from their components; [fuel] bounds the nesting. *)
Fixpoint specCanonical (fuel : nat) (param : abitype) : string :=
  match fuel with
  | O => ""
  | S fuel' =>
      match param with
      | TStr s => s
      | TObj type _ components =>
          let baseType := beforeChar type "[" in
          let arrayPart := substringFrom type (String.length baseType) in
          let base :=
            if String.eqb baseType "tuple" then
              match components with
              | Some cs => "(" ++ join "," (map (specCanonical fuel') cs) ++ ")"
              | None => "()"
              end
            else if String.eqb baseType "uint" then "uint256"
            else if String.eqb baseType "int" then "int256"
            else baseType in
          base ++ arrayPart
      end
  end%string.

(** The older copy of the decoder that lib/utils.js still embeds tests
    type strings only, and calls every tuple dynamic. *)
Definition isDynamicType_older (type : string) : bool :=
  if String.eqb type "string" || String.eqb type "bytes" then true
  else if includes type "[]" then true
  else if startsWith type "tuple" then true
  else false.

(** ** Notions used by the proofs *)

(** Horner value of a decimal numeral. *)
Fixpoint uintValue (d : Decimal.uint) (acc : Z) : Z :=
  match d with
  | Decimal.Nil => acc
  | Decimal.D0 l => uintValue l (acc * 10 + 0)
  | Decimal.D1 l => uintValue l (acc * 10 + 1)
  | Decimal.D2 l => uintValue l (acc * 10 + 2)
  | Decimal.D3 l => uintValue l (acc * 10 + 3)
  | Decimal.D4 l => uintValue l (acc * 10 + 4)
  | Decimal.D5 l => uintValue l (acc * 10 + 5)
  | Decimal.D6 l => uintValue l (acc * 10 + 6)
  | Decimal.D7 l => uintValue l (acc * 10 + 7)
  | Decimal.D8 l => uintValue l (acc * 10 + 8)
  | Decimal.D9 l => uintValue l (acc * 10 + 9)
  end.

(** Every character of a string satisfies [f]. *)
Fixpoint everyChar (f : ascii -> bool) (s : string) : bool :=
  match s with
  | String c r => f c && everyChar f r
  | EmptyString => true
  end.

Definition isDigitChar (c : ascii) : bool :=
  match digitValue c with
  | Some _ => true
  | None => false
  end.

(** Invariant of the loop of [parseTupleComponents]: no component type
    and no pending text is longer than the [k] characters read so far. *)
Definition parseBound (st : parse_state) (k : nat) : Prop :=
  (forall c, In c (ps_components st) -> (String.length (fst c) <= k)%nat)
  /\ (String.length (ps_current st) <= k)%nat.

(** A result that is not the exhaustion of the recursion bound. *)
Definition fuelFree {A : Type} (r : except A) : Prop := r <> Err OutOfFuel.

(** A decimal digit, as a code unit. *)
Definition isDecUnit (u : Z) : bool := (48 <=? u) && (u <=? 57).

(** The number read so far by [digitsPrefix]. *)
Definition optValue (acc : option Z) : Z :=
  match acc with
  | Some a => a
  | None => 0
  end.

(** What follows the numeral in a type string: nothing, or a closing
    bracket. *)
Definition closesNumeral (t : string) : Prop :=
  t = "" \/ exists r, t = String "]" r.


(** Every key of [args] is the name of one of the inputs. *)
Definition namesOf (inputs : list EventInput) (args : list (string * value)) : Prop :=
  forall kv, In kv args -> exists input, In input inputs /\ in_name input = fst kv.

(** ** Notions used by the statements about arrays, tuples and signatures *)

(** The type string [bytesN]. *)
Definition bytesType (n : Z) : string := "bytes" ++ decimal n.

(** The decimal strings of [count] consecutive words of the buffer, the
    first one at [start]. *)
Fixpoint uintWords (buffer : Buffer) (start : Z) (count : nat) : list value :=
  match count with
  | O => []
  | S count' =>
      VStr (str (decimal (beValue (wordAt buffer start))))
      :: uintWords buffer (start + 32) count'
  end.

(** The type string of an array of arrays, [elem[n][m]]. *)
Definition fixedArrayType2 (elem : string) (n m : Z) : string :=
  elem ++ "[" ++ decimal n ++ "][" ++ decimal m ++ "]".

(** A character of an elementary type name or of a field name: not white
    space, not a comma, not a bracket. *)
Definition isNameChar (c : ascii) : bool :=
  negb (isSpaceChar c) && negb (Ascii.eqb c ",")
  && negb (Ascii.eqb c "(") && negb (Ascii.eqb c ")")
  && negb (Ascii.eqb c "[") && negb (Ascii.eqb c "]").

(** A non-empty run of such characters. *)
Definition isName (s : string) : bool :=
  negb (String.eqb s "") && everyChar isNameChar s.

(** The components [type_k field_k], [type_k+1 field_k+1], ... that an
    unnamed list of types stands for. *)
Fixpoint numbered (k : nat) (types : list string) : list (string * string) :=
  match types with
  | [] => []
  | t :: rest => (t, ("field" ++ decimal_nat k)%string) :: numbered (S k) rest
  end.

(** A component written [type name]. *)
Definition namedComponent (c : string * string) : string :=
  (fst c ++ " " ++ snd c)%string.

(** A type string that [getCanonicalType] leaves as it is: its element
    type is neither of the aliases [uint] and [int]. *)
Definition isCanonical (type : string) : bool :=
  negb (String.eqb (beforeChar type "[") "uint")
  && negb (String.eqb (beforeChar type "[") "int").


(** The type string of a tuple, [tuple(type1,type2,...)]. *)
Definition tupleType (types : list string) : string :=
  "tuple(" ++ join "," types ++ ")".

(** [string] and [bytes], the elementary types of variable length. *)
Definition isStringOrBytes (type : string) : bool :=
  String.eqb type "string" || String.eqb type "bytes".

(** ** Sample inputs *)

(** A 32-byte word holding a small number. *)
Definition wordOf (n : Z) : Buffer := repeat x00 31 ++ [byteOfZ n].

(** A payload right-padded with zeros to 32 bytes, after its length word. *)
Definition bytesBlock (payload : Buffer) : Buffer :=
  wordOf (buflen payload) ++ payload ++ repeat x00 (32 - List.length payload).

(** The canonical encoding of -1: thirty-two 0xFF bytes. *)
Definition minusOneWord : Buffer := repeat xff 32.

(** The word of value 2^64: byte 23 is 1, every other byte is 0. *)
Definition pow64Word : Buffer := repeat x00 23 ++ [x01] ++ repeat x00 8.

(** Sixteen bytes: too short for any 32-byte word. *)
Definition shortBuffer : Buffer :=
  repeat x00 11 ++ [x01; x02; x03; x04; x05].

(** Three words 1, 2, 3: the encoding of a [uint256[2]] followed by a
    [uint256]. *)
Definition data123 : string :=
  "0x0000000000000000000000000000000000000000000000000000000000000001"
  ++ "0000000000000000000000000000000000000000000000000000000000000002"
  ++ "0000000000000000000000000000000000000000000000000000000000000003".

(** The word 256, for a [uint8] slot. *)
Definition word256 : string :=
  "0x0000000000000000000000000000000000000000000000000000000000000100".

(** One word holding 10^18, the amount of the test suite. *)
Definition oneEther : string :=
  "0x0000000000000000000000000000000000000000000000000de0b6b3a7640000".

(** Inputs of the test suite (test/basic.test.js). *)
Definition resultTrue : string :=
  "0x0000000000000000000000000000000000000000000000000000000000000001".

(** The string " a " (space, a, space). *)
Definition spacedString : Buffer := bytesBlock [x20; x61; x20].

(** The string "a", NUL, "b". *)
Definition nulString : Buffer := bytesBlock [x61; x00; x62].

(** A payload that is not UTF-8: the single byte 0xFF. *)
Definition invalidString : Buffer := bytesBlock [xff].

(** A [string[]] with the single element "hi", laid out for a decoder
    called at offset 32: the word at 32 is the data offset 64, the word at
    64 the length 1, the word at 96 the element offset 96, and the string
    (length 2, then "hi") is at 128 = 32 + 96. *)
Definition stringArrayBuffer : Buffer :=
  wordOf 0 ++ wordOf 64 ++ wordOf 1 ++ wordOf 96
  ++ wordOf 2 ++ [x68; x69] ++ repeat x00 30.

(** The event [Transfer(address indexed from, address indexed to,
    uint256 value)] of the test suite, and its topics. *)
Definition transferEvent : EventAbi :=
  mkEvent "Transfer"
    [mkInput "from" "address" true; mkInput "to" "address" true;
     mkInput "value" "uint256" false].

Definition transferTopic : string :=
  "0xddf252ad1be2c89b69c2b068fc378daa952ba7f163c4a11628f55a4df523b3ef".

Definition fromTopic : string :=
  "0x000000000000000000000000742d35cc6634c0532925a3b8d8e9eed89b7a6de6".

Definition toTopic : string :=
  "0x000000000000000000000000742d35cc6634c0532925a3b8d8e9eed89b7a6de7".

(** A tuple parameter [{ type: 'tuple', name: 'p', components: [uint256 a,
    address b] }]. *)
Definition pairParam : abitype :=
  TObj "tuple" "p" (Some [TObj "uint256" "a" None; TObj "address" "b" None]).

(** A tuple parameter whose first component is named [__proto__]. *)
Definition protoParam : abitype :=
  TObj "tuple" "p"
    (Some [TObj "uint256" "__proto__" None; TObj "address" "b" None]).

(** A [uint256[]] holding 5 and 6, as the decoder expects it: the head
    word 32, at 32 the offset 64, at 64 the length 2, then the elements. *)
Definition twoOffsetsData : string :=
  "0x0000000000000000000000000000000000000000000000000000000000000020"
  ++ "0000000000000000000000000000000000000000000000000000000000000040"
  ++ "0000000000000000000000000000000000000000000000000000000000000002"
  ++ "0000000000000000000000000000000000000000000000000000000000000005"
  ++ "0000000000000000000000000000000000000000000000000000000000000006".

(** The same array in the standard encoding: the head word 32, at 32 the
    length 2, then the elements. *)
Definition standardArrayData : string :=
  "0x0000000000000000000000000000000000000000000000000000000000000020"
  ++ "0000000000000000000000000000000000000000000000000000000000000002"
  ++ "0000000000000000000000000000000000000000000000000000000000000005"
  ++ "0000000000000000000000000000000000000000000000000000000000000006".

(** * Properties of the decoder *)

(** ** The error monad *)

Lemma bind_assoc {A B C : Type} (r : except A) (f : A -> except B) (g : B -> except C) :
  bind (bind r f) g = bind r (fun a => bind (f a) g).
Proof. destruct r; reflexivity. Qed.

Lemma bind_Ok_r {A : Type} (r : except A) : bind r Ok = r.
Proof. destruct r; reflexivity. Qed.

Lemma bind_Ok_inv {A B : Type} (r : except A) (k : A -> except B) (b : B) :
  bind r k = Ok b -> exists a, r = Ok a /\ k a = Ok b.
Proof. destruct r as [a | e]; [eauto | discriminate]. Qed.

Tactic Notation "invert_bind" hyp(H) "as" simple_intropattern(x) ident(Hx) :=
  apply bind_Ok_inv in H; destruct H as (x & Hx & H).

(** ** Bytes, hexadecimal strings and BigInt *)

Lemma byteVal_range (b : byte) : 0 <= byteVal b < 256.
Proof.
  unfold byteVal. pose proof (Byte.to_N_bounded b) as H.
  lia.
Qed.

Lemma hexValueOf_hexDigit (d : Z) :
  0 <= d < 16 -> hexValueOf (code (hexDigit d)) = Some d.
Proof.
  intros H.
  assert (d = 0 \/ d = 1 \/ d = 2 \/ d = 3 \/ d = 4 \/ d = 5 \/ d = 6 \/ d = 7 \/
          d = 8 \/ d = 9 \/ d = 10 \/ d = 11 \/ d = 12 \/ d = 13 \/ d = 14 \/ d = 15)
    as Hd by lia.
  repeat (destruct Hd as [Hd | Hd]; [subst d; reflexivity |]).
  subst d; reflexivity.
Qed.

Lemma hexValue_hexDigit (d : Z) : 0 <= d < 16 -> hexValue (hexDigit d) = Some d.
Proof. exact (hexValueOf_hexDigit d). Qed.

Lemma byte_nibbles (b : byte) :
  0 <= byteVal b / 16 < 16 /\ 0 <= byteVal b mod 16 < 16 /\
  byteVal b / 16 * 16 + byteVal b mod 16 = byteVal b.
Proof.
  pose proof (byteVal_range b) as H.
  repeat split; try (apply Z.div_pos; lia); try (apply Z.div_lt_upper_bound; lia);
    try (apply Z.mod_pos_bound; lia).
  pose proof (Z.div_mod (byteVal b) 16). lia.
Qed.

Lemma allDigits_hex (bs : Buffer) (acc : Z) :
  bs <> [] ->
  allDigits hexValue 16 (toString_hex bs) acc
  = Some (fold_left (fun a b => a * 256 + byteVal b) bs acc).
Proof.
  revert acc. induction bs as [| b r IH]; intros acc Hne; [congruence |].
  destruct (byte_nibbles b) as (Hh & Hl & Hsum).
  cbn [toString_hex allDigits].
  rewrite (hexValue_hexDigit _ Hh), (hexValue_hexDigit _ Hl).
  cbn [fold_left].
  replace (acc * 256 + byteVal b) with ((acc * 16 + byteVal b / 16) * 16 + byteVal b mod 16) by lia.
  destruct r as [| b' r']; [reflexivity |].
  rewrite <- IH by discriminate. reflexivity.
Qed.

Lemma BigInt_hex (bs : Buffer) :
  BigInt ("0x" ++ toString_hex bs)
  = match bs with
    | [] => Err (SyntaxError "0x")
    | _ => Ok (beValue bs)
    end.
Proof.
  destruct bs as [| b r]; [reflexivity |].
  change ("0x" ++ toString_hex (b :: r))%string
    with (String "0" (String "x" (toString_hex (b :: r)))).
  unfold BigInt. rewrite allDigits_hex by discriminate. reflexivity.
Qed.

Lemma toString_hex_empty (bs : Buffer) :
  String.eqb (toString_hex bs) "" = match bs with [] => true | _ => false end.
Proof. destruct bs; reflexivity. Qed.

Lemma length_toString_hex (bs : Buffer) :
  String.length (toString_hex bs) = (2 * List.length bs)%nat.
Proof. induction bs as [| b r IH]; cbn [toString_hex String.length List.length]; lia. Qed.

Lemma byteOfZ_byteVal (b : byte) : byteOfZ (byteVal b) = b.
Proof.
  unfold byteOfZ, byteVal. rewrite N2Z.id, Byte.of_to_N. reflexivity.
Qed.

Lemma str_cons (c : ascii) (s : string) : str (String c s) = code c :: str s.
Proof. reflexivity. Qed.

Lemma Buffer_from_hex_toString (bs : Buffer) :
  Buffer_from_hex (str (toString_hex bs)) = bs.
Proof.
  induction bs as [| b r IH]; [reflexivity |].
  destruct (byte_nibbles b) as (Hh & Hl & Hsum).
  cbn [toString_hex]. rewrite !str_cons. cbn [Buffer_from_hex].
  rewrite (hexValueOf_hexDigit _ Hh), (hexValueOf_hexDigit _ Hl), Hsum, IH.
  rewrite byteOfZ_byteVal. reflexivity.
Qed.

Lemma shiftl_1 (n : Z) : Z.shiftl 1 n = 2 ^ n.
Proof. apply Z.shiftl_1_l. Qed.

Lemma lor_shiftl_add (h l n : Z) :
  0 <= n -> 0 <= l < 2 ^ n -> Z.lor (Z.shiftl h n) l = h * 2 ^ n + l.
Proof.
  intros Hn Hl.
  rewrite Z.shiftl_mul_pow2 by assumption.
  assert (Hland : Z.land (h * 2 ^ n) l = 0).
  { apply Z.bits_inj'. intros i Hi.
    rewrite Z.land_spec, Z.bits_0.
    destruct (Z.lt_ge_cases i n) as [Hlt | Hge].
    - rewrite Z.mul_pow2_bits_low by assumption. reflexivity.
    - assert (Hz : Z.testbit l i = false).
      { destruct (Z.eq_dec l 0) as [-> | Hne]; [apply Z.bits_0 |].
        apply Z.bits_above_log2; [lia |].
        apply Z.log2_lt_pow2; [lia |].
        apply Z.lt_le_trans with (2 ^ n); [lia |].
        apply Z.pow_le_mono_r; lia. }
      rewrite Hz. apply andb_false_r. }
  rewrite (Z.add_nocarry_lxor _ _ Hland). symmetry. apply Z.lxor_lor. exact Hland.
Qed.

Lemma beValue_app (a b : Buffer) :
  beValue (a ++ b) = beValue a * 256 ^ Z.of_nat (List.length b) + beValue b.
Proof.
  unfold beValue.
  assert (G : forall (l : Buffer) (acc : Z),
             fold_left (fun x y => x * 256 + byteVal y) l acc
             = acc * 256 ^ Z.of_nat (List.length l)
               + fold_left (fun x y => x * 256 + byteVal y) l 0).
  { induction l as [| x l IH]; intros acc.
    - cbn. lia.
    - cbn [fold_left List.length]. rewrite IH, (IH (0 * 256 + byteVal x)).
      rewrite Nat2Z.inj_succ, Z.pow_succ_r by lia. lia. }
  rewrite fold_left_app, G. reflexivity.
Qed.

Lemma beValue_bounds (bs : Buffer) :
  0 <= beValue bs < 256 ^ Z.of_nat (List.length bs).
Proof.
  induction bs as [| b r IH] using rev_ind.
  - cbn. lia.
  - rewrite beValue_app, length_app. cbn [List.length].
    rewrite Nat2Z.inj_add, Z.pow_add_r by lia.
    change (beValue [b]) with (0 * 256 + byteVal b).
    pose proof (byteVal_range b). cbn [Z.of_nat Pos.of_succ_nat]. 
    change (256 ^ 1) with 256. nia.
Qed.

(** ** Decimal strings and [Number] *)

Lemma unitsDigits_uint (d : Decimal.uint) (acc : Z) :
  unitsDigits (str (NilEmpty.string_of_uint d)) acc = Some (uintValue d acc).
Proof.
  revert acc. induction d; intros acc; cbn [NilEmpty.string_of_uint uintValue];
    [reflexivity | ..]; rewrite str_cons; cbn [unitsDigits]; apply IHd.
Qed.

Lemma of_uint_acc_value (d : Decimal.uint) (acc : positive) :
  Z.pos (Pos.of_uint_acc d acc) = uintValue d (Z.pos acc).
Proof.
  revert acc. induction d; intros acc; cbn [Pos.of_uint_acc uintValue];
    [reflexivity | ..]; rewrite IHd; f_equal; lia.
Qed.

Lemma of_uint_value (d : Decimal.uint) : Z.of_uint d = uintValue d 0.
Proof.
  unfold Z.of_uint.
  induction d; cbn [Pos.of_uint uintValue]; try reflexivity;
    try (cbn [Z.of_N]; rewrite of_uint_acc_value; reflexivity).
  exact IHd.
Qed.

Lemma str_digits_head (d : Decimal.uint) :
  d <> Decimal.Nil ->
  exists u r, str (NilEmpty.string_of_uint d) = u :: r /\ 48 <= u <= 57.
Proof.
  destruct d; intros H; [congruence | ..];
    cbn [NilEmpty.string_of_uint]; rewrite str_cons;
    eexists; eexists; (split; [reflexivity | cbn; lia]).
Qed.

Lemma Number_uint (d : Decimal.uint) :
  Number (str (NilZero.string_of_uint d)) = Num (Z.of_uint d).
Proof.
  destruct (Decimal.uint_eq_dec d Decimal.Nil) as [-> | Hne]; [reflexivity |].
  assert (E : NilZero.string_of_uint d = NilEmpty.string_of_uint d)
    by (destruct d; [congruence | reflexivity ..]).
  rewrite E.
  destruct (str_digits_head d Hne) as (u & r & Hs & Hu).
  unfold Number.
  assert (G : unitsDigits (str (NilEmpty.string_of_uint d)) 0 = Some (Z.of_uint d))
    by (rewrite unitsDigits_uint, of_uint_value; reflexivity).
  rewrite Hs in *.
  destruct (Z.eqb_spec u 45) as [-> | _]; [lia |].
  rewrite G. reflexivity.
Qed.

Lemma Number_decimal (z : Z) : Number (str (decimal z)) = Num z.
Proof.
  unfold decimal.
  pose proof (DecimalZ.of_to z) as E.
  destruct (Z.to_int z) as [d | d] eqn:Ed; cbn [NilZero.string_of_int Z.of_int] in *.
  - rewrite Number_uint, E. reflexivity.
  - rewrite str_cons. unfold Number.
    change (code "-" =? 45) with true. cbv iota.
    assert (Hd : d <> Decimal.Nil).
    { intros ->. cbn in E. subst z. discriminate Ed. }
    assert (E2 : NilZero.string_of_uint d = NilEmpty.string_of_uint d)
      by (destruct d; [congruence | reflexivity ..]).
    rewrite E2.
    destruct (str_digits_head d Hd) as (u & r & Hs & Hu).
    rewrite Hs, <- Hs, unitsDigits_uint, <- of_uint_value, E. reflexivity.
Qed.

Lemma string_of_uint_digits (d : Decimal.uint) :
  everyChar isDigitChar (NilEmpty.string_of_uint d) = true.
Proof. induction d; cbn [NilEmpty.string_of_uint everyChar]; try reflexivity; exact IHd. Qed.

Lemma decimal_digits (n : Z) :
  0 <= n ->
  exists c r, decimal n = String c r /\ everyChar isDigitChar (String c r) = true.
Proof.
  intros Hn. unfold decimal.
  destruct n as [| p | p]; [exists "0"%char, ""; split; reflexivity | | lia].
  cbn [Z.to_int NilZero.string_of_int].
  pose proof (string_of_uint_digits (Pos.to_uint p)) as Hd.
  pose proof (DecimalPos.Unsigned.to_uint_nonnil p) as Hnn.
  unfold NilZero.string_of_uint.
  destruct (Pos.to_uint p) as [| u | u | u | u | u | u | u | u | u | u];
    [congruence | ..]; eexists; eexists; (split; [reflexivity | exact Hd]).
Qed.

(** ** Reads of a Buffer *)

Lemma length_buf_slice_word (buffer : Buffer) (offset : Z) :
  0 <= offset -> offset + 32 <= buflen buffer ->
  List.length (wordAt buffer offset) = 32%nat.
Proof.
  intros H0 H1. unfold wordAt, buf_slice, relIndex, buflen in *.
  destruct (Z.ltb_spec offset 0); [lia |].
  destruct (Z.ltb_spec (offset + 32) 0); [lia |].
  rewrite length_firstn, length_skipn. lia.
Qed.

Lemma length_wordAt (buffer : Buffer) (offset : Z) :
  0 <= offset -> (List.length (wordAt buffer offset) <= 32)%nat.
Proof.
  intros H. unfold wordAt, buf_slice, relIndex.
  destruct (Z.ltb_spec offset 0); [lia |].
  destruct (Z.ltb_spec (offset + 32) 0); [lia |].
  rewrite length_firstn. lia.
Qed.

Lemma length_wordAt_any (buffer : Buffer) (offset : Z) :
  (List.length (wordAt buffer offset) <= 32)%nat.
Proof.
  unfold wordAt, buf_slice, relIndex.
  rewrite length_firstn.
  destruct (Z.ltb_spec offset 0), (Z.ltb_spec (offset + 32) 0); lia.
Qed.

Lemma wordAt_nonempty (buffer : Buffer) (offset : Z) :
  0 <= offset -> offset + 32 <= buflen buffer -> wordAt buffer offset <> [].
Proof.
  intros H0 H1. pose proof (length_buf_slice_word buffer offset H0 H1) as L.
  destruct (wordAt buffer offset); [discriminate L | discriminate].
Qed.

Lemma wordAt_bounds (buffer : Buffer) (offset : Z) :
  0 <= beValue (wordAt buffer offset) < 2 ^ 256.
Proof.
  pose proof (beValue_bounds (wordAt buffer offset)) as B.
  pose proof (length_wordAt_any buffer offset) as L.
  assert (P : 256 ^ Z.of_nat (List.length (wordAt buffer offset)) <= 256 ^ 32)
    by (apply Z.pow_le_mono_r; lia).
  change (256 ^ 32) with (2 ^ 256) in P. lia.
Qed.

Lemma buf_slice_to_end (buffer : Buffer) (from to : Z) :
  0 <= from -> buflen buffer <= to ->
  buf_slice buffer from to = skipn (Z.to_nat from) buffer.
Proof.
  intros Hf Ht. unfold buf_slice, relIndex, buflen in *.
  destruct (Z.ltb_spec from 0); [lia |].
  destruct (Z.ltb_spec to 0); [lia |].
  rewrite (Z.min_r to) by lia.
  destruct (Z.le_gt_cases from (Z.of_nat (List.length buffer))) as [Hle | Hgt].
  - rewrite Z.min_l by lia. apply firstn_all2. rewrite length_skipn. lia.
  - rewrite Z.min_r by lia. rewrite Z.sub_diag. cbn [Z.to_nat firstn].
    symmetry. apply skipn_all2. lia.
Qed.

Lemma buf_at_past_end (buffer : Buffer) (i : Z) :
  buflen buffer <= i -> buf_at buffer i = None.
Proof.
  intros H. unfold buf_at, buflen in *.
  destruct (Z.ltb_spec i 0); [reflexivity |].
  assert (E : nth_error buffer (Z.to_nat i) = None) by (apply nth_error_None; lia).
  rewrite E. reflexivity.
Qed.

Lemma buf_at_nonneg (buffer : Buffer) (i v : Z) : buf_at buffer i = Some v -> 0 <= v.
Proof.
  unfold buf_at. destruct (i <? 0); [discriminate |].
  destruct (nth_error buffer (Z.to_nat i)) as [b |]; [| discriminate].
  cbn. intros [= <-]. apply byteVal_range.
Qed.

Lemma readUInt32BE_app (hi : Buffer) (b0 b1 b2 b3 : byte) (rest : Buffer) (n : Z) :
  n = Z.of_nat (List.length hi) ->
  readUInt32BE (hi ++ b0 :: b1 :: b2 :: b3 :: rest) (Num n)
  = Ok (beValue [b0; b1; b2; b3]).
Proof.
  intros ->. unfold readUInt32BE, buf_at.
  assert (G : forall k (l : Buffer),
             nth_error (hi ++ l) (Z.to_nat (Z.of_nat (List.length hi) + Z.of_nat k))
             = nth_error l k).
  { intros k l. replace (Z.to_nat _) with (List.length hi + k)%nat by lia.
    rewrite nth_error_app2 by lia. f_equal. lia. }
  pose proof (G 0%nat) as G0. pose proof (G 1%nat) as G1.
  pose proof (G 2%nat) as G2. pose proof (G 3%nat) as G3.
  cbn [Z.of_nat Pos.of_succ_nat Pos.succ] in G0, G1, G2, G3.
  rewrite Z.add_0_r in G0.
  destruct (Z.ltb_spec (Z.of_nat (List.length hi)) 0); [lia |].
  destruct (Z.ltb_spec (Z.of_nat (List.length hi) + 1) 0); [lia |].
  destruct (Z.ltb_spec (Z.of_nat (List.length hi) + 2) 0); [lia |].
  destruct (Z.ltb_spec (Z.of_nat (List.length hi) + 3) 0); [lia |].
  rewrite G0, G1, G2, G3. cbn [nth_error option_map].
  f_equal. unfold beValue. cbn [fold_left].
  change (2 ^ 24) with 16777216. change (2 ^ 16) with 65536. change (2 ^ 8) with 256.
  lia.
Qed.

Lemma readUInt32BE_past_end (buffer : Buffer) (offset : Z) :
  buflen buffer < offset + 4 -> readUInt32BE buffer offset = Err ERR_OUT_OF_RANGE.
Proof.
  intros H. unfold readUInt32BE.
  rewrite (buf_at_past_end buffer (offset + 3)) by lia.
  destruct (buf_at buffer offset), (buf_at buffer (offset + 1)), (buf_at buffer (offset + 2));
    reflexivity.
Qed.

Lemma readUInt32BE_error (buffer : Buffer) (offset : num) (e : error) :
  readUInt32BE buffer offset = Err e -> e = ERR_OUT_OF_RANGE.
Proof.
  unfold readUInt32BE. destruct offset as [| o]; [congruence |].
  destruct (buf_at buffer o), (buf_at buffer (o + 1)), (buf_at buffer (o + 2)),
    (buf_at buffer (o + 3)); congruence.
Qed.

Lemma readUInt32BE_nonneg (buffer : Buffer) (offset : num) (v : Z) :
  readUInt32BE buffer offset = Ok v -> 0 <= v.
Proof.
  unfold readUInt32BE. destruct offset as [| o]; [discriminate |].
  destruct (buf_at buffer o) eqn:E0; [| discriminate].
  destruct (buf_at buffer (o + 1)) eqn:E1; [| discriminate].
  destruct (buf_at buffer (o + 2)) eqn:E2; [| discriminate].
  destruct (buf_at buffer (o + 3)) eqn:E3; [| discriminate].
  intros [= <-].
  apply buf_at_nonneg in E0, E1, E2, E3. lia.
Qed.

(** ** The word decoders *)

Lemma decodeUint_256 (buffer : Buffer) (offset : Z) :
  (List.length (wordAt buffer offset) <= 32)%nat ->
  decodeUint buffer offset 256
  = Ok (str (decimal (beValue (wordAt buffer offset))), Num (offset + 32)).
Proof.
  intros L. unfold decodeUint. cbn [nadd].
  change (256 <=? 64) with false. cbv iota.
  fold (wordAt buffer offset).
  rewrite toString_hex_empty, BigInt_hex.
  pose proof (beValue_bounds (wordAt buffer offset)) as B.
  assert (P : 256 ^ Z.of_nat (List.length (wordAt buffer offset)) <= 256 ^ 32)
    by (apply Z.pow_le_mono_r; lia).
  assert (E : Z.shiftl 1 256 - 1 = 256 ^ 32 - 1) by reflexivity.
  assert (R : forall v, v = beValue (wordAt buffer offset) ->
              (if v >? Z.shiftl 1 256 - 1 then Err (ValueTooLarge 256 v)
               else Ok (str (decimal v), Num (offset + 32)))
              = Ok (str (decimal v), Num (offset + 32))).
  { intros v ->. destruct (Z.gtb_spec (beValue (wordAt buffer offset)) (Z.shiftl 1 256 - 1));
      [lia | reflexivity]. }
  destruct (wordAt buffer offset) as [| b r]; cbn [bind].
  - apply (R 0). reflexivity.
  - apply R. reflexivity.
Qed.

Lemma decodeUint_word (buffer : Buffer) (offset : Z) :
  decodeUint buffer offset 256
  = Ok (str (decimal (beValue (wordAt buffer offset))), Num (offset + 32)).
Proof. apply decodeUint_256, length_wordAt_any. Qed.

Lemma decodeUint_fast_path (hi lo : Buffer) (bits : Z) :
  List.length hi = 24%nat -> List.length lo = 8%nat -> bits <= 64 ->
  decodeUint (hi ++ lo) 0 bits
  = if beValue lo >? 2 ^ bits - 1 then Err (ValueTooLarge bits (beValue lo))
    else Ok (str (decimal (beValue lo)), Num 32).
Proof.
  intros Lh Ll Hb.
  do 8 (destruct lo as [| ? lo]; [discriminate Ll |]).
  destruct lo; [| discriminate Ll].
  unfold decodeUint. cbn [nadd Z.add].
  destruct (Z.leb_spec bits 64) as [_ | ?]; [| lia].
  rewrite (readUInt32BE_app hi b b0 b1 b2 [b3; b4; b5; b6] 24) by lia.
  change (hi ++ [b; b0; b1; b2; b3; b4; b5; b6])
    with (hi ++ [b; b0; b1; b2] ++ [b3; b4; b5; b6]).
  rewrite app_assoc.
  rewrite (readUInt32BE_app (hi ++ [b; b0; b1; b2]) b3 b4 b5 b6 [] 28)
    by (rewrite length_app, Lh; reflexivity).
  cbn [bind].
  pose proof (beValue_bounds [b3; b4; b5; b6]) as B.
  cbn [List.length Z.of_nat Pos.of_succ_nat Pos.succ] in B.
  change (256 ^ 4) with (2 ^ 32) in B.
  rewrite lor_shiftl_add by lia.
  rewrite shiftl_1.
  replace (beValue [b; b0; b1; b2] * 2 ^ 32 + beValue [b3; b4; b5; b6])
    with (beValue [b; b0; b1; b2; b3; b4; b5; b6]).
  2:{ change [b; b0; b1; b2; b3; b4; b5; b6] with ([b; b0; b1; b2] ++ [b3; b4; b5; b6]).
      rewrite beValue_app. reflexivity. }
  reflexivity.
Qed.

(** The general path of [decodeUint], for a width above 64, reads the whole
    word and rejects it exactly when it holds 2^bits or more. *)
Lemma decodeUint_general_path (buffer : Buffer) (offset bits : Z) :
  64 < bits ->
  decodeUint buffer offset bits
  = let raw := beValue (wordAt buffer offset) in
    if 2 ^ bits <=? raw then Err (ValueTooLarge bits raw)
    else Ok (str (decimal raw), Num (offset + 32)).
Proof.
  intros Hb. unfold decodeUint. cbn [nadd].
  destruct (Z.leb_spec bits 64); [lia |].
  fold (wordAt buffer offset).
  rewrite toString_hex_empty, BigInt_hex, shiftl_1. cbv zeta.
  assert (R : forall v,
              (if v >? 2 ^ bits - 1 then Err (ValueTooLarge bits v)
               else Ok (str (decimal v), Num (offset + 32)))
              = (if 2 ^ bits <=? v then Err (ValueTooLarge bits v)
                 else Ok (str (decimal v), Num (offset + 32)))).
  { intros v. destruct (Z.gtb_spec v (2 ^ bits - 1)), (Z.leb_spec (2 ^ bits) v);
      (reflexivity || lia). }
  destruct (wordAt buffer offset) as [| b r] eqn:E; cbn [bind].
  - apply (R 0).
  - apply R.
Qed.

Lemma decodeInt_spec (buffer : Buffer) (offset bits : Z) :
  wordAt buffer offset <> [] ->
  decodeInt buffer offset bits
  = let raw := beValue (wordAt buffer offset) in
    let v := if raw >=? 2 ^ (bits - 1) then raw - 2 ^ bits else raw in
    if (v <? - 2 ^ (bits - 1)) || (v >? 2 ^ (bits - 1) - 1)
    then Err (ValueOutOfRange bits v)
    else Ok (str (decimal v), Num (offset + 32)).
Proof.
  intros Hne. unfold decodeInt. cbn [nadd].
  fold (wordAt buffer offset). rewrite BigInt_hex.
  destruct (wordAt buffer offset) as [| b r] eqn:E; [congruence |].
  cbn [bind]. rewrite !shiftl_1. reflexivity.
Qed.

(** At width 256 [decodeInt] is the two's-complement reading of the word:
    2^256 is subtracted exactly when the top bit is set, and no word is
    rejected. *)
Lemma decodeInt_256 (buffer : Buffer) (offset : Z) :
  0 <= offset -> offset + 32 <= buflen buffer ->
  decodeInt buffer offset 256
  = let raw := beValue (wordAt buffer offset) in
    Ok (str (decimal (if raw >=? 2 ^ 255 then raw - 2 ^ 256 else raw)),
        Num (offset + 32)).
Proof.
  intros H0 H1. rewrite decodeInt_spec by (apply wordAt_nonempty; assumption).
  cbv zeta. change (256 - 1) with 255.
  pose proof (wordAt_bounds buffer offset) as B.
  assert (E : 2 ^ 256 = 2 * 2 ^ 255) by reflexivity.
  destruct (Z.geb_spec (beValue (wordAt buffer offset)) (2 ^ 255)).
  - destruct (Z.ltb_spec (beValue (wordAt buffer offset) - 2 ^ 256) (- 2 ^ 255)); [lia |].
    destruct (Z.gtb_spec (beValue (wordAt buffer offset) - 2 ^ 256) (2 ^ 255 - 1)); [lia |].
    reflexivity.
  - destruct (Z.ltb_spec (beValue (wordAt buffer offset)) (- 2 ^ 255)); [lia |].
    destruct (Z.gtb_spec (beValue (wordAt buffer offset)) (2 ^ 255 - 1)); [lia |].
    reflexivity.
Qed.

(** A word below 2^(bits-1), a non-negative value of the width, is
    decoded as it is. *)
Lemma decodeInt_nonnegative (buffer : Buffer) (offset bits : Z) :
  0 <= offset -> offset + 32 <= buflen buffer -> 0 < bits ->
  beValue (wordAt buffer offset) < 2 ^ (bits - 1) ->
  decodeInt buffer offset bits
  = Ok (str (decimal (beValue (wordAt buffer offset))), Num (offset + 32)).
Proof.
  intros H0 H1 Hb Hraw. rewrite decodeInt_spec by (apply wordAt_nonempty; assumption).
  cbv zeta. pose proof (wordAt_bounds buffer offset) as B.
  assert (0 < 2 ^ (bits - 1)) by (apply Z.pow_pos_nonneg; lia).
  destruct (Z.geb_spec (beValue (wordAt buffer offset)) (2 ^ (bits - 1))); [lia |].
  destruct (Z.ltb_spec (beValue (wordAt buffer offset)) (- 2 ^ (bits - 1))); [lia |].
  destruct (Z.gtb_spec (beValue (wordAt buffer offset)) (2 ^ (bits - 1) - 1)); [lia |].
  reflexivity.
Qed.

Lemma decodeBytesAt_spec (buffer : Buffer) (offset : Z) :
  decodeBytesAt buffer offset
  = let len := beValue (wordAt buffer offset) in
    Ok (str ("0x" ++ toString_hex (buf_slice buffer (offset + 32) (offset + 32 + len))),
        Num (offset + 32 + (len + 31) / 32 * 32)).
Proof.
  unfold decodeBytesAt.
  rewrite decodeUint_256 by apply length_wordAt_any.
  cbn [bind]. rewrite Number_decimal. reflexivity.
Qed.

Lemma decodeUint_decimal (buffer : Buffer) (offset : num) (bits : Z)
    (s : jsstring) (next : num) :
  decodeUint buffer offset bits = Ok (s, next) ->
  exists z, 0 <= z /\ s = str (decimal z).
Proof.
  unfold decodeUint. intros H. invert_bind H as value Hvalue.
  destruct (value >? Z.shiftl 1 bits - 1); [discriminate |].
  injection H as <- _.
  exists value. split; [| reflexivity].
  destruct (bits <=? 64).
  - invert_bind Hvalue as high Hhigh. invert_bind Hvalue as low Hlow.
    injection Hvalue as <-.
    apply readUInt32BE_nonneg in Hhigh, Hlow.
    exact (proj2 (Z.lor_nonneg (Z.shiftl high 32) low)
             (conj (proj2 (Z.shiftl_nonneg high 32) Hhigh) Hlow)).
  - rewrite toString_hex_empty, BigInt_hex in Hvalue.
    destruct (buf_slice buffer offset (nadd offset 32)) as [| b r] eqn:E;
      injection Hvalue as <-; [lia | apply beValue_bounds].
Qed.

(** ** The parsers of [uintN] and [intN] *)

Lemma validWidth_cases (bits : Z) :
  validWidth bits -> exists k, bits = 8 * k /\ 1 <= k <= 32.
Proof.
  intros [Hr Hm]. exists (bits / 8).
  pose proof (Z.div_mod bits 8). lia.
Qed.

Ltac each_width bits H :=
  let k := fresh "k" in
  let Hk := fresh "Hk" in
  let E := fresh "E" in
  destruct (validWidth_cases bits H) as (k & E & Hk);
  assert (k = 1 \/ k = 2 \/ k = 3 \/ k = 4 \/ k = 5 \/ k = 6 \/ k = 7 \/ k = 8 \/
          k = 9 \/ k = 10 \/ k = 11 \/ k = 12 \/ k = 13 \/ k = 14 \/ k = 15 \/ k = 16 \/
          k = 17 \/ k = 18 \/ k = 19 \/ k = 20 \/ k = 21 \/ k = 22 \/ k = 23 \/ k = 24 \/
          k = 25 \/ k = 26 \/ k = 27 \/ k = 28 \/ k = 29 \/ k = 30 \/ k = 31 \/ k = 32)
    as Hcases by lia;
  clear Hk H;
  repeat (destruct Hcases as [Hcases | Hcases]; [subst k bits | ]);
  [.. | subst k bits].

Lemma decodeParameter_uint (bits : Z) (buffer : Buffer) (offset : num) :
  validWidth bits ->
  decodeParameter (TStr (uintType bits)) buffer offset
  = '(v, n) <- decodeUint buffer offset bits ;; Ok (VStr v, n).
Proof. intros H. each_width bits H; reflexivity. Qed.

Lemma decodeParameter_int (bits : Z) (buffer : Buffer) (offset : num) :
  validWidth bits ->
  decodeParameter (TStr (intType bits)) buffer offset
  = '(v, n) <- decodeInt buffer offset bits ;; Ok (VStr v, n).
Proof. intros H. each_width bits H; reflexivity. Qed.

(** ** The recursion bound

    A type string nested in a tuple or an array is shorter than the string
    that holds it, so [type_fuel] bounds the recursion of [isDynamicType] and
    of [decodeParameter]: neither reports [OutOfFuel], and more fuel does
    not change a result. *)

Lemma length_substring (n m : nat) (s : string) :
  (String.length (String.substring n m s) <= m)%nat.
Proof.
  revert n m. induction s as [| c r IH]; intros n m.
  - destruct n, m; cbn; lia.
  - destruct n as [| n'].
    + destruct m as [| m']; cbn [String.substring String.length]; [lia |].
      specialize (IH O m'). lia.
    + cbn [String.substring]. apply IH.
Qed.

Lemma length_substring_le (n m : nat) (s : string) :
  (String.length (String.substring n m s) <= String.length s - n)%nat.
Proof.
  revert n m. induction s as [| c r IH]; intros n m.
  - destruct n, m; cbn; lia.
  - destruct n as [| n'].
    + destruct m as [| m']; cbn [String.substring String.length]; [lia |].
      specialize (IH O m'). lia.
    + cbn [String.substring String.length]. specialize (IH n' m). lia.
Qed.

Lemma match_tuple_length (s inner : string) :
  match_tuple s = Some inner -> (String.length inner + 7 <= String.length s)%nat.
Proof.
  unfold match_tuple. destruct (startsWith s "tuple("); [| discriminate].
  set (rest := substringFrom s 6).
  destruct (Nat.leb_spec 2 (String.length rest)) as [H2 |]; [| discriminate].
  cbn [andb].
  destruct (_ && _); [| discriminate].
  intros [= <-].
  pose proof (length_substring 0 (String.length rest - 1) rest) as L1.
  assert (L2 : (String.length rest <= String.length s - 6)%nat)
    by apply length_substring_le.
  lia.
Qed.

Lemma length_trimStart (s : string) : (String.length (trimStart s) <= String.length s)%nat.
Proof.
  induction s as [| c r IH]; [reflexivity |].
  cbn [trimStart]. destruct (isSpaceChar c); cbn [String.length]; lia.
Qed.

Lemma length_trimEnd (s : string) : (String.length (trimEnd s) <= String.length s)%nat.
Proof.
  induction s as [| c r IH]; [reflexivity |].
  cbn [trimEnd]. destruct (trimEnd r) as [| c' r'].
  - destruct (isSpaceChar c); cbn [String.length]; lia.
  - cbn [String.length] in *. lia.
Qed.

Lemma length_trim (s : string) : (String.length (trim s) <= String.length s)%nat.
Proof.
  unfold trim. pose proof (length_trimEnd (trimStart s)). pose proof (length_trimStart s). lia.
Qed.

Lemma length_append (a b : string) :
  String.length (a ++ b) = (String.length a + String.length b)%nat.
Proof. induction a as [| c r IH]; cbn [append String.length]; [reflexivity | lia]. Qed.

Lemma split_ws_from_length (s : string) :
  forall (cur : string) (inWs : bool) (p : string),
    In p (split_ws_from s cur inWs) ->
    (String.length p <= String.length cur + String.length s)%nat.
Proof.
  induction s as [| c r IH]; intros cur inWs p H.
  - cbn in H. destruct H as [<- | []]. lia.
  - cbn [split_ws_from String.length] in *.
    destruct (isSpaceChar c).
    + destruct inWs.
      * specialize (IH _ _ _ H). lia.
      * destruct H as [<- | H]; [lia |]. specialize (IH _ _ _ H). cbn in IH. lia.
    + specialize (IH _ _ _ H). rewrite length_append in IH. cbn in IH. lia.
Qed.

Lemma pushComponent_length (components : list (string * string)) (current : string)
    (k : nat) :
  (forall c, In c components -> (String.length (fst c) <= k)%nat) ->
  (String.length current <= k)%nat ->
  forall c, In c (pushComponent components current) -> (String.length (fst c) <= k)%nat.
Proof.
  intros Hc Hcur c H. unfold pushComponent in H.
  destruct (String.eqb (trim current) ""); [apply Hc, H |].
  apply in_app_or in H. destruct H as [H | [<- | []]]; [apply Hc, H |].
  cbn [fst].
  destruct (nth_in_or_default 0 (split_ws (trim current)) "") as [Hin | ->]; [| cbn; lia].
  apply split_ws_from_length in Hin. pose proof (length_trim current). cbn in Hin. lia.
Qed.

Lemma parseStep_bound (st : parse_state) (char : ascii) (k : nat) :
  parseBound st k -> parseBound (parseStep st char) (S k).
Proof.
  destruct st as [components depth current inType]. intros [Hc Hcur].
  cbn [ps_components ps_current] in *.
  assert (Hc' : forall c, In c components -> (String.length (fst c) <= S k)%nat)
    by (intros c Hin; specialize (Hc c Hin); lia).
  unfold parseStep.
  repeat match goal with
         | |- parseBound (if ?c then _ else _) _ => destruct c
         end;
    split; cbn [ps_components ps_current]; try assumption;
    rewrite ?length_append; cbn [String.length]; try lia.
  intros c Hin. apply (pushComponent_length components current (S k)); try assumption. lia.
Qed.

Lemma parseLoop_bound (s : string) :
  forall (st : parse_state) (k : nat),
    parseBound st k -> parseBound (parseLoop s st) (k + String.length s).
Proof.
  induction s as [| c r IH]; intros st k H.
  - cbn [parseLoop String.length]. rewrite Nat.add_0_r. exact H.
  - cbn [parseLoop String.length]. rewrite <- Nat.add_succ_comm.
    apply IH, parseStep_bound, H.
Qed.

Lemma parseTupleComponents_length (componentStr : string) (c : string * string) :
  In c (parseTupleComponents componentStr) ->
  (String.length (fst c) <= String.length componentStr)%nat.
Proof.
  unfold parseTupleComponents.
  assert (H0 : parseBound (mkParse [] 0 "" true) 0)
    by (split; [intros ? [] | cbn; lia]).
  destruct (parseLoop_bound componentStr _ _ H0) as [Hc Hcur].
  apply pushComponent_length; assumption.
Qed.

Lemma fuelFree_bind {A B : Type} (r : except A) (k : A -> except B) :
  fuelFree r -> (forall a, r = Ok a -> fuelFree (k a)) -> fuelFree (bind r k).
Proof.
  intros Hr Hk. destruct r as [a | e]; cbn [bind].
  - apply Hk. reflexivity.
  - intros [= ->]. apply Hr. reflexivity.
Qed.

Lemma fuelFree_Ok {A : Type} (a : A) : fuelFree (Ok a).
Proof. discriminate. Qed.

Lemma fuelFree_some {A : Type} (f : A -> except bool) (l : list A) :
  (forall x, In x l -> fuelFree (f x)) -> fuelFree (some f l).
Proof.
  induction l as [| x r IH]; intros H; [apply fuelFree_Ok |].
  cbn [some]. apply fuelFree_bind; [apply H; left; reflexivity |].
  intros [|] _; [apply fuelFree_Ok |]. apply IH. intros y Hy. apply H. right. exact Hy.
Qed.

Lemma list_max_In (l : list nat) (x : nat) : In x l -> (x <= list_max l)%nat.
Proof.
  intros H. pose proof (proj1 (list_max_le l (list_max l)) (Nat.le_refl _)) as F.
  rewrite Forall_forall in F. apply F, H.
Qed.

Lemma type_fuel_component (t nm : string) (cs : list abitype) (c : abitype) :
  In c cs -> (type_fuel c < type_fuel (TObj t nm (Some cs)))%nat.
Proof.
  intros H. cbn [type_fuel].
  pose proof (list_max_In (map type_fuel cs) (type_fuel c) (in_map _ _ _ H)). lia.
Qed.

Lemma type_fuel_typeStr (type : abitype) (typeStr : string) :
  typeStrOf type = Some typeStr -> (String.length typeStr < type_fuel type)%nat.
Proof.
  destruct type as [s | t nm [cs |]]; cbn [typeStrOf type_fuel].
  - intros [= <-]. lia.
  - destruct t; [discriminate |]. intros [= <-]. lia.
  - destruct t; [discriminate |]. intros [= <-]. lia.
Qed.

(** [isDynamicType] never exhausts its recursion bound. *)
Lemma isDynamicType_fuel_enough (fuel : nat) :
  forall type, (type_fuel type <= fuel)%nat -> fuelFree (isDynamicType_fuel fuel type).
Proof.
  induction fuel as [| fuel IH]; intros type Hf.
  - destruct type as [s | t nm [cs |]]; cbn [type_fuel] in Hf; lia.
  - cbn [isDynamicType_fuel].
    destruct (typeStrOf type) as [typeStr |] eqn:Et; [| discriminate].
    pose proof (type_fuel_typeStr _ _ Et) as Hlen.
    destruct (_ || _); [apply fuelFree_Ok |].
    destruct (includes typeStr "[]"); [apply fuelFree_Ok |].
    destruct (startsWith typeStr "tuple"); [| apply fuelFree_Ok].
    assert (Hstr : fuelFree
              match match_tuple typeStr with
              | Some inner =>
                  some (fun comp => isDynamicType_fuel fuel (TStr (fst comp)))
                    (parseTupleComponents inner)
              | None => Ok false
              end).
    { destruct (match_tuple typeStr) as [inner |] eqn:Em; [| apply fuelFree_Ok].
      apply fuelFree_some. intros c Hc. apply IH. cbn [type_fuel].
      pose proof (parseTupleComponents_length _ _ Hc).
      pose proof (match_tuple_length _ _ Em). lia. }
    destruct type as [s | t nm [cs |]]; try exact Hstr.
    apply fuelFree_some. intros c Hc. apply IH.
    pose proof (type_fuel_component t nm cs c Hc). lia.
Qed.

Lemma isDynamicType_fuelFree (type : abitype) : fuelFree (isDynamicType type).
Proof. apply isDynamicType_fuel_enough. lia. Qed.

(** With enough fuel the answer of [isDynamicType_fuel] does not depend on
    the fuel. *)
Lemma some_ext_in {A : Type} (f g : A -> except bool) (l : list A) :
  (forall x, In x l -> f x = g x) -> some f l = some g l.
Proof.
  induction l as [| x r IH]; intros H; [reflexivity |].
  cbn [some]. rewrite (H x) by (left; reflexivity).
  destruct (g x) as [[|] | e]; cbn [bind]; try reflexivity.
  apply IH. intros y Hy. apply H. right. exact Hy.
Qed.

Lemma isDynamicType_fuel_stable (n : nat) :
  forall m type,
    (type_fuel type <= n)%nat -> (type_fuel type <= m)%nat ->
    isDynamicType_fuel n type = isDynamicType_fuel m type.
Proof.
  induction n as [| n IH]; intros m type Hn Hm.
  - destruct type as [s | t nm [cs |]]; cbn [type_fuel] in Hn; lia.
  - destruct m as [| m];
      [destruct type as [s | t nm [cs |]]; cbn [type_fuel] in Hm; lia |].
    cbn [isDynamicType_fuel].
    destruct (typeStrOf type) as [typeStr |] eqn:Et; [| reflexivity].
    pose proof (type_fuel_typeStr _ _ Et) as Hlen.
    destruct (_ || _); [reflexivity |].
    destruct (includes typeStr "[]"); [reflexivity |].
    destruct (startsWith typeStr "tuple"); [| reflexivity].
    assert (Hstr :
              match match_tuple typeStr with
              | Some inner =>
                  some (fun comp => isDynamicType_fuel n (TStr (fst comp)))
                    (parseTupleComponents inner)
              | None => Ok false
              end
              = match match_tuple typeStr with
                | Some inner =>
                    some (fun comp => isDynamicType_fuel m (TStr (fst comp)))
                      (parseTupleComponents inner)
                | None => Ok false
                end).
    { destruct (match_tuple typeStr) as [inner |] eqn:Em; [| reflexivity].
      apply some_ext_in. intros c Hc.
      pose proof (parseTupleComponents_length _ _ Hc).
      pose proof (match_tuple_length _ _ Em).
      apply IH; cbn [type_fuel]; lia. }
    destruct type as [s | t nm [cs |]]; try exact Hstr.
    apply some_ext_in. intros c Hc.
    pose proof (type_fuel_component t nm cs c Hc).
    apply IH; lia.
Qed.

Lemma fuelFree_readUInt32BE (buffer : Buffer) (offset : num) :
  fuelFree (readUInt32BE buffer offset).
Proof.
  intros H. apply readUInt32BE_error in H. discriminate H.
Qed.

Lemma fuelFree_BigInt (s : string) : fuelFree (BigInt s).
Proof.
  unfold BigInt, fuelFree.
  repeat match goal with
         | |- context [match ?x with _ => _ end] => destruct x
         end; discriminate.
Qed.

Lemma fuelFree_decodeUint (buffer : Buffer) (offset : num) (bits : Z) :
  fuelFree (decodeUint buffer offset bits).
Proof.
  unfold decodeUint. apply fuelFree_bind.
  - destruct (bits <=? 64).
    + apply fuelFree_bind; [apply fuelFree_readUInt32BE |]. intros high _.
      apply fuelFree_bind; [apply fuelFree_readUInt32BE |]. intros low _.
      apply fuelFree_Ok.
    + destruct (String.eqb _ ""); [apply fuelFree_Ok | apply fuelFree_BigInt].
  - intros value _. destruct (value >? _); [discriminate | apply fuelFree_Ok].
Qed.

Lemma fuelFree_decodeInt (buffer : Buffer) (offset : num) (bits : Z) :
  fuelFree (decodeInt buffer offset bits).
Proof.
  unfold decodeInt. apply fuelFree_bind; [apply fuelFree_BigInt |].
  intros value _. destruct (_ || _); [discriminate | apply fuelFree_Ok].
Qed.

Lemma fuelFree_decodeBool (buffer : Buffer) (offset : num) :
  fuelFree (decodeBool buffer offset).
Proof.
  unfold decodeBool. apply fuelFree_bind; [| intros; apply fuelFree_Ok].
  unfold readUInt8. destruct (nadd offset 31) as [| o]; [discriminate |].
  destruct (buf_at buffer o); discriminate.
Qed.

Lemma fuelFree_decodeBytesAt (buffer : Buffer) (offset : num) :
  fuelFree (decodeBytesAt buffer offset).
Proof.
  unfold decodeBytesAt. apply fuelFree_bind; [apply fuelFree_decodeUint |].
  intros [lengthStr n] _. apply fuelFree_Ok.
Qed.

Lemma fuelFree_decodeString (buffer : Buffer) (offset : num) :
  fuelFree (decodeString buffer offset).
Proof.
  unfold decodeString, decodeBytes. apply fuelFree_bind; [apply fuelFree_decodeBytesAt |].
  intros [bytesValue n] _. apply fuelFree_Ok.
Qed.

Create HintDb fuel.
#[local] Hint Resolve fuelFree_Ok fuelFree_decodeUint fuelFree_decodeInt
  fuelFree_decodeBool fuelFree_decodeBytesAt fuelFree_decodeString
  isDynamicType_fuelFree : fuel.

Lemma indexOf_range (s : string) (c : ascii) : -1 <= indexOf s c < strlen s.
Proof.
  unfold strlen. induction s as [| d r IH]; cbn [indexOf String.length]; [lia |].
  destruct (Ascii.eqb d c); [lia |].
  destruct (Z.ltb_spec (indexOf r c) 0); lia.
Qed.

Lemma baseType_shorter (s : string) :
  s <> "" ->
  (String.length (slice s (Num 0) (Num (indexOf s "["))) < String.length s)%nat.
Proof.
  intros Hne. pose proof (indexOf_range s "[") as Hi.
  assert (Hlen : 0 < strlen s) by (unfold strlen; destruct s; [congruence | cbn; lia]).
  unfold slice, relIndex.
  change (0 <? 0) with false. cbv iota.
  rewrite (Z.min_l 0) by lia.
  pose proof (length_substring (Z.to_nat 0)
                (Z.to_nat ((if indexOf s "[" <? 0
                            then Z.max (strlen s + indexOf s "[") 0
                            else Z.min (indexOf s "[") (strlen s)) - 0)) s) as L.
  unfold strlen in *.
  destruct (Z.ltb_spec (indexOf s "[") 0); lia.
Qed.

Lemma includes_nonempty (s p : string) : includes s p = true -> p <> "" -> s <> "".
Proof.
  intros H Hp ->. cbn in H. destruct p; [congruence | discriminate].
Qed.

Section FuelFreeLoops.

Variable rec : abitype -> Buffer -> num -> except (value * num).

Lemma fuelFree_decodeDynamicElements (type baseType : string) (buffer : Buffer)
    (offset staticOffset : num) (count : nat) :
  (forall b o, fuelFree (rec (TStr baseType) b o)) ->
  forall (i : Z) (results : list value),
    fuelFree (decodeDynamicElements rec type baseType buffer offset staticOffset i
                count results).
Proof.
  intros Hrec. induction count as [| count IH]; intros i results; [apply fuelFree_Ok |].
  cbn [decodeDynamicElements].
  apply fuelFree_bind; [apply fuelFree_decodeUint |]. intros [elementStr n] _.
  apply fuelFree_bind; [apply isDynamicType_fuelFree |]. intros dynamic _.
  apply fuelFree_bind; [apply Hrec |]. intros [v n1] _. apply IH.
Qed.

Lemma fuelFree_decodeStaticElements (baseType : string) (buffer : Buffer) (count : nat) :
  (forall b o, fuelFree (rec (TStr baseType) b o)) ->
  forall (currentOffset : num) (results : list value),
    fuelFree (decodeStaticElements rec baseType buffer currentOffset count results).
Proof.
  intros Hrec. induction count as [| count IH]; intros currentOffset results;
    [apply fuelFree_Ok |].
  cbn [decodeStaticElements].
  apply fuelFree_bind; [apply Hrec |]. intros [v n1] _. apply IH.
Qed.

Lemma fuelFree_decodeArray (type : string) (buffer : Buffer) (offset : num) :
  (forall b o, fuelFree (rec (TStr (slice type 0 (indexOf type "["))) b o)) ->
  fuelFree (decodeArray rec type buffer offset).
Proof.
  intros Hrec. unfold decodeArray.
  apply fuelFree_bind; [apply isDynamicType_fuelFree |]. intros dynamic _.
  apply fuelFree_bind.
  { destruct dynamic; [| apply fuelFree_Ok].
    apply fuelFree_bind; [apply fuelFree_decodeUint |]. intros [s n] _. apply fuelFree_Ok. }
  intros currentOffset _.
  apply fuelFree_bind.
  { destruct (negb _); [apply fuelFree_Ok |].
    apply fuelFree_bind; [apply fuelFree_decodeUint |]. intros [s n] _. apply fuelFree_Ok. }
  intros [arrayLength currentOffset'] _.
  apply fuelFree_bind; [apply isDynamicType_fuelFree |]. intros dynamicBase _.
  destruct dynamicBase.
  - apply fuelFree_bind; [apply fuelFree_decodeDynamicElements, Hrec |].
    intros results _. apply fuelFree_Ok.
  - apply fuelFree_decodeStaticElements, Hrec.
Qed.

Variable Q : abitype -> Prop.
Hypothesis rec_fuelFree : forall c, Q c -> forall b o, fuelFree (rec c b o).

Lemma fuelFree_decodeTupleFirst (buffer : Buffer) (offset : num)
    (components : list abitype) :
  Forall Q components ->
  forall (i : nat) (result : list (string * value)) (currentOffset : num)
         (dynamicOffsets : list dynamicInfo),
    fuelFree (decodeTupleFirst rec components buffer offset i result currentOffset
                dynamicOffsets).
Proof.
  induction components as [| component rest IH]; intros HQ i result currentOffset
    dynamicOffsets; [apply fuelFree_Ok |].
  inversion HQ as [| ? ? Hc Hrest]; subst.
  cbn [decodeTupleFirst].
  apply fuelFree_bind; [apply isDynamicType_fuelFree |]. intros dynamic _.
  destruct dynamic.
  - apply fuelFree_bind; [apply fuelFree_decodeUint |]. intros [s n] _.
    apply (IH Hrest).
  - apply fuelFree_bind; [apply (rec_fuelFree _ Hc) |]. intros [v n] _.
    apply (IH Hrest).
Qed.

Lemma decodeTupleFirst_infos (buffer : Buffer) (offset : num)
    (components : list abitype) :
  Forall Q components ->
  forall (i : nat) (result : list (string * value)) (currentOffset : num)
         (dynamicOffsets : list dynamicInfo) out,
    Forall (fun info => Q (di_component info)) dynamicOffsets ->
    decodeTupleFirst rec components buffer offset i result currentOffset dynamicOffsets
    = Ok out ->
    Forall (fun info => Q (di_component info)) (snd out).
Proof.
  induction components as [| component rest IH]; intros HQ i result currentOffset
    dynamicOffsets out Hd H.
  - injection H as <-. exact Hd.
  - inversion HQ as [| ? ? Hc Hrest]; subst.
    cbn [decodeTupleFirst] in H. invert_bind H as dynamic Hdyn. destruct dynamic.
    + invert_bind H as [s n] Hs.
      refine (IH Hrest _ _ _ _ _ _ H).
      apply Forall_app. split; [exact Hd |]. constructor; [exact Hc | constructor].
    + invert_bind H as [v n] Hv. apply (IH Hrest _ _ _ _ _ Hd H).
Qed.

Lemma fuelFree_decodeTupleSecond (buffer : Buffer) (dynamicOffsets : list dynamicInfo) :
  Forall (fun info => Q (di_component info)) dynamicOffsets ->
  forall result, fuelFree (decodeTupleSecond rec dynamicOffsets buffer result).
Proof.
  induction dynamicOffsets as [| info rest IH]; intros HQ result; [apply fuelFree_Ok |].
  inversion HQ as [| ? ? Hc Hrest]; subst.
  cbn [decodeTupleSecond].
  apply fuelFree_bind; [apply (rec_fuelFree _ Hc) |]. intros [v n] _. apply (IH Hrest).
Qed.

Lemma fuelFree_decodeTuple (type : abitype) (buffer : Buffer) (offset : num) :
  (forall components, tupleComponents type = Ok components -> Forall Q components) ->
  fuelFree (decodeTuple rec type buffer offset).
Proof.
  intros HQ. unfold decodeTuple.
  apply fuelFree_bind.
  { unfold fuelFree.
    destruct type as [s | t nm [cs |]]; cbn [tupleComponents];
      [destruct (match_tuple s) | |]; discriminate. }
  intros components Hc. specialize (HQ _ Hc).
  apply fuelFree_bind; [apply fuelFree_decodeTupleFirst, HQ |].
  intros [[result currentOffset] dynamicOffsets] Hfirst.
  apply fuelFree_bind; [| intros; apply fuelFree_Ok].
  apply fuelFree_decodeTupleSecond.
  apply (decodeTupleFirst_infos _ _ _ HQ _ _ _ _ _ (Forall_nil _) Hfirst).
Qed.

End FuelFreeLoops.

(** [decodeParameter] never exhausts its recursion bound: each of its
    errors is an exception of the code. *)
Lemma decodeParameter_fuel_enough (fuel : nat) :
  forall type buffer offset,
    (type_fuel type <= fuel)%nat ->
    fuelFree (decodeParameter_fuel fuel type buffer offset).
Proof.
  induction fuel as [| fuel IH]; intros type buffer offset Hf.
  - destruct type as [s | t nm [cs |]]; cbn [type_fuel] in Hf; lia.
  - cbn [decodeParameter_fuel]. unfold decodeParameter_body.
    destruct (typeStrOf type) as [typeStr |] eqn:Et; [| discriminate].
    pose proof (type_fuel_typeStr _ _ Et) as Hlen.
    destruct (includes typeStr "[") eqn:Ei.
    { apply fuelFree_bind; [| intros [v n] _; apply fuelFree_Ok].
      apply fuelFree_decodeArray. intros b o. apply IH. cbn [type_fuel].
      pose proof (baseType_shorter typeStr
                    (includes_nonempty _ _ Ei ltac:(discriminate))). lia. }
    destruct (startsWith typeStr "tuple").
    { apply fuelFree_bind; [| intros [v n] _; apply fuelFree_Ok].
      apply (fuelFree_decodeTuple _ (fun c => type_fuel c <= fuel)%nat).
      - intros c Hc b o. apply IH, Hc.
      - intros components Hc. apply Forall_forall. intros c Hin.
        destruct type as [s | t nm [cs |]]; cbn [tupleComponents] in Hc.
        + destruct (match_tuple s) as [inner |] eqn:Em; [| discriminate].
          injection Hc as <-. apply in_map_iff in Hin.
          destruct Hin as (p & <- & Hp). cbn [type_fuel].
          pose proof (parseTupleComponents_length _ _ Hp).
          pose proof (match_tuple_length _ _ Em).
          cbn [typeStrOf] in Et. injection Et as <-. lia.
        + injection Hc as <-.
          pose proof (type_fuel_component t nm cs c Hin). lia.
        + discriminate. }
    repeat match goal with
           | |- fuelFree (if ?c then _ else _) => destruct c
           end;
      first [ unfold fuelFree; discriminate
            | apply fuelFree_bind; [| intros [v n] _; apply fuelFree_Ok] ];
      unfold decodeBytes, decodeAddress, decodeFixedBytes; auto with fuel.
Qed.

Lemma decodeParameter_fuelFree (type : abitype) (buffer : Buffer) (offset : num) :
  fuelFree (decodeParameter type buffer offset).
Proof. apply decodeParameter_fuel_enough. lia. Qed.

Lemma fuelFree_decodeParametersLoop (buffer : Buffer) (types : list abitype) :
  forall (staticOffset : num) (results : list value),
    fuelFree (decodeParametersLoop types buffer staticOffset results).
Proof.
  induction types as [| t rest IH]; intros staticOffset results; [apply fuelFree_Ok |].
  cbn [decodeParametersLoop].
  apply fuelFree_bind; [apply isDynamicType_fuelFree |]. intros dynamic _.
  apply fuelFree_bind; [| intros [v n] _; apply IH].
  destruct dynamic; [| apply decodeParameter_fuelFree].
  apply fuelFree_bind; [apply fuelFree_decodeUint |].
  intros [s n] _. apply decodeParameter_fuelFree.
Qed.

Lemma fuelFree_decodeParameters (types : list abitype) (data : string) :
  fuelFree (decodeParameters types data).
Proof.
  unfold decodeParameters.
  destruct (_ || _); [apply fuelFree_Ok | apply fuelFree_decodeParametersLoop].
Qed.

Lemma fuelFree_decodeIndexed (topics : list string) (params : list EventInput) :
  forall (i : nat) (args : list (string * value)),
    fuelFree (decodeIndexed params topics i args).
Proof.
  induction params as [| p r IH]; intros i args; [apply fuelFree_Ok |].
  cbn [decodeIndexed].
  destruct (nth_error topics (i + 1)) as [[| c topic] |]; try apply IH.
  apply fuelFree_bind; [apply isDynamicType_fuelFree |]. intros [|] _; [apply IH |].
  apply fuelFree_bind; [apply decodeParameter_fuelFree |]. intros [v n] _. apply IH.
Qed.

(** No function of the decoder reports [OutOfFuel]. *)
Lemma fuelFree_decodeLog (eventAbi : EventAbi) (data : string) (topics : list string) :
  fuelFree (decodeLog eventAbi data topics).
Proof.
  unfold decodeLog.
  apply fuelFree_bind; [apply fuelFree_decodeIndexed |]. intros args _.
  apply fuelFree_bind; [| intros; apply fuelFree_Ok].
  destruct (_ && _); [| apply fuelFree_Ok].
  apply fuelFree_bind; [apply fuelFree_decodeParameters |]. intros; apply fuelFree_Ok.
Qed.

Section SameDecoder.

Variables rec1 rec2 : abitype -> Buffer -> num -> except (value * num).
Variable Q : abitype -> Prop.
Hypothesis rec_same : forall c, Q c -> forall b o, rec1 c b o = rec2 c b o.

Lemma decodeDynamicElements_ext (type baseType : string) (buffer : Buffer)
    (offset staticOffset : num) (count : nat) :
  Q (TStr baseType) ->
  forall (i : Z) (results : list value),
    decodeDynamicElements rec1 type baseType buffer offset staticOffset i count results
    = decodeDynamicElements rec2 type baseType buffer offset staticOffset i count results.
Proof.
  intros HQ. induction count as [| count IH]; intros i results; [reflexivity |].
  cbn [decodeDynamicElements].
  destruct (decodeUint _ _ _) as [[s n] | e]; [| reflexivity]. cbn [bind].
  destruct (isDynamicType _) as [dynamic | e]; [| reflexivity]. cbn [bind].
  rewrite (rec_same _ HQ).
  destruct (rec2 _ _ _) as [[v n1] | e]; [| reflexivity]. cbn [bind]. apply IH.
Qed.

Lemma decodeStaticElements_ext (baseType : string) (buffer : Buffer) (count : nat) :
  Q (TStr baseType) ->
  forall (currentOffset : num) (results : list value),
    decodeStaticElements rec1 baseType buffer currentOffset count results
    = decodeStaticElements rec2 baseType buffer currentOffset count results.
Proof.
  intros HQ. induction count as [| count IH]; intros currentOffset results;
    [reflexivity |].
  cbn [decodeStaticElements]. rewrite (rec_same _ HQ).
  destruct (rec2 _ _ _) as [[v n1] | e]; [| reflexivity]. cbn [bind]. apply IH.
Qed.

Lemma decodeArray_ext (type : string) (buffer : Buffer) (offset : num) :
  Q (TStr (slice type 0 (indexOf type "["))) ->
  decodeArray rec1 type buffer offset = decodeArray rec2 type buffer offset.
Proof.
  intros HQ. unfold decodeArray.
  destruct (isDynamicType (TStr type)) as [dynamic | e]; [| reflexivity]. cbn [bind].
  match goal with
  | |- bind ?X _ = _ => destruct X as [currentOffset | e]; [| reflexivity]
  end.
  cbn [bind].
  match goal with
  | |- bind ?X _ = _ => destruct X as [[arrayLength currentOffset'] | e]; [| reflexivity]
  end.
  cbn [bind].
  destruct (isDynamicType _) as [[|] | e]; [| | reflexivity]; cbn [bind].
  - rewrite (decodeDynamicElements_ext _ _ _ _ _ _ HQ). reflexivity.
  - apply (decodeStaticElements_ext _ _ _ HQ).
Qed.

Lemma decodeTupleFirst_ext (buffer : Buffer) (offset : num) (components : list abitype) :
  Forall Q components ->
  forall (i : nat) (result : list (string * value)) (currentOffset : num)
         (dynamicOffsets : list dynamicInfo),
    decodeTupleFirst rec1 components buffer offset i result currentOffset dynamicOffsets
    = decodeTupleFirst rec2 components buffer offset i result currentOffset dynamicOffsets.
Proof.
  induction components as [| component rest IH]; intros HQ i result currentOffset
    dynamicOffsets; [reflexivity |].
  inversion HQ as [| ? ? Hc Hrest]; subst.
  cbn [decodeTupleFirst].
  destruct (isDynamicType component) as [[|] | e]; [| | reflexivity]; cbn [bind].
  - destruct (decodeUint _ _ _) as [[s n] | e]; [| reflexivity]. cbn [bind].
    apply (IH Hrest).
  - rewrite (rec_same _ Hc).
    destruct (rec2 _ _ _) as [[v n1] | e]; [| reflexivity]. cbn [bind]. apply (IH Hrest).
Qed.

Lemma decodeTupleSecond_ext (buffer : Buffer) (dynamicOffsets : list dynamicInfo) :
  Forall (fun info => Q (di_component info)) dynamicOffsets ->
  forall result,
    decodeTupleSecond rec1 dynamicOffsets buffer result
    = decodeTupleSecond rec2 dynamicOffsets buffer result.
Proof.
  induction dynamicOffsets as [| info rest IH]; intros HQ result; [reflexivity |].
  inversion HQ as [| ? ? Hc Hrest]; subst.
  cbn [decodeTupleSecond]. rewrite (rec_same _ Hc).
  destruct (rec2 _ _ _) as [[v n1] | e]; [| reflexivity]. cbn [bind]. apply (IH Hrest).
Qed.

Lemma decodeTuple_ext (type : abitype) (buffer : Buffer) (offset : num) :
  (forall components, tupleComponents type = Ok components -> Forall Q components) ->
  decodeTuple rec1 type buffer offset = decodeTuple rec2 type buffer offset.
Proof.
  intros HQ. unfold decodeTuple.
  destruct (tupleComponents type) as [components | e] eqn:Ec; [| reflexivity].
  cbn [bind]. specialize (HQ _ eq_refl).
  rewrite (decodeTupleFirst_ext _ _ _ HQ).
  destruct (decodeTupleFirst rec2 _ _ _ _ _ _ _) as [[[result currentOffset] infos] | e]
    eqn:Ef; [| reflexivity].
  cbn [bind]. rewrite decodeTupleSecond_ext; [reflexivity |].
  apply (decodeTupleFirst_infos rec2 Q _ _ _ HQ _ _ _ _ _ (Forall_nil _) Ef).
Qed.

End SameDecoder.

Lemma tupleComponents_fuel (type : abitype) (typeStr : string)
    (components : list abitype) (fuel : nat) :
  typeStrOf type = Some typeStr ->
  (type_fuel type <= S fuel)%nat ->
  tupleComponents type = Ok components ->
  Forall (fun c => (type_fuel c <= fuel)%nat) components.
Proof.
  intros Et Hf Hc. apply Forall_forall. intros c Hin.
  destruct type as [s | t nm [cs |]]; cbn [tupleComponents] in Hc.
  - destruct (match_tuple s) as [inner |] eqn:Em; [| discriminate].
    injection Hc as <-. apply in_map_iff in Hin.
    destruct Hin as (p & <- & Hp). cbn [type_fuel] in *.
    pose proof (parseTupleComponents_length _ _ Hp).
    pose proof (match_tuple_length _ _ Em). lia.
  - injection Hc as <-.
    pose proof (type_fuel_component t nm cs c Hin). lia.
  - discriminate.
Qed.

(** With enough fuel the result of [decodeParameter_fuel] does not depend
    on the fuel. *)
Lemma decodeParameter_fuel_stable (n : nat) :
  forall m type buffer offset,
    (type_fuel type <= n)%nat -> (type_fuel type <= m)%nat ->
    decodeParameter_fuel n type buffer offset = decodeParameter_fuel m type buffer offset.
Proof.
  induction n as [| n IH]; intros m type buffer offset Hn Hm.
  - destruct type as [s | t nm [cs |]]; cbn [type_fuel] in Hn; lia.
  - destruct m as [| m];
      [destruct type as [s | t nm [cs |]]; cbn [type_fuel] in Hm; lia |].
    cbn [decodeParameter_fuel]. unfold decodeParameter_body.
    destruct (typeStrOf type) as [typeStr |] eqn:Et; [| reflexivity].
    pose proof (type_fuel_typeStr _ _ Et) as Hlen.
    destruct (includes typeStr "[") eqn:Ei.
    { rewrite (decodeArray_ext (decodeParameter_fuel n) (decodeParameter_fuel m)
                 (fun c => type_fuel c <= n /\ type_fuel c <= m)%nat);
        [reflexivity | intros c [H1 H2] b o; apply IH; assumption |].
      pose proof (baseType_shorter typeStr
                    (includes_nonempty _ _ Ei ltac:(discriminate))).
      cbn [type_fuel]. lia. }
    destruct (startsWith typeStr "tuple"); [| reflexivity].
    rewrite (decodeTuple_ext (decodeParameter_fuel n) (decodeParameter_fuel m)
               (fun c => type_fuel c <= n /\ type_fuel c <= m)%nat);
      [reflexivity | intros c [H1 H2] b o; apply IH; assumption |].
    intros components Hc.
    pose proof (tupleComponents_fuel _ _ _ n Et Hn Hc) as F1.
    pose proof (tupleComponents_fuel _ _ _ m Et Hm Hc) as F2.
    rewrite Forall_forall in *. intros c Hin. split; [apply F1 | apply F2]; exact Hin.
Qed.

(** ** C1: signed integers *)

(** C1: on the code, a word whose top bit is set (a sign-extended negative
    value, such as thirty-two 0xFF bytes for -1) is rejected by [decodeInt]
    for every width up to 248: the sign is tested at bit [bits - 1] and
    2^bits, not 2^256, is subtracted. *)
Theorem decodeInt_rejects_sign_extended_negative (buffer : Buffer) (offset bits : Z) :
  0 <= offset -> offset + 32 <= buflen buffer ->
  0 < bits <= 248 ->
  2 ^ 255 <= beValue (wordAt buffer offset) ->
  decodeInt buffer offset bits
  = Err (ValueOutOfRange bits (beValue (wordAt buffer offset) - 2 ^ bits)).
Proof.
  intros H0 H1 Hb Hraw.
  rewrite decodeInt_spec.
  2:{ pose proof (length_buf_slice_word buffer offset H0 H1) as L.
      destruct (wordAt buffer offset); [discriminate L | discriminate]. }
  cbv zeta.
  set (raw := beValue (wordAt buffer offset)) in *.
  assert (Hp1 : 0 < 2 ^ (bits - 1) <= 2 ^ 247).
  { split; [apply Z.pow_pos_nonneg; lia | apply Z.pow_le_mono_r; lia]. }
  assert (Hp2 : 2 ^ bits <= 2 ^ 248) by (apply Z.pow_le_mono_r; lia).
  assert (E1 : 2 ^ 255 = 256 * 2 ^ 247) by reflexivity.
  assert (E2 : 2 ^ 248 = 2 * 2 ^ 247) by reflexivity.
  destruct (Z.geb_spec raw (2 ^ (bits - 1))) as [_ | Hlt]; [| lia].
  destruct (Z.gtb_spec (raw - 2 ^ bits) (2 ^ (bits - 1) - 1)) as [_ | Hle]; [| lia].
  rewrite orb_true_r. reflexivity.
Qed.

Lemma decodeInt_rejects_sign_extended_negative_witness :
  beValue (wordAt minusOneWord 0) = 2 ^ 256 - 1 /\
  decodeInt minusOneWord 0 8 = Err (ValueOutOfRange 8 (2 ^ 256 - 1 - 2 ^ 8)).
Proof.
  split; [reflexivity |].
  apply (decodeInt_rejects_sign_extended_negative minusOneWord 0 8).
  - lia.
  - vm_compute. discriminate.
  - lia.
  - vm_compute. discriminate.
Defined.

(** The failing inputs of C1 and C3, through the parameter decoder. *)
Example decode_int8_minus_one :
  decodeParameter (TStr "int8") minusOneWord 0
  = Err (ValueOutOfRange 8 (2 ^ 256 - 1 - 2 ^ 8))
  /\ decodeParameter (TStr "int256") minusOneWord 0 = Ok (VStr (str "-1"), Num 32)
  /\ decodeParameter (TStr "int8") (wordOf 255) 0 = Ok (VStr (str "-1"), Num 32).
Proof. repeat split; vm_compute; reflexivity. Qed.

(** ** C2: the dynamism predicate *)

Lemma prefix_bracket_digit (c : ascii) (r : string) :
  isDigitChar c = true -> String.prefix "[]" (String c r) = false.
Proof.
  intros H. cbn [String.prefix].
  destruct (ascii_dec "[" c) as [<- | _]; [discriminate H | reflexivity].
Qed.

Lemma includes_digits_close (s : string) :
  everyChar isDigitChar s = true -> includes (s ++ "]") "[]" = false.
Proof.
  induction s as [| c r IH]; intros H; [reflexivity |].
  cbn [everyChar] in H. apply andb_prop in H. destruct H as [Hc Hr].
  change (String c r ++ "]")%string with (String c (r ++ "]")).
  cbn [includes]. rewrite (prefix_bracket_digit c _ Hc), (IH Hr). reflexivity.
Qed.

Lemma includes_open_bracket (c : ascii) (r : string) :
  everyChar isDigitChar (String c r) = true ->
  includes (String "[" (String c r ++ "]")) "[]" = false.
Proof.
  intros Hd. pose proof (includes_digits_close _ Hd) as Hi.
  cbn [includes]. rewrite Hi.
  change (String c r ++ "]")%string with (String c (r ++ "]")).
  cbn [everyChar] in Hd. apply andb_prop in Hd. destruct Hd as [Hc _].
  cbn [String.prefix]. destruct (ascii_dec "[" "["); [| reflexivity].
  destruct (ascii_dec "]" c) as [<- | _]; [discriminate Hc | reflexivity].
Qed.

Lemma isDynamicType_plain (s : string) :
  String.eqb s "string" = false -> String.eqb s "bytes" = false ->
  includes s "[]" = false -> startsWith s "tuple" = false ->
  isDynamicType (TStr s) = Ok false.
Proof.
  intros H1 H2 H3 H4. unfold isDynamicType.
  cbn [type_fuel isDynamicType_fuel typeStrOf].
  rewrite H1, H2, H3, H4. reflexivity.
Qed.

Lemma isDynamicType_string_array (n : Z) :
  0 <= n -> isDynamicType (TStr (fixedArrayType "string" n)) = Ok false.
Proof.
  intros Hn. destruct (decimal_digits n Hn) as (c & r & E & Hd).
  unfold fixedArrayType. rewrite E.
  pose proof (includes_open_bracket c r Hd) as Hi.
  set (tail := (String c r ++ "]")%string) in *.
  apply isDynamicType_plain; try reflexivity.
  cbn. cbn in Hi. exact Hi.
Qed.

Lemma isDynamicType_bytes_array (n : Z) :
  0 <= n -> isDynamicType (TStr (fixedArrayType "bytes" n)) = Ok false.
Proof.
  intros Hn. destruct (decimal_digits n Hn) as (c & r & E & Hd).
  unfold fixedArrayType. rewrite E.
  pose proof (includes_open_bracket c r Hd) as Hi.
  set (tail := (String c r ++ "]")%string) in *.
  apply isDynamicType_plain; try reflexivity.
  cbn. cbn in Hi. exact Hi.
Qed.

(** C2: on the code, a fixed array of a dynamic element is reported
    static: [isDynamicType] is true for [string] and [bytes] and false for
    [string[n]] and [bytes[n]], whatever the length n. *)
Theorem isDynamicType_misses_fixed_arrays (n : Z) :
  0 <= n ->
  isDynamicType (TStr "string") = Ok true
  /\ isDynamicType (TStr "bytes") = Ok true
  /\ isDynamicType (TStr (fixedArrayType "string" n)) = Ok false
  /\ isDynamicType (TStr (fixedArrayType "bytes" n)) = Ok false.
Proof.
  intros Hn. split; [reflexivity | split; [reflexivity | split]].
  - apply isDynamicType_string_array, Hn.
  - apply isDynamicType_bytes_array, Hn.
Qed.

Lemma isDynamicType_misses_fixed_arrays_witness :
  isDynamicType (TStr "string[2]") = Ok false
  /\ isDynamicType (TStr "bytes[3]") = Ok false.
Proof.
  split.
  - apply (isDynamicType_misses_fixed_arrays 2). lia.
  - apply (isDynamicType_misses_fixed_arrays 3). lia.
Defined.

(** The dynamism of a tuple follows its components, so a tuple whose only
    dynamic field is a fixed array of strings is reported static too. *)
Lemma isDynamicType_tuple_examples :
  isDynamicType (TStr "tuple(uint256,string)") = Ok true
  /\ isDynamicType (TStr "tuple(uint256,address)") = Ok false
  /\ isDynamicType (TStr "uint256[]") = Ok true
  /\ isDynamicType (TStr "uint256[2]") = Ok false
  /\ isDynamicType (TStr "tuple(uint256,string[2])") = Ok false
  /\ isDynamicType (TObj "tuple" "t" (Some [TObj "string[2]" "names" None])) = Ok false.
Proof. repeat split. Qed.

(** The older copy of [isDynamicType] misses the fixed arrays as well, and
    reports a tuple of static fields dynamic. *)
Lemma isDynamicType_older_examples :
  isDynamicType_older "string[2]" = false
  /\ isDynamicType_older "bytes[3]" = false
  /\ isDynamicType_older "tuple(uint256,address)" = true.
Proof. repeat split. Qed.

(** ** C3: unsigned integers *)

(** C3: on the code, a word that holds 2^bits or more is accepted by
    [decodeUint] for every width up to 64 when its low eight bytes hold a
    value below 2^bits: the fast path reads the low eight bytes only. *)
Theorem decodeUint_fast_path_ignores_high_bytes (hi lo : Buffer) (bits : Z) :
  List.length hi = 24%nat -> List.length lo = 8%nat ->
  0 <= bits <= 64 ->
  0 < beValue hi -> beValue lo < 2 ^ bits ->
  2 ^ bits <= beValue (wordAt (hi ++ lo) 0) /\
  decodeUint (hi ++ lo) 0 bits = Ok (str (decimal (beValue lo)), Num 32).
Proof.
  intros Lh Ll Hb Hhi Hlo. split.
  - assert (W : wordAt (hi ++ lo) 0 = hi ++ lo).
    { unfold wordAt, buf_slice, relIndex, buflen. rewrite length_app, Lh, Ll.
      cbn. apply firstn_all2. rewrite length_app, Lh, Ll. cbn. lia. }
    rewrite W, beValue_app, Ll.
    change (256 ^ Z.of_nat 8) with (2 ^ 64).
    pose proof (beValue_bounds lo) as B.
    assert (2 ^ bits <= 2 ^ 64) by (apply Z.pow_le_mono_r; lia).
    nia.
  - rewrite decodeUint_fast_path by (assumption || lia).
    destruct (Z.gtb_spec (beValue lo) (2 ^ bits - 1)); [lia | reflexivity].
Qed.

Lemma decodeUint_fast_path_ignores_high_bytes_witness :
  beValue pow64Word = 2 ^ 64 /\
  decodeUint pow64Word 0 8 = Ok (str "0", Num 32).
Proof.
  split; [reflexivity |].
  apply (decodeUint_fast_path_ignores_high_bytes
           (repeat x00 23 ++ [x01]) (repeat x00 8) 8).
  - reflexivity.
  - reflexivity.
  - lia.
  - vm_compute. reflexivity.
  - vm_compute. reflexivity.
Defined.

Example decode_uint_pow64 :
  decodeParameter (TStr "uint8") pow64Word 0 = Ok (VStr (str "0"), Num 32)
  /\ decodeParameter (TStr "uint64") pow64Word 0 = Ok (VStr (str "0"), Num 32)
  /\ decodeParameter (TStr "uint72") pow64Word 0
     = Ok (VStr (str "18446744073709551616"), Num 32)
  /\ decodeParameter (TStr "uint128") (repeat x00 15 ++ [x01] ++ repeat x00 16) 0
     = Err (ValueTooLarge 128 (2 ^ 128)).
Proof. repeat split; vm_compute; reflexivity. Qed.

(** Scenario 6 of the specification: 256 in a [uint8] slot is rejected. *)
Example decode_uint8_256 :
  decodeParameters [TStr "uint8"] word256 = Err (ValueTooLarge 8 256).
Proof. vm_compute. reflexivity. Qed.

(** ** C4: the head cursor of [decodeParameters] *)

Lemma decodeParametersLoop_slots (types : list abitype) (buffer : Buffer)
    (position : Z) (results : list value) :
  decodeParametersLoop types buffer position results
  = bind (mapE (fun slot => parameterAt (fst slot) buffer (Num (snd slot)))
               (headSlots types position))
         (fun values => Ok (results ++ values)).
Proof.
  revert position results.
  induction types as [| t rest IH]; intros position results.
  - cbn. rewrite app_nil_r. reflexivity.
  - cbn [decodeParametersLoop headSlots mapE fst snd nadd].
    unfold parameterAt at 1.
    destruct (isDynamicType t) as [dynamic | e]; [| reflexivity].
    cbn [bind].
    match goal with
    | |- bind ?X _ = _ => destruct X as [[v n] | e]; [| reflexivity]
    end.
    cbn [bind]. rewrite IH.
    destruct (mapE _ (headSlots rest (position + 32))) as [vs | e]; [| reflexivity].
    cbn [bind]. rewrite <- app_assoc. reflexivity.
Qed.

(** C4: on the code, the head cursor of [decodeParameters] advances by 32
    bytes after every parameter, whatever the head width of its type:
    parameter i is read at head position 32 * i. *)
Theorem decodeParameters_cursor_advances_by_32 (types : list abitype) (data : string) :
  data <> "" -> data <> "0x" ->
  decodeParameters types data
  = mapE (fun slot => parameterAt (fst slot) (hexToBuffer data) (Num (snd slot)))
         (headSlots types 0).
Proof.
  intros H1 H2. unfold decodeParameters.
  destruct (String.eqb_spec data ""); [contradiction |].
  destruct (String.eqb_spec data "0x"); [contradiction |].
  cbn [orb]. rewrite decodeParametersLoop_slots.
  cbn [app]. apply bind_Ok_r.
Qed.

Lemma decodeParameters_cursor_advances_by_32_witness :
  decodeParameters [TStr "uint256[2]"; TStr "uint256"] data123
  = Ok [VArray [VStr (str "1"); VStr (str "2")]; VStr (str "2")].
Proof.
  rewrite (decodeParameters_cursor_advances_by_32
             [TStr "uint256[2]"; TStr "uint256"] data123).
  - vm_compute. reflexivity.
  - discriminate.
  - discriminate.
Defined.

(** ** C5: reads past the end of the buffer *)

(** C5 (amended): the decoder has no Truncated error, and a read whose
    layout extends past the end of the buffer does this.  [decodeBool], and
    [decodeUint] for a width up to 64, throw the out-of-range error of the
    Buffer API; [decodeInt] throws the syntax error of BigInt when no byte
    of the word lies inside the buffer.  Every other read is computed from
    the bytes of the declared range that lie inside the buffer, as if the
    range ended there: [decodeAddress], [decodeFixedBytes] and the payload
    of [decodeBytesAt] return the shorter value; [decodeUint] for a width
    above 64, and [decodeInt] on a partial word, take the number [raw] that
    the remaining bytes hold, below 2^248, and throw exactly when it fails
    their own range check for the width, so an offset or length word
    ([decodeUint] at 256 bits) never fails. *)
Theorem reads_past_the_end (buffer : Buffer) (offset : Z) :
  0 <= offset ->
  (buflen buffer < offset + 32 ->
     let raw := beValue (skipn (Z.to_nat offset) buffer) in
     decodeBool buffer offset = Err ERR_OUT_OF_RANGE
     /\ (forall bits, bits <= 64 -> decodeUint buffer offset bits = Err ERR_OUT_OF_RANGE)
     /\ 0 <= raw < 2 ^ 248
     /\ (forall bits, 64 < bits ->
           behaves (decodeUint buffer offset bits)
             (if 2 ^ bits <=? raw then Throws (ValueTooLarge bits raw)
              else Returns (str (decimal raw)) (offset + 32)))
     /\ (forall bits, buflen buffer <= offset ->
           decodeInt buffer offset bits = Err (SyntaxError "0x"))
     /\ (forall bits, offset < buflen buffer ->
           let v := if raw >=? 2 ^ (bits - 1) then raw - 2 ^ bits else raw in
           behaves (decodeInt buffer offset bits)
             (if (v <? - 2 ^ (bits - 1)) || (v >? 2 ^ (bits - 1) - 1)
              then Throws (ValueOutOfRange bits v)
              else Returns (str (decimal v)) (offset + 32)))
     /\ behaves (decodeAddress buffer offset)
          (Returns (str ("0x" ++ toString_hex (skipn (Z.to_nat (offset + 12)) buffer)))
             (offset + 32))
     /\ (List.length (skipn (Z.to_nat (offset + 12)) buffer) < 20)%nat)
  /\ (forall size, 0 < size -> buflen buffer < offset + size ->
        behaves (decodeFixedBytes buffer offset size)
          (Returns (str ("0x" ++ toString_hex (skipn (Z.to_nat offset) buffer)))
             (offset + 32))
        /\ Z.of_nat (List.length (skipn (Z.to_nat offset) buffer)) < size)
  /\ (forall len, offset + 32 <= buflen buffer ->
        beValue (wordAt buffer offset) = len -> buflen buffer < offset + 32 + len ->
        behaves (decodeBytesAt buffer offset)
          (Returns (str ("0x" ++ toString_hex (skipn (Z.to_nat (offset + 32)) buffer)))
             (offset + 32 + (len + 31) / 32 * 32))
        /\ Z.of_nat (List.length (skipn (Z.to_nat (offset + 32)) buffer)) < len).
Proof.
  intros H0. split; [intros Hend | split; [intros size Hs Hend | intros len Hin Hlen Hend]].
  - assert (Hword : wordAt buffer offset = skipn (Z.to_nat offset) buffer)
      by (unfold wordAt; apply buf_slice_to_end; lia).
    assert (Hraw : 0 <= beValue (skipn (Z.to_nat offset) buffer) < 2 ^ 248).
    { pose proof (beValue_bounds (skipn (Z.to_nat offset) buffer)) as B.
      assert (P : 256 ^ Z.of_nat (List.length (skipn (Z.to_nat offset) buffer))
                  <= 256 ^ 31)
        by (apply Z.pow_le_mono_r; [lia | rewrite length_skipn; unfold buflen in *; lia]).
      change (256 ^ 31) with (2 ^ 248) in P. lia. }
    cbv zeta.
    split; [| split; [| split; [exact Hraw | split; [| split; [| split; [| split]]]]]].
    + unfold decodeBool, readUInt8. cbn [nadd].
      rewrite (buf_at_past_end buffer (offset + 31)) by lia. reflexivity.
    + intros bits Hb. unfold decodeUint. cbn [nadd].
      destruct (Z.leb_spec bits 64); [| lia].
      destruct (readUInt32BE buffer (offset + 24)) as [high | e] eqn:Eh.
      * cbn [bind]. rewrite (readUInt32BE_past_end buffer (offset + 28)) by lia. reflexivity.
      * rewrite (readUInt32BE_error _ _ _ Eh). reflexivity.
    + intros bits Hb. rewrite decodeUint_general_path by assumption.
      cbv zeta. rewrite Hword.
      destruct (2 ^ bits <=? _); cbn [behaves]; [reflexivity |].
      eexists. split; [reflexivity | intros _; reflexivity].
    + intros bits Hout. unfold decodeInt. cbn [nadd].
      fold (wordAt buffer offset). rewrite Hword, skipn_all2 by (unfold buflen in Hout; lia).
      reflexivity.
    + intros bits Hin.
      assert (Hlen : (0 < List.length (wordAt buffer offset))%nat)
        by (rewrite Hword, length_skipn; unfold buflen in *; lia).
      rewrite decodeInt_spec by (destruct (wordAt buffer offset); [cbn in Hlen; lia | discriminate]).
      cbv zeta. rewrite Hword.
      destruct (_ || _); cbn [behaves]; [reflexivity |].
      eexists. split; [reflexivity | intros _; reflexivity].
    + unfold decodeAddress. cbn [nadd behaves].
      rewrite buf_slice_to_end by lia.
      eexists. split; [reflexivity | intros _; reflexivity].
    + unfold buflen in Hend. rewrite length_skipn. lia.
  - split.
    + unfold decodeFixedBytes. cbn [nadd behaves].
      rewrite buf_slice_to_end by lia.
      eexists. split; [reflexivity | intros _; reflexivity].
    + unfold buflen in Hend. rewrite length_skipn. lia.
  - split.
    + unfold decodeBytesAt.
      rewrite decodeUint_256 by (apply length_wordAt; assumption).
      cbn [bind]. rewrite Number_decimal. cbn [nadd ceil32 behaves].
      rewrite Hlen.
      rewrite buf_slice_to_end by lia.
      eexists. split; [reflexivity | intros _; reflexivity].
    + unfold buflen in Hend, Hin. rewrite length_skipn. lia.
Qed.

Lemma reads_past_the_end_witness :
  decodeAddress shortBuffer 0 = Ok (str "0x02030405", Num 32)
  /\ decodeUint shortBuffer 0 256 = Ok (str "4328719365", Num 32)
  /\ decodeInt shortBuffer 0 8 = Err (ValueOutOfRange 8 4328719109)
  /\ decodeBool shortBuffer 0 = Err ERR_OUT_OF_RANGE.
Proof.
  destruct (reads_past_the_end shortBuffer 0) as (H & _); [lia |].
  destruct H as (Hbool & _ & _ & Huint & _ & Hint & Haddr & _); [vm_compute; reflexivity |].
  assert (Hsafe : 0 + 32 <= MAX_SAFE_INTEGER) by (vm_compute; discriminate).
  destruct Haddr as (n1 & -> & Hn1). rewrite (Hn1 Hsafe).
  destruct (Huint 256) as (n2 & -> & Hn2); [lia |]. rewrite (Hn2 Hsafe).
  rewrite (Hint 8) by (vm_compute; reflexivity).
  split; [reflexivity | split; [reflexivity | split; [reflexivity | exact Hbool]]].
Defined.

(** C5, as stated, fails: sixteen bytes are decoded as an address without
    an error, and the value holds four bytes instead of twenty. *)
Lemma decodeAddress_truncated_buffer_no_error :
  buflen shortBuffer < 0 + 32
  /\ decodeAddress shortBuffer 0 = Ok (str "0x02030405", Num 32).
Proof. split; [vm_compute; reflexivity | reflexivity]. Qed.

(** ** C6: strings *)

Lemma js_trimStart_head (s : jsstring) : startsWithSpace (js_trimStart s) = false.
Proof.
  induction s as [| u r IH]; [reflexivity |].
  cbn [js_trimStart]. destruct (isWhiteSpace u) eqn:E; [exact IH |].
  cbn [startsWithSpace]. exact E.
Qed.

Lemma js_trimStart_suffix (s : jsstring) : exists p, s = p ++ js_trimStart s.
Proof.
  induction s as [| u r [p IH]]; [exists []; reflexivity |].
  cbn [js_trimStart]. destruct (isWhiteSpace u).
  - exists (u :: p). cbn [app]. f_equal. exact IH.
  - exists []. reflexivity.
Qed.

Lemma js_trim_prefix (s : jsstring) : exists q, js_trimStart s = js_trim s ++ q.
Proof.
  unfold js_trim.
  destruct (js_trimStart_suffix (rev (js_trimStart s))) as [p Hp].
  exists (rev p).
  rewrite <- rev_app_distr, <- Hp, rev_involutive. reflexivity.
Qed.

Lemma js_trim_trimmed (s : jsstring) :
  startsWithSpace (js_trim s) = false /\ startsWithSpace (rev (js_trim s)) = false.
Proof.
  split.
  - destruct (js_trim_prefix s) as [q Hq].
    pose proof (js_trimStart_head s) as H. rewrite Hq in H.
    destruct (js_trim s); [reflexivity | exact H].
  - unfold js_trim. rewrite rev_involutive. apply js_trimStart_head.
Qed.

Lemma js_trim_incl (s : jsstring) (u : Z) : In u (js_trim s) -> In u s.
Proof.
  intros H.
  destruct (js_trim_prefix s) as [q Hq].
  destruct (js_trimStart_suffix s) as [p Hp].
  rewrite Hp, Hq. apply in_or_app. right. apply in_or_app. left. exact H.
Qed.

Lemma removeNul_no_nul (s : jsstring) : ~ In 0 (removeNul s).
Proof.
  unfold removeNul. intros H. apply filter_In in H. destruct H as [_ H].
  discriminate H.
Qed.

(** C6 (amended): [decodeString] never rejects a payload.  The L payload
    bytes are read as UTF-8, every ill-formed sequence becoming U+FFFD, and
    the decoded value is that text with its NUL characters removed and its
    leading and trailing white space trimmed.  The next offset is the end
    of the padded payload when that is at most [MAX_SAFE_INTEGER]. *)
Theorem decodeString_replaces_and_cleans (buffer : Buffer) (offset : Z) :
  0 <= offset ->
  let L := beValue (wordAt buffer offset) in
  exists value next,
    decodeString buffer offset = Ok (value, next)
    /\ value = js_trim (removeNul (toString_utf8
                 (buf_slice buffer (offset + 32) (offset + 32 + L))))
    /\ ~ In 0 value
    /\ startsWithSpace value = false
    /\ startsWithSpace (rev value) = false
    /\ (offset + 32 + (L + 31) / 32 * 32 <= MAX_SAFE_INTEGER ->
        next = Num (offset + 32 + (L + 31) / 32 * 32)).
Proof.
  intros _. cbv zeta. eexists. eexists.
  split; [| split; [reflexivity | split; [| split; [| split]]]].
  - unfold decodeString, decodeBytes. rewrite decodeBytesAt_spec. cbv zeta. cbn [bind].
    change ("0x" ++ ?s)%string with (String "0" (String "x" s)).
    rewrite !str_cons. cbn [skipn]. rewrite Buffer_from_hex_toString. reflexivity.
  - intros H. apply js_trim_incl in H. exact (removeNul_no_nul _ H).
  - apply js_trim_trimmed.
  - apply js_trim_trimmed.
  - intros _. reflexivity.
Qed.

Lemma decodeString_replaces_and_cleans_witness :
  decodeString spacedString 0 = Ok (str "a", Num 64).
Proof.
  destruct (decodeString_replaces_and_cleans spacedString 0) as (value & next & H);
    [lia |].
  destruct H as (-> & -> & _ & _ & _ & Hnext).
  rewrite Hnext by (vm_compute; discriminate).
  vm_compute. reflexivity.
Defined.

(** C6, as stated, fails: white space and NUL characters of a valid payload
    are dropped, and a payload that is not UTF-8 is decoded without error. *)
Lemma decodeString_strips_and_accepts_invalid :
  validUtf8 [x20; x61; x20] = true
  /\ toString_utf8 [x20; x61; x20] = str " a "
  /\ decodeString spacedString 0 = Ok (str "a", Num 64)
  /\ validUtf8 [x61; x00; x62] = true
  /\ decodeString nulString 0 = Ok (str "ab", Num 64)
  /\ validUtf8 [xff] = false
  /\ decodeString invalidString 0 = Ok ([65533], Num 64).
Proof. repeat split; vm_compute; reflexivity. Qed.

(** ** C7: topics of a log *)

Lemma filter_indexed_covered (n : nat) (inputs : list EventInput) :
  filter (fun input => in_indexed input) (coveredInputs n inputs)
  = firstn n (filter (fun input => in_indexed input) inputs).
Proof.
  revert n. induction inputs as [| p r IH]; intros n.
  - destruct n; reflexivity.
  - cbn [coveredInputs filter]. destruct (in_indexed p) eqn:E.
    + destruct n as [| n'].
      * rewrite IH. reflexivity.
      * cbn [filter firstn]. rewrite E, IH. reflexivity.
    + cbn [filter]. rewrite E. apply IH.
Qed.

Lemma filter_plain_covered (n : nat) (inputs : list EventInput) :
  filter (fun input => negb (in_indexed input)) (coveredInputs n inputs)
  = filter (fun input => negb (in_indexed input)) inputs.
Proof.
  revert n. induction inputs as [| p r IH]; intros n; [reflexivity |].
  cbn [coveredInputs filter]. destruct (in_indexed p) eqn:E; cbn [negb].
  - destruct n as [| n']; [apply IH |].
    cbn [filter]. rewrite E. cbn [negb]. apply IH.
  - cbn [filter]. rewrite E. cbn [negb]. f_equal. apply IH.
Qed.

Lemma decodeIndexed_firstn (topics : list string) (params : list EventInput) :
  forall (n i : nat) (args : list (string * value)),
    (List.length topics <= i + n + 1)%nat ->
    decodeIndexed (firstn n params) topics i args = decodeIndexed params topics i args.
Proof.
  induction params as [| p r IH]; intros n i args Hlen.
  - destruct n; reflexivity.
  - destruct n as [| n'].
    + cbn [firstn decodeIndexed].
      assert (E : nth_error topics (i + 1) = None) by (apply nth_error_None; lia).
      rewrite E, <- (IH O (S i) args) by lia. reflexivity.
    + cbn [firstn decodeIndexed].
      destruct (nth_error topics (i + 1)) as [[| c topic] |].
      * apply IH. lia.
      * destruct (isDynamicType (TStr (in_type p))) as [[|] | e]; cbn [bind];
          [apply IH; lia | | reflexivity].
        destruct (decodeParameter _ _ _) as [[v next] | e]; cbn [bind];
          [apply IH; lia | reflexivity].
      * apply IH. lia.
Qed.

Lemma decodeIndexed_no_topics (topics : list string) (params : list EventInput) :
  forall (i : nat) (args : list (string * value)),
    (List.length topics <= i + 1)%nat ->
    decodeIndexed params topics i args = Ok args.
Proof.
  intros i args H. rewrite <- (decodeIndexed_firstn topics params O i args) by lia.
  reflexivity.
Qed.

(** C7 (amended): [decodeLog] has no topic-count failure.  An indexed
    parameter whose topic is missing is skipped: the record is the one
    decoded for the event without the indexed parameters that the topic
    list does not reach, and with no parameter topic and no data the
    record has no argument at all. *)
Theorem decodeLog_skips_missing_topics (eventAbi : EventAbi) (data : string)
    (topics : list string) :
  decodeLog eventAbi data topics
  = decodeLog (mkEvent (ev_name eventAbi)
                 (coveredInputs (List.length topics - 1) (ev_inputs eventAbi)))
      data topics
  /\ ((List.length topics <= 1)%nat ->
      decodeLog eventAbi "0x" topics = Ok (mkLog (ev_name eventAbi) [])).
Proof.
  split.
  - unfold decodeLog. cbn [ev_name ev_inputs].
    rewrite filter_indexed_covered, filter_plain_covered.
    rewrite decodeIndexed_firstn by lia. reflexivity.
  - intros H. unfold decodeLog.
    rewrite decodeIndexed_no_topics by lia.
    cbn [bind String.eqb negb andb]. rewrite andb_false_r. reflexivity.
Qed.

Lemma decodeLog_skips_missing_topics_witness :
  decodeLog transferEvent "0x" [transferTopic] = Ok (mkLog "Transfer" []).
Proof.
  apply (decodeLog_skips_missing_topics transferEvent "0x" [transferTopic]).
  cbn [List.length]. lia.
Defined.

(** C7, as stated, fails: with two indexed parameters and fewer than
    three topics the log is decoded, and the parameters without a topic
    are absent from the record. *)
Lemma decodeLog_too_few_topics_no_error :
  decodeLog transferEvent "0x" [transferTopic] = Ok (mkLog "Transfer" [])
  /\ decodeLog transferEvent "0x" [transferTopic; fromTopic]
     = Ok (mkLog "Transfer"
             [("from", VStr (str "0x742d35cc6634c0532925a3b8d8e9eed89b7a6de6"))])
  /\ (forall r,
        decodeLog transferEvent "0x" [transferTopic; fromTopic] = Ok r ->
        obj_get (log_args r) "to" = None).
Proof.
  split; [vm_compute; reflexivity | split; [vm_compute; reflexivity |]].
  intros r H. vm_compute in H. injection H as <-. reflexivity.
Qed.

(** ** C8: canonical type of a tuple *)

Lemma substring_all (s : string) : String.substring 0 (String.length s) s = s.
Proof. induction s as [| c r IH]; [reflexivity |]. cbn. rewrite IH. reflexivity. Qed.

(** C8 (amended): the canonical type of a tuple-typed parameter is the
    literal token [tuple], followed by the array suffix when there is one;
    the components are not consulted, and function and event signatures
    embed [tuple] for a tuple input. *)
Theorem getCanonicalType_tuple_is_literal (name : string)
    (components : option (list abitype)) :
  getCanonicalType (TObj "tuple" name components) = Ok "tuple"
  /\ (forall arrayPart,
        getCanonicalType (TObj ("tuple[" ++ arrayPart) name components)
        = Ok ("tuple[" ++ arrayPart)%string)
  /\ (forall f,
        getFunctionSignature (mkItem f [TObj "tuple" name components])
        = Ok (f ++ "(tuple)")%string)
  /\ (forall e,
        getEventSignature (mkItem e [TObj "tuple" name components])
        = Ok (e ++ "(tuple)")%string).
Proof.
  split; [reflexivity | split; [| split; reflexivity]].
  intros arrayPart. unfold getCanonicalType.
  assert (I : includes ("tuple[" ++ arrayPart) "[" = true)
    by (cbn; destruct arrayPart; reflexivity).
  assert (B : beforeChar ("tuple[" ++ arrayPart) "[" = "tuple") by reflexivity.
  rewrite I, B. unfold substringFrom.
  assert (S : String.substring (String.length "tuple")
                (String.length ("tuple[" ++ arrayPart) - String.length "tuple")
                ("tuple[" ++ arrayPart)
              = String "[" arrayPart).
  { cbn. rewrite substring_all. reflexivity. }
  rewrite S. reflexivity.
Qed.

(** C8, as stated, fails: a tuple of a uint256 and an address has the
    canonical type [tuple], where the specification expands it to
    [(uint256,address)]. *)
Lemma getCanonicalType_tuple_not_expanded :
  getCanonicalType pairParam = Ok "tuple"
  /\ specCanonical 2 pairParam = "(uint256,address)"
  /\ getFunctionSignature (mkItem "f" [pairParam]) = Ok "f(tuple)".
Proof. repeat split. Qed.

(** ** C9: elements of an array of dynamic elements *)

Section ArrayOfDynamicElements.

Variable rec : abitype -> Buffer -> num -> except (value * num).
Variables (type baseType : string) (buffer : Buffer) (offset : Z).
Hypothesis type_dynamic : isDynamicType (TStr type) = Ok true.

Lemma decodeDynamicElements_positions (staticOffset : Z) (count : nat) :
  forall (i : Z) (results : list value),
    decodeDynamicElements rec type baseType buffer offset staticOffset i count results
    = bind (mapE (elementAt rec baseType buffer offset staticOffset) (indices i count))
           (fun values => Ok (results ++ values)).
Proof.
  induction count as [| count IH]; intros i results.
  - cbn. rewrite app_nil_r. reflexivity.
  - cbn [decodeDynamicElements indices mapE nadd nmul].
    rewrite decodeUint_word. cbn [bind]. rewrite Number_decimal, type_dynamic.
    cbn [bind floor32 nadd]. unfold elementAt at 1.
    unfold elementPosition, elementOffsetAt.
    destruct (rec (TStr baseType) buffer _) as [[v next] | e]; [| reflexivity].
    cbn [bind]. rewrite IH.
    destruct (mapE _ (indices (i + 1) count)) as [vs | e]; [| reflexivity].
    cbn [bind]. rewrite <- app_assoc. reflexivity.
Qed.

End ArrayOfDynamicElements.

(** C9: when the array type is dynamic and so is its element type,
    [decodeArray] decodes element [i] at [elementPosition], that is at
    [floor(offset / 32) * 32 + elementOffset], where [offset] is the offset
    the array decoder was called with and [elementOffset] the word read
    from the offset table; the start of the table, [staticOffset], is not
    added.  The numbers involved are at most [MAX_SAFE_INTEGER]
    ([exactArray]). *)
Theorem decodeArray_dynamic_element_position
    (rec : abitype -> Buffer -> num -> except (value * num))
    (type : string) (buffer : Buffer) (offset : Z) :
  isDynamicType (TStr type) = Ok true ->
  isDynamicType (TStr (slice type 0 (indexOf type "["))) = Ok true ->
  exactArray type buffer offset ->
  decodeArray rec type buffer offset
  = let baseType := slice type 0 (indexOf type "[") in
    let dataOffset := beValue (wordAt buffer offset) in
    let '(arrayLength, staticOffset) := arrayHeader type buffer dataOffset in
    results <- mapE (elementAt rec baseType buffer offset staticOffset)
                 (indices 0 (loop_count arrayLength)) ;;
    Ok (results, nadd staticOffset (nmul arrayLength 32)).
Proof.
  intros Ht Hb _. unfold decodeArray, arrayHeader.
  rewrite Ht. cbn [bind]. rewrite decodeUint_word. cbn [bind].
  rewrite Number_decimal. cbv zeta.
  destruct (String.eqb (sliceFrom type (indexOf type "[")) "[]"); cbn [negb bind].
  - rewrite decodeUint_word. cbn [bind]. rewrite Number_decimal, Hb.
    cbn [bind]. rewrite (decodeDynamicElements_positions rec type _ buffer offset Ht).
    rewrite bind_assoc. reflexivity.
  - rewrite Hb. cbn [bind].
    rewrite (decodeDynamicElements_positions rec type _ buffer offset Ht).
    rewrite bind_assoc. reflexivity.
Qed.

Lemma decodeArray_dynamic_element_position_witness :
  elementPosition stringArrayBuffer 32 96 0 = 128
  /\ decodeArray (decodeParameter_fuel 2) "string[]" stringArrayBuffer 32
     = Ok ([VStr (str "hi")], Num 128).
Proof.
  split; [reflexivity |].
  rewrite (decodeArray_dynamic_element_position (decodeParameter_fuel 2) "string[]"
             stringArrayBuffer 32).
  - vm_compute. reflexivity.
  - vm_compute. reflexivity.
  - vm_compute. reflexivity.
  - split; [split; vm_compute; discriminate |].
    change (arrayHeader "string[]" stringArrayBuffer
              (beValue (wordAt stringArrayBuffer 32)))
      with (Num 1, 96).
    split; [reflexivity |]. split; [vm_compute; discriminate |].
    repeat constructor. vm_compute. discriminate.
Defined.

(** ** C10: integers are returned as decimal strings *)

Lemma obj_set_In (o : list (string * value)) (k : string) (v : value)
    (kv : string * value) :
  In kv (obj_set o k v) -> kv = (k, v) \/ In kv o.
Proof.
  unfold obj_set. destruct (String.eqb k "__proto__"); [intros H; right; exact H |].
  induction o as [| [k' v'] r IH]; cbn [obj_define].
  - intros [<- | []]. left. reflexivity.
  - destruct (String.eqb k' k).
    + intros [<- | H]; [left; reflexivity | right; right; exact H].
    + intros [<- | H]; [right; left; reflexivity |].
      destruct (IH H) as [-> | Hin]; [left; reflexivity | right; right; exact Hin].
Qed.

Section Provenance.

Variable rec : abitype -> Buffer -> num -> except (value * num).
Variable buffer : Buffer.




End Provenance.












Section NamedFields.

Variable rec : abitype -> Buffer -> num -> except (value * num).
Variable buffer : Buffer.
Variable all : list abitype.



End NamedFields.





Section LogArguments.

Variable eventAbi : EventAbi.
Variable data : string.
Variable topics : list string.



End LogArguments.





(** ** The inputs of the test suite *)

(** The decoder on the inputs of the test suite. *)
Example decode_transfer_result :
  decodeParameters [TObj "bool" "success" None] resultTrue = Ok [VBool true].
Proof. vm_compute. reflexivity. Qed.

Example decode_transfer_log :
  decodeLog transferEvent oneEther [transferTopic; fromTopic; toTopic]
  = Ok (mkLog "Transfer"
          [("from", VStr (str "0x742d35cc6634c0532925a3b8d8e9eed89b7a6de6"));
           ("to", VStr (str "0x742d35cc6634c0532925a3b8d8e9eed89b7a6de7"));
           ("value", VStr (str "1000000000000000000"))]).
Proof. vm_compute. reflexivity. Qed.

(** * Further properties: the helpers of lib/utils.js and the decoder *)

(** ** lib/utils.js: buffers and hexadecimal strings *)

Lemma sliceFrom_0x (s : string) : sliceFrom ("0x" ++ s) 2 = s.
Proof.
  unfold sliceFrom, slice, strlen, relIndex. cbn [String.length append].
  replace (2 <? 0) with false by reflexivity.
  replace (Z.of_nat (S (S (String.length s))) <? 0) with false
    by (symmetry; apply Z.ltb_ge; lia).
  rewrite Z.min_l by lia. rewrite Z.min_id.
  replace (Z.to_nat 2) with 2%nat by reflexivity.
  replace (Z.to_nat (Z.of_nat (S (S (String.length s))) - 2)) with (String.length s) by lia.
  cbn [String.substring]. apply substring_all.
Qed.

Lemma hexToBuffer_0x (s : string) : hexToBuffer ("0x" ++ s) = Buffer_from_hex (str s).
Proof.
  unfold hexToBuffer.
  replace (startsWith ("0x" ++ s) "0x") with true.
  - now rewrite sliceFrom_0x.
  - unfold startsWith. cbn. now destruct s.
Qed.

Lemma hexToBuffer_inverse (buffer : Buffer) :
  hexToBuffer (bufferToHex buffer) = buffer.
Proof.
  unfold bufferToHex. rewrite hexToBuffer_0x. apply Buffer_from_hex_toString.
Qed.

Lemma isHexUnit_hexDigit (d : Z) : 0 <= d < 16 -> isHexUnit (code (hexDigit d)) = true.
Proof. intros H. unfold isHexUnit. now rewrite hexValueOf_hexDigit. Qed.

Lemma forallb_isHexUnit_toString_hex (bs : Buffer) :
  forallb isHexUnit (str (toString_hex bs)) = true.
Proof.
  induction bs as [| b bs IH]; [reflexivity |].
  cbn [toString_hex]. rewrite !str_cons. cbn [forallb].
  destruct (byte_nibbles b) as (Hh & Hl & _).
  now rewrite (isHexUnit_hexDigit _ Hh), (isHexUnit_hexDigit _ Hl), IH.
Qed.

(** X1: [hexToBuffer] undoes [bufferToHex], and [isHex] accepts every
    string that [bufferToHex] returns. *)
Theorem bufferToHex_round_trip (buffer : Buffer) :
  hexToBuffer (bufferToHex buffer) = buffer
  /\ isHex (str (bufferToHex buffer)) = true.
Proof.
  split; [apply hexToBuffer_inverse |].
  unfold isHex, bufferToHex.
  change (str ("0x" ++ toString_hex buffer)) with (48 :: 120 :: str (toString_hex buffer)).
  cbn [js_startsWith0x skipn]. apply forallb_isHexUnit_toString_hex.
Qed.

Lemma str_app (a b : string) : str (a ++ b) = str a ++ str b.
Proof.
  unfold str. induction a as [| c a IH]; [reflexivity |].
  cbn [append list_ascii_of_string map app]. cbn [append list_ascii_of_string map app] in IH.
  now rewrite IH.
Qed.

Lemma Buffer_from_hex_app (bs : Buffer) (r : jsstring) :
  Buffer_from_hex (str (toString_hex bs) ++ r) = bs ++ Buffer_from_hex r.
Proof.
  induction bs as [| b bs IH]; [reflexivity |].
  cbn [toString_hex]. rewrite !str_cons. cbn [app Buffer_from_hex].
  destruct (byte_nibbles b) as (Hh & Hl & Hsum).
  rewrite (hexValueOf_hexDigit _ Hh), (hexValueOf_hexDigit _ Hl), Hsum, byteOfZ_byteVal.
  now rewrite IH.
Qed.

(** X2: [hexToBuffer] never fails: it decodes pairs of hexadecimal digits
    up to the first pair that is not one, and drops an odd last digit. *)
Theorem hexToBuffer_stops_at_invalid (buffer : Buffer) (c : ascii) (rest : string) :
  hexValue c = None ->
  hexToBuffer (bufferToHex buffer ++ String c rest) = buffer
  /\ (forall d, hexToBuffer (bufferToHex buffer ++ String d (String c rest)) = buffer)
  /\ (forall d, hexToBuffer (bufferToHex buffer ++ String d "") = buffer).
Proof.
  intros Hc. unfold bufferToHex.
  assert (E : forall r, (("0x" ++ toString_hex buffer) ++ r
                         = "0x" ++ (toString_hex buffer ++ r))%string)
    by reflexivity.
  repeat split; intros; rewrite E, hexToBuffer_0x, str_app, Buffer_from_hex_app.
  - rewrite str_cons. cbn [Buffer_from_hex].
    unfold hexValue in Hc. rewrite Hc.
    destruct (str rest); now rewrite app_nil_r.
  - rewrite !str_cons. cbn [Buffer_from_hex].
    unfold hexValue in Hc. rewrite Hc.
    destruct (hexValueOf (code d)); now rewrite app_nil_r.
  - cbn. now rewrite app_nil_r.
Qed.

Lemma hexToBuffer_stops_at_invalid_witness :
  hexToBuffer ("0x0102" ++ "zz03") = [x01; x02]
  /\ hexToBuffer ("0x0102" ++ "0") = [x01; x02].
Proof.
  split.
  - exact (proj1 (hexToBuffer_stops_at_invalid [x01; x02] "z" "z03" eq_refl)).
  - exact (proj2 (proj2 (hexToBuffer_stops_at_invalid [x01; x02] "z" "" eq_refl)) "0"%char).
Defined.

Lemma code_inj (c d : ascii) : code c = code d -> c = d.
Proof.
  unfold code. intros H. apply N2Z.inj in H.
  rewrite <- (ascii_N_embedding c), <- (ascii_N_embedding d). now rewrite H.
Qed.

Lemma isHex_prefix (s : string) :
  js_startsWith0x (str s) = true -> exists r, s = ("0x" ++ r)%string.
Proof.
  destruct s as [| c1 [| c2 r]]; try discriminate.
  rewrite !str_cons. cbn [js_startsWith0x]. intros H.
  apply andb_true_iff in H. destruct H as [H1 H2].
  apply Z.eqb_eq in H1, H2.
  apply (code_inj c1 "0") in H1. apply (code_inj c2 "x") in H2. subst.
  now exists r.
Qed.

Lemma length_Buffer_from_hex (n : nat) :
  forall r : string,
    (String.length r <= n)%nat ->
    forallb isHexUnit (str r) = true ->
    List.length (Buffer_from_hex (str r)) = Nat.div2 (String.length r).
Proof.
  induction n as [| n IH]; intros r Hn Hr.
  - destruct r; [reflexivity | cbn in Hn; lia].
  - destruct r as [| c1 [| c2 r]]; [reflexivity | reflexivity |].
    rewrite !str_cons in Hr |- *. cbn [forallb] in Hr.
    apply andb_true_iff in Hr. destruct Hr as [H1 Hr].
    apply andb_true_iff in Hr. destruct Hr as [H2 Hr].
    cbn [Buffer_from_hex String.length Nat.div2 List.length].
    unfold isHexUnit in H1, H2.
    destruct (hexValueOf (code c1)); [| discriminate].
    destruct (hexValueOf (code c2)); [| discriminate].
    cbn [List.length]. f_equal. apply IH; [cbn in Hn; lia | exact Hr].
Qed.

(** X3: a string that [isHex] accepts, with n digits after the prefix, is
    decoded by [hexToBuffer] into n / 2 bytes (rounded down). *)
Theorem isHex_hexToBuffer_length (s : string) :
  isHex (str s) = true ->
  buflen (hexToBuffer s) = (strlen s - 2) / 2.
Proof.
  unfold isHex. intros H. apply andb_true_iff in H. destruct H as [Hp Hd].
  destruct (isHex_prefix s Hp) as (r & ->).
  rewrite hexToBuffer_0x.
  change (skipn 2 (str ("0x" ++ r))) with (str r) in Hd.
  unfold buflen, strlen.
  rewrite (length_Buffer_from_hex (String.length r) r (le_n _) Hd).
  cbn [append String.length].
  rewrite Nat.div2_div, Nat2Z.inj_div.
  f_equal. lia.
Qed.

Lemma isHex_hexToBuffer_length_witness :
  isHex (str "0xABcde") = true /\ buflen (hexToBuffer "0xABcde") = (7 - 2) / 2.
Proof.
  split; [reflexivity | exact (isHex_hexToBuffer_length "0xABcde" eq_refl)].
Defined.

(** ** lib/utils.js: padding *)

Lemma beValue_zeros (n : nat) : beValue (repeat x00 n) = 0.
Proof.
  induction n as [| n IH]; [reflexivity |].
  change (repeat x00 (S n)) with ([x00] ++ repeat x00 n).
  rewrite beValue_app, IH. reflexivity.
Qed.

Lemma beValue_zeros_app (n : nat) (b : Buffer) : beValue (repeat x00 n ++ b) = beValue b.
Proof. rewrite beValue_app, beValue_zeros. lia. Qed.

Lemma buflen_app (a b : Buffer) : buflen (a ++ b) = buflen a + buflen b.
Proof. unfold buflen. rewrite length_app. lia. Qed.

Lemma buflen_zeros (n : nat) : buflen (repeat x00 n) = Z.of_nat n.
Proof. unfold buflen. now rewrite repeat_length. Qed.

Lemma buflen_nonneg (b : Buffer) : 0 <= buflen b.
Proof. unfold buflen. lia. Qed.

Lemma buf_slice_middle (pre w post : Buffer) :
  buf_slice (pre ++ w ++ post) (Num (buflen pre)) (Num (buflen pre + buflen w)) = w.
Proof.
  unfold buf_slice, relIndex. rewrite !buflen_app.
  pose proof (buflen_nonneg pre). pose proof (buflen_nonneg w).
  pose proof (buflen_nonneg post).
  replace (buflen pre <? 0) with false by (symmetry; apply Z.ltb_ge; lia).
  replace (buflen pre + buflen w <? 0) with false by (symmetry; apply Z.ltb_ge; lia).
  rewrite !Z.min_l by lia.
  replace (Z.to_nat (buflen pre)) with (List.length pre) by (unfold buflen; lia).
  replace (Z.to_nat (buflen pre + buflen w - buflen pre)) with (List.length w)
    by (unfold buflen; lia).
  rewrite skipn_app, skipn_all, Nat.sub_diag. cbn [app skipn].
  rewrite firstn_app, firstn_all, Nat.sub_diag. cbn [firstn]. apply app_nil_r.
Qed.

Lemma wordAt_middle (pre w post : Buffer) :
  List.length w = 32%nat -> wordAt (pre ++ w ++ post) (buflen pre) = w.
Proof.
  intros Hw. unfold wordAt.
  replace (buflen pre + 32) with (buflen pre + buflen w) by (unfold buflen; lia).
  apply buf_slice_middle.
Qed.

Lemma padLeft_spec (buffer : Buffer) (length : Z) :
  buflen (padLeft buffer length) = Z.max (buflen buffer) length
  /\ beValue (padLeft buffer length) = beValue buffer
  /\ skipn (List.length (padLeft buffer length) - List.length buffer)
       (padLeft buffer length) = buffer.
Proof.
  unfold padLeft, Buffer_alloc.
  pose proof (buflen_nonneg buffer) as Hb.
  destruct (buflen buffer >=? length) eqn:E.
  - apply Z.geb_le in E. rewrite Nat.sub_diag. repeat split. lia.
  - rewrite Z.geb_leb in E. apply Z.leb_gt in E.
    rewrite buflen_app, buflen_zeros, beValue_zeros_app, length_app, repeat_length.
    repeat split; [lia |].
    replace (Z.to_nat (length - buflen buffer) + List.length buffer - List.length buffer)%nat
      with (List.length (repeat x00 (Z.to_nat (length - buflen buffer))))
      by (rewrite repeat_length; lia).
    now rewrite skipn_app, skipn_all, Nat.sub_diag.
Qed.

Lemma padRight_spec (buffer : Buffer) (length : Z) :
  buflen (padRight buffer length) = Z.max (buflen buffer) length
  /\ firstn (List.length buffer) (padRight buffer length) = buffer
  /\ skipn (List.length buffer) (padRight buffer length)
     = repeat x00 (Z.to_nat (length - buflen buffer)).
Proof.
  unfold padRight, Buffer_alloc.
  pose proof (buflen_nonneg buffer) as Hb.
  destruct (buflen buffer >=? length) eqn:E.
  - apply Z.geb_le in E. rewrite firstn_all, skipn_all.
    repeat split; [lia |].
    replace (Z.to_nat (length - buflen buffer)) with O by lia. reflexivity.
  - rewrite Z.geb_leb in E. apply Z.leb_gt in E.
    rewrite buflen_app, buflen_zeros.
    repeat split; [lia | |].
    + now rewrite firstn_app, firstn_all, Nat.sub_diag, app_nil_r.
    + now rewrite skipn_app, skipn_all, Nat.sub_diag.
Qed.

Lemma wordAt_whole (w : Buffer) : (List.length w <= 32)%nat -> wordAt w 0 = w.
Proof.
  intros Hw. unfold wordAt. rewrite buf_slice_to_end by (unfold buflen; lia).
  reflexivity.
Qed.

(** X4: [padLeft] and [padRight] return a buffer of length
    max(buffer.length, length); [padLeft] keeps the bytes at the end and
    the big-endian value, [padRight] keeps the bytes at the start and
    appends zeros.  So a value of at most 32 bytes padded by [padLeft] is
    read back by [decodeUint], and bytes padded by [padRight] are read back
    by [decodeFixedBytes]. *)
Theorem padding_keeps_the_bytes (buffer : Buffer) (length : Z) :
  buflen (padLeft buffer length) = Z.max (buflen buffer) length
  /\ beValue (padLeft buffer length) = beValue buffer
  /\ skipn (List.length (padLeft buffer length) - List.length buffer)
       (padLeft buffer length) = buffer
  /\ buflen (padRight buffer length) = Z.max (buflen buffer) length
  /\ firstn (List.length buffer) (padRight buffer length) = buffer
  /\ skipn (List.length buffer) (padRight buffer length)
     = repeat x00 (Z.to_nat (length - buflen buffer))
  /\ (buflen buffer <= 32 ->
      decodeUint (padLeft buffer 32) 0 256 = Ok (str (decimal (beValue buffer)), Num 32))
  /\ decodeFixedBytes (padRight buffer 32) 0 (Num (buflen buffer))
     = Ok (str (bufferToHex buffer), Num 32).
Proof.
  destruct (padLeft_spec buffer length) as (L1 & L2 & L3).
  destruct (padRight_spec buffer length) as (R1 & R2 & R3).
  do 6 (split; [assumption |]). split.
  - intros Hlen. rewrite decodeUint_word.
    destruct (padLeft_spec buffer 32) as (Hl & Hv & _).
    rewrite wordAt_whole by (unfold buflen in Hl, Hlen; lia).
    now rewrite Hv.
  - unfold decodeFixedBytes, bufferToHex. cbn [nadd].
    destruct (padRight_spec buffer 32) as (_ & Hf & Hs).
    rewrite <- (firstn_skipn (List.length buffer) (padRight buffer 32)), Hf, Hs.
    pose proof (buf_slice_middle [] buffer (repeat x00 (Z.to_nat (32 - buflen buffer)))) as H.
    change (buflen []) with 0 in H. cbn [app] in H. now rewrite H.
Qed.

Lemma padding_keeps_the_bytes_witness :
  decodeUint (padLeft [x01; x00] 32) 0 256 = Ok (str "256", Num 32)
  /\ decodeFixedBytes (padRight [x01; x00] 32) 0 (Num 2) = Ok (str "0x0100", Num 32).
Proof.
  destruct (padding_keeps_the_bytes [x01; x00] 32) as (_ & _ & _ & _ & _ & _ & Hl & Hr).
  split; [apply Hl; vm_compute; discriminate | exact Hr].
Defined.

(** ** lib/utils.js: [toBigInt] *)

Lemma js_trimStart_id (s : jsstring) : startsWithSpace s = false -> js_trimStart s = s.
Proof. destruct s as [| u r]; [reflexivity |]. cbn. now intros ->. Qed.

Lemma js_trim_id (s : jsstring) :
  startsWithSpace s = false -> startsWithSpace (rev s) = false -> js_trim s = s.
Proof.
  intros H1 H2. unfold js_trim.
  now rewrite (js_trimStart_id s H1), (js_trimStart_id _ H2), rev_involutive.
Qed.

Lemma startsWithSpace_rev_cons (u : Z) (s : jsstring) :
  s <> [] -> startsWithSpace (rev (u :: s)) = startsWithSpace (rev s).
Proof.
  intros Hs. cbn [rev].
  destruct (rev s) as [| v r] eqn:E; [| reflexivity].
  apply (f_equal (@rev Z)) in E. rewrite rev_involutive in E. now subst.
Qed.

(** A string whose code units all satisfy [f], none of them white space,
    is left alone by [trim]. *)
Lemma js_trim_forallb (f : Z -> bool) (s : jsstring) :
  (forall u, f u = true -> isWhiteSpace u = false) ->
  forallb f s = true -> js_trim s = s.
Proof.
  intros Hf Hs. apply js_trim_id.
  - destruct s as [| u r]; [reflexivity |]. cbn in *.
    apply andb_true_iff in Hs. now apply Hf.
  - assert (Hr : forallb f (rev s) = true).
    { apply forallb_forall. intros x Hx. apply In_rev in Hx.
      now apply (proj1 (forallb_forall f s) Hs). }
    destruct (rev s) as [| u r]; [reflexivity |]. cbn in *.
    apply andb_true_iff in Hr. now apply Hf.
Qed.

Lemma isDecUnit_not_space (u : Z) : isDecUnit u = true -> isWhiteSpace u = false.
Proof.
  unfold isDecUnit, isWhiteSpace. intros H.
  apply andb_true_iff in H. destruct H as [H1 H2].
  apply Z.leb_le in H1, H2.
  repeat match goal with
         | |- context [?a <=? ?b] => destruct (Z.leb_spec a b); try lia
         | |- context [?a =? ?b] => destruct (Z.eqb_spec a b); try lia
         end; reflexivity.
Qed.

Lemma unitsDigits_forallb (s : jsstring) :
  forall acc v, unitsDigits s acc = Some v -> forallb isDecUnit s = true.
Proof.
  induction s as [| u r IH]; intros acc v H; [reflexivity |].
  cbn [unitsDigits forallb] in *. unfold isDecUnit at 1.
  destruct ((48 <=? u) && (u <=? 57)); [| discriminate].
  cbn. eapply IH, H.
Qed.

Lemma unitsValue_dec (s : jsstring) :
  forall acc, unitsValue decValueOf 10 s acc = unitsDigits s acc.
Proof.
  induction s as [| u r IH]; intros acc; [reflexivity |].
  cbn [unitsValue unitsDigits]. unfold decValueOf.
  destruct ((48 <=? u) && (u <=? 57)); [apply IH | reflexivity].
Qed.

Lemma StringToBigInt_digits (s : jsstring) (v : Z) :
  s <> [] -> unitsDigits s 0 = Some v -> StringToBigInt s = Some v.
Proof.
  intros Hs Hv. pose proof (unitsDigits_forallb s 0 v Hv) as Hd.
  unfold StringToBigInt.
  rewrite (js_trim_forallb isDecUnit s isDecUnit_not_space Hd).
  assert (G : digitsValue decValueOf 10 s = Some v).
  { destruct s; [congruence |]. unfold digitsValue. now rewrite unitsValue_dec. }
  destruct s as [| u r]; [congruence |].
  rewrite G.
  cbn [forallb] in Hd. apply andb_true_iff in Hd. destruct Hd as [Hu Hr].
  unfold isDecUnit in Hu. apply andb_true_iff in Hu. destruct Hu as [Hu1 Hu2].
  apply Z.leb_le in Hu1, Hu2.
  destruct (Z.eqb_spec u 45); [lia |].
  destruct (Z.eqb_spec u 43); [lia |].
  destruct (Z.eqb_spec u 48); [| reflexivity].
  destruct r as [| p d]; [reflexivity |].
  cbn [forallb] in Hr. apply andb_true_iff in Hr. destruct Hr as [Hp _].
  unfold isDecUnit in Hp. apply andb_true_iff in Hp. destruct Hp as [Hp1 Hp2].
  apply Z.leb_le in Hp1, Hp2.
  repeat match goal with
         | |- context [?a =? ?b] => destruct (Z.eqb_spec a b); try lia
         end.
  reflexivity.
Qed.

Lemma StringToBigInt_minus_digits (r : jsstring) (v : Z) :
  r <> [] -> unitsDigits r 0 = Some v -> StringToBigInt (45 :: r) = Some (- v).
Proof.
  intros Hr Hv. pose proof (unitsDigits_forallb r 0 v Hv) as Hd.
  unfold StringToBigInt.
  rewrite js_trim_id.
  - change (45 =? 45) with true. cbv iota.
    destruct r; [congruence |]. unfold digitsValue.
    now rewrite unitsValue_dec, Hv.
  - reflexivity.
  - rewrite startsWithSpace_rev_cons by assumption.
    assert (Hrev : forallb isDecUnit (rev r) = true).
    { apply forallb_forall. intros x Hx. apply In_rev in Hx.
      now apply (proj1 (forallb_forall isDecUnit r) Hd). }
    destruct (rev r) as [| u t]; [reflexivity |]. cbn in *.
    apply andb_true_iff in Hrev. now apply isDecUnit_not_space.
Qed.

Lemma StringToBigInt_uint (d : Decimal.uint) :
  StringToBigInt (str (NilZero.string_of_uint d)) = Some (Z.of_uint d).
Proof.
  destruct (Decimal.uint_eq_dec d Decimal.Nil) as [-> | Hne]; [reflexivity |].
  assert (E : NilZero.string_of_uint d = NilEmpty.string_of_uint d)
    by (destruct d; [congruence | reflexivity ..]).
  rewrite E. destruct (str_digits_head d Hne) as (u & r & Hs & _).
  apply StringToBigInt_digits; [rewrite Hs; discriminate |].
  now rewrite unitsDigits_uint, of_uint_value.
Qed.

Lemma StringToBigInt_decimal (z : Z) : StringToBigInt (str (decimal z)) = Some z.
Proof.
  unfold decimal.
  pose proof (DecimalZ.of_to z) as E.
  destruct (Z.to_int z) as [d | d] eqn:Ed; cbn [NilZero.string_of_int Z.of_int] in *.
  - now rewrite StringToBigInt_uint, E.
  - rewrite str_cons. change (code "-") with 45.
    assert (Hd : d <> Decimal.Nil).
    { intros ->. cbn in E. subst z. discriminate Ed. }
    assert (E2 : NilZero.string_of_uint d = NilEmpty.string_of_uint d)
      by (destruct d; [congruence | reflexivity ..]).
    rewrite E2. destruct (str_digits_head d Hd) as (u & r & Hs & _).
    rewrite <- E. apply StringToBigInt_minus_digits; [rewrite Hs; discriminate |].
    now rewrite unitsDigits_uint, of_uint_value.
Qed.

Lemma unitsValue_hex (bs : Buffer) (acc : Z) :
  unitsValue hexValueOf 16 (str (toString_hex bs)) acc
  = Some (fold_left (fun a b => a * 256 + byteVal b) bs acc).
Proof.
  revert acc. induction bs as [| b bs IH]; intros acc; [reflexivity |].
  cbn [toString_hex]. rewrite !str_cons. cbn [unitsValue fold_left].
  destruct (byte_nibbles b) as (Hh & Hl & Hsum).
  rewrite (hexValueOf_hexDigit _ Hh), (hexValueOf_hexDigit _ Hl), IH.
  do 2 f_equal. lia.
Qed.

Lemma isHexUnit_not_space (u : Z) : isHexUnit u = true -> isWhiteSpace u = false.
Proof.
  unfold isHexUnit, hexValueOf, isWhiteSpace. intros H.
  repeat match goal with
         | |- context [?a <=? ?b] => destruct (Z.leb_spec a b); try lia
         | |- context [?a =? ?b] => destruct (Z.eqb_spec a b); try lia
         | H : context [?a <=? ?b] |- _ => destruct (Z.leb_spec a b); try lia
         end; cbn in *; try reflexivity; try discriminate.
Qed.

Lemma toBigInt_hex (buffer : Buffer) :
  toBigInt (JString (str (bufferToHex buffer)))
  = match buffer with
    | [] => inr (BigIntSyntaxError (str "0x"))
    | _ => inl (beValue buffer)
    end.
Proof.
  unfold toBigInt, BigInt_of_string, StringToBigInt, bufferToHex.
  change (str ("0x" ++ toString_hex buffer)) with (48 :: 120 :: str (toString_hex buffer)).
  cbn [js_startsWith0x]. change ((48 =? 48) && (120 =? 120)) with true. cbv iota.
  rewrite (js_trim_forallb (fun u => isHexUnit u || (u =? 120))).
  - change (48 =? 45) with false. change (48 =? 43) with false.
    change (48 =? 48) with true. change ((120 =? 120) || (120 =? 88)) with true.
    cbv iota. unfold digitsValue.
    destruct buffer as [| b bs]; [reflexivity |].
    rewrite unitsValue_hex.
    now destruct (str (toString_hex (b :: bs))) eqn:E.
  - intros u H. apply orb_true_iff in H. destruct H as [H | H].
    + now apply isHexUnit_not_space.
    + apply Z.eqb_eq in H. now subst.
  - cbn [forallb]. change (isHexUnit 48 || (48 =? 120)) with true.
    change (isHexUnit 120 || (120 =? 120)) with true. cbn [andb].
    apply forallb_forall. intros u Hu.
    rewrite (proj1 (forallb_forall _ _) (forallb_isHexUnit_toString_hex buffer) u Hu).
    reflexivity.
Qed.

(** X5: [toBigInt] reads back the decimal rendering of every integer, and
    [toBigInt(bufferToHex(buffer))] is the big-endian value of the buffer;
    the empty buffer gives the literal 0x, which is rejected. *)
Theorem toBigInt_reads_literals (z : Z) (buffer : Buffer) :
  toBigInt (JString (str (decimal z))) = inl z
  /\ toBigInt (JString (str (bufferToHex buffer)))
     = match buffer with
       | [] => inr (BigIntSyntaxError (str "0x"))
       | _ => inl (beValue buffer)
       end.
Proof.
  split; [| apply toBigInt_hex].
  unfold toBigInt, BigInt_of_string. rewrite StringToBigInt_decimal.
  now destruct (js_startsWith0x _).
Qed.

(** ** The word decoders inside a larger buffer *)

Lemma buflen_length (b : Buffer) (n : nat) : List.length b = n -> buflen b = Z.of_nat n.
Proof. intros <-. reflexivity. Qed.

Lemma decodeUint_fast_path_at (pre hi lo post : Buffer) (bits : Z) :
  List.length hi = 24%nat -> List.length lo = 8%nat -> bits <= 64 ->
  decodeUint (pre ++ hi ++ lo ++ post) (buflen pre) bits
  = if beValue lo >? 2 ^ bits - 1 then Err (ValueTooLarge bits (beValue lo))
    else Ok (str (decimal (beValue lo)), Num (buflen pre + 32)).
Proof.
  intros Lh Ll Hb.
  do 8 (destruct lo as [| ? lo]; [discriminate Ll |]).
  destruct lo; [| discriminate Ll].
  unfold decodeUint. cbn [nadd].
  destruct (Z.leb_spec bits 64) as [_ | ?]; [| lia].
  cbn [app].
  rewrite (app_assoc pre hi).
  rewrite (readUInt32BE_app (pre ++ hi) b b0 b1 b2 (b3 :: b4 :: b5 :: b6 :: post)
             (buflen pre + 24))
    by (rewrite length_app, Lh; unfold buflen; lia).
  change (b :: b0 :: b1 :: b2 :: b3 :: b4 :: b5 :: b6 :: post)
    with ([b; b0; b1; b2] ++ b3 :: b4 :: b5 :: b6 :: post).
  rewrite (app_assoc (pre ++ hi)).
  rewrite (readUInt32BE_app ((pre ++ hi) ++ [b; b0; b1; b2]) b3 b4 b5 b6 post
             (buflen pre + 28))
    by (rewrite !length_app, Lh; unfold buflen; cbn [List.length]; lia).
  cbn [bind].
  pose proof (beValue_bounds [b3; b4; b5; b6]) as B.
  cbn [List.length Z.of_nat Pos.of_succ_nat Pos.succ] in B.
  change (256 ^ 4) with (2 ^ 32) in B.
  rewrite lor_shiftl_add by lia.
  rewrite shiftl_1.
  replace (beValue [b; b0; b1; b2] * 2 ^ 32 + beValue [b3; b4; b5; b6])
    with (beValue [b; b0; b1; b2; b3; b4; b5; b6]).
  2:{ change [b; b0; b1; b2; b3; b4; b5; b6] with ([b; b0; b1; b2] ++ [b3; b4; b5; b6]).
      rewrite beValue_app. reflexivity. }
  reflexivity.
Qed.

Lemma decodeUint_in_range (pre w post : Buffer) (bits : Z) :
  List.length w = 32%nat ->
  beValue w < 2 ^ bits ->
  decodeUint (pre ++ w ++ post) (buflen pre) bits
  = Ok (str (decimal (beValue w)), Num (buflen pre + 32)).
Proof.
  intros Lw Hv.
  destruct (Z.le_gt_cases bits 64) as [Hb | Hb].
  - assert (Lh : List.length (firstn 24 w) = 24%nat) by (rewrite length_firstn; lia).
    assert (Ll : List.length (skipn 24 w) = 8%nat) by (rewrite length_skipn; lia).
    assert (Ev : beValue w = beValue (firstn 24 w) * 256 ^ 8 + beValue (skipn 24 w)).
    { rewrite <- (firstn_skipn 24 w) at 1. rewrite beValue_app, Ll. reflexivity. }
    pose proof (beValue_bounds (firstn 24 w)) as Bh.
    pose proof (beValue_bounds (skipn 24 w)) as Bl.
    assert (P : 2 ^ bits <= 2 ^ 64).
    { destruct (Z.le_gt_cases 0 bits); [apply Z.pow_le_mono_r; lia |].
      rewrite Z.pow_neg_r by lia. lia. }
    change (256 ^ 8) with (2 ^ 64) in Ev.
    assert (Eh : beValue (firstn 24 w) = 0) by nia.
    rewrite <- (firstn_skipn 24 w) at 1. rewrite <- app_assoc.
    rewrite decodeUint_fast_path_at by assumption.
    rewrite Ev, Eh, Z.mul_0_l, Z.add_0_l in Hv |- *.
    destruct (Z.gtb_spec (beValue (skipn 24 w)) (2 ^ bits - 1)); [lia | reflexivity].
  - rewrite decodeUint_general_path by lia. cbv zeta.
    rewrite wordAt_middle by assumption.
    destruct (Z.leb_spec (2 ^ bits) (beValue w)); [lia | reflexivity].
Qed.

(** X6: a 32-byte word whose value fits the width is read back by
    [decodeUint], on the fast path and on the general one, wherever the
    word lies; above 64 bits a word that does not fit is rejected. *)
Theorem decodeUint_reads_word (pre w post : Buffer) (bits : Z) :
  List.length w = 32%nat ->
  (beValue w < 2 ^ bits ->
   decodeUint (pre ++ w ++ post) (buflen pre) bits
   = Ok (str (decimal (beValue w)), Num (buflen pre + 32)))
  /\ (64 < bits -> 2 ^ bits <= beValue w ->
      decodeUint (pre ++ w ++ post) (buflen pre) bits
      = Err (ValueTooLarge bits (beValue w))).
Proof.
  intros Lw. split; [now apply decodeUint_in_range |].
  intros Hb Hv. rewrite decodeUint_general_path by assumption. cbv zeta.
  rewrite wordAt_middle by assumption.
  destruct (Z.leb_spec (2 ^ bits) (beValue w)); [reflexivity | lia].
Qed.

Lemma decodeUint_reads_word_witness :
  decodeUint ([x00] ++ wordOf 7 ++ [xff]) (buflen [x00]) 8 = Ok (str "7", Num 33)
  /\ decodeUint ([] ++ (repeat x00 15 ++ [x01] ++ repeat x00 16) ++ []) (buflen []) 128
     = Err (ValueTooLarge 128 (2 ^ 128)).
Proof.
  split.
  - apply (proj1 (decodeUint_reads_word [x00] (wordOf 7) [xff] 8 eq_refl)).
    vm_compute. reflexivity.
  - apply (proj2 (decodeUint_reads_word [] (repeat x00 15 ++ [x01] ++ repeat x00 16) []
                    128 eq_refl)).
    + lia.
    + vm_compute. discriminate.
Defined.

(** X7: the 32-byte words that [decodeInt] accepts, and what it returns
    for them: a word below 2^(bits-1) is returned as it is, a word from
    there up to 2^bits + 2^(bits-1) is returned minus 2^bits, and every
    other word is rejected. *)
Theorem decodeInt_accepted_words (pre w post : Buffer) (bits : Z) :
  List.length w = 32%nat ->
  0 < bits ->
  decodeInt (pre ++ w ++ post) (buflen pre) bits
  = if beValue w <? 2 ^ (bits - 1)
    then Ok (str (decimal (beValue w)), Num (buflen pre + 32))
    else if beValue w <? 2 ^ bits + 2 ^ (bits - 1)
    then Ok (str (decimal (beValue w - 2 ^ bits)), Num (buflen pre + 32))
    else Err (ValueOutOfRange bits (beValue w - 2 ^ bits)).
Proof.
  intros Lw Hb.
  rewrite decodeInt_spec by (rewrite wordAt_middle by assumption; now destruct w).
  cbv zeta. rewrite wordAt_middle by assumption.
  pose proof (beValue_bounds w) as B.
  assert (P : 0 < 2 ^ (bits - 1)) by (apply Z.pow_pos_nonneg; lia).
  assert (E : 2 ^ bits = 2 * 2 ^ (bits - 1)).
  { replace bits with (Z.succ (bits - 1)) at 1 by lia. apply Z.pow_succ_r. lia. }
  destruct (Z.geb_spec (beValue w) (2 ^ (bits - 1))),
           (Z.ltb_spec (beValue w) (2 ^ (bits - 1))); try lia.
  - destruct (Z.ltb_spec (beValue w - 2 ^ bits) (- 2 ^ (bits - 1))); [lia |].
    cbn [orb].
    destruct (Z.gtb_spec (beValue w - 2 ^ bits) (2 ^ (bits - 1) - 1)),
             (Z.ltb_spec (beValue w) (2 ^ bits + 2 ^ (bits - 1))); (reflexivity || lia).
  - destruct (Z.ltb_spec (beValue w) (- 2 ^ (bits - 1))); [lia |].
    destruct (Z.gtb_spec (beValue w) (2 ^ (bits - 1) - 1)); [lia | reflexivity].
Qed.

Lemma decodeInt_accepted_words_witness :
  decodeInt ([] ++ wordOf 255 ++ []) (buflen []) 8 = Ok (str "-1", Num 32)
  /\ decodeInt ([] ++ (repeat x00 30 ++ [x01; x05]) ++ []) (buflen []) 8
     = Ok (str "5", Num 32)
  /\ decodeInt ([] ++ minusOneWord ++ []) (buflen []) 256 = Ok (str "-1", Num 32).
Proof.
  split; [| split].
  - exact (decodeInt_accepted_words [] (wordOf 255) [] 8 eq_refl eq_refl).
  - exact (decodeInt_accepted_words [] (repeat x00 30 ++ [x01; x05]) [] 8 eq_refl eq_refl).
  - exact (decodeInt_accepted_words [] minusOneWord [] 256 eq_refl eq_refl).
Defined.

Lemma buf_at_middle (pre : Buffer) (b : byte) (post : Buffer) :
  buf_at (pre ++ b :: post) (buflen pre) = Some (byteVal b).
Proof.
  unfold buf_at, buflen.
  destruct (Z.ltb_spec (Z.of_nat (List.length pre)) 0); [lia |].
  rewrite Nat2Z.id, nth_error_app2, Nat.sub_diag by lia. reflexivity.
Qed.

(** X8: [decodeBool] looks at the last byte of the word only: the value
    is true exactly when that byte is not 0. *)
Theorem decodeBool_last_byte (pre w : Buffer) (b : byte) (post : Buffer) :
  List.length w = 31%nat ->
  decodeBool (pre ++ w ++ b :: post) (buflen pre)
  = Ok (negb (byteVal b =? 0), Num (buflen pre + 32)).
Proof.
  intros Lw. unfold decodeBool, readUInt8. cbn [nadd].
  rewrite app_assoc.
  replace (buflen pre + 31) with (buflen (pre ++ w))
    by (rewrite buflen_app, (buflen_length w 31 Lw); reflexivity).
  rewrite buf_at_middle. reflexivity.
Qed.

Lemma decodeBool_last_byte_witness :
  decodeBool ([] ++ ([x01] ++ repeat x00 30) ++ x00 :: []) (buflen []) = Ok (false, Num 32)
  /\ decodeBool ([] ++ repeat x00 31 ++ x02 :: []) (buflen []) = Ok (true, Num 32).
Proof.
  split.
  - exact (decodeBool_last_byte [] ([x01] ++ repeat x00 30) x00 [] eq_refl).
  - exact (decodeBool_last_byte [] (repeat x00 31) x02 [] eq_refl).
Defined.

(** X9: [decodeAddress] returns the last 20 bytes of the word in
    hexadecimal and ignores the first 12. *)
Theorem decodeAddress_last_20_bytes (pre hi a post : Buffer) :
  List.length hi = 12%nat -> List.length a = 20%nat ->
  decodeAddress (pre ++ hi ++ a ++ post) (buflen pre)
  = Ok (str (bufferToHex a), Num (buflen pre + 32)).
Proof.
  intros Lh La. unfold decodeAddress, bufferToHex. cbn [nadd].
  rewrite (app_assoc pre hi).
  replace (buflen pre + 12) with (buflen (pre ++ hi))
    by (rewrite buflen_app, (buflen_length hi 12 Lh); reflexivity).
  replace (buflen pre + 32) with (buflen (pre ++ hi) + buflen a) at 1
    by (rewrite buflen_app, (buflen_length hi 12 Lh), (buflen_length a 20 La); lia).
  rewrite buf_slice_middle. reflexivity.
Qed.

Lemma decodeAddress_last_20_bytes_witness :
  decodeAddress ([] ++ repeat xff 12 ++ repeat x11 20 ++ []) (buflen [])
  = Ok (str "0x1111111111111111111111111111111111111111", Num 32).
Proof.
  exact (decodeAddress_last_20_bytes [] (repeat xff 12) (repeat x11 20) [] eq_refl eq_refl).
Defined.

Lemma decodeBytesAt_layout (pre lengthWord payload post : Buffer) :
  List.length lengthWord = 32%nat ->
  beValue lengthWord = buflen payload ->
  decodeBytesAt (pre ++ lengthWord ++ payload ++ post) (buflen pre)
  = Ok (str (bufferToHex payload),
        Num (buflen pre + 32 + (buflen payload + 31) / 32 * 32)).
Proof.
  intros Lw Hv. rewrite decodeBytesAt_spec. cbv zeta.
  rewrite wordAt_middle by assumption. rewrite Hv.
  rewrite (app_assoc pre lengthWord).
  replace (buflen pre + 32) with (buflen (pre ++ lengthWord)) at 1 2
    by (rewrite buflen_app, (buflen_length lengthWord 32 Lw); reflexivity).
  rewrite buf_slice_middle. reflexivity.
Qed.

(** X10: a payload after its length word is read back by [decodeBytes]
    (through [decodeBytesAt]); the next offset is past the payload, rounded
    up to a multiple of 32. *)
Theorem decodeBytes_reads_payload (pre lengthWord payload post : Buffer) :
  List.length lengthWord = 32%nat ->
  beValue lengthWord = buflen payload ->
  decodeBytes (pre ++ lengthWord ++ payload ++ post) (buflen pre)
  = Ok (str (bufferToHex payload),
        Num (buflen pre + 32 + (buflen payload + 31) / 32 * 32)).
Proof. intros Lw Hv. unfold decodeBytes. now apply decodeBytesAt_layout. Qed.

Lemma decodeBytes_reads_payload_witness :
  decodeBytes ([] ++ wordOf 3 ++ [x01; x02; x03] ++ repeat x00 29) (buflen [])
  = Ok (str "0x010203", Num 64).
Proof.
  exact (decodeBytes_reads_payload [] (wordOf 3) [x01; x02; x03] (repeat x00 29)
           eq_refl eq_refl).
Defined.

(** ** Strings of ASCII characters *)

Lemma utf8_points_ascii (bs : Buffer) :
  Forall (fun b => byteVal b < 128) bs ->
  utf8_points bs utf8_init = map byteVal bs.
Proof.
  induction 1 as [| b bs Hb _ IH]; [reflexivity |].
  cbn [utf8_points map]. unfold utf8_step, utf8_first.
  change (u_needed utf8_init =? 0) with true. cbv iota.
  destruct (Z.leb_spec (byteVal b) 127); [| lia].
  cbn [app]. now rewrite IH.
Qed.

Lemma toString_utf8_ascii (bs : Buffer) :
  Forall (fun b => byteVal b < 128) bs ->
  toString_utf8 bs = map byteVal bs.
Proof.
  intros H. unfold toString_utf8. rewrite (utf8_points_ascii bs H).
  induction H as [| b bs Hb _ IH]; [reflexivity |].
  cbn [map flat_map]. rewrite IH. unfold utf16_units.
  destruct (Z.ltb_spec (byteVal b) 65536); [reflexivity | lia].
Qed.

Lemma removeNul_id (s : jsstring) : ~ In 0 s -> removeNul s = s.
Proof.
  intros H. unfold removeNul. induction s as [| u r IH]; [reflexivity |].
  cbn [filter]. destruct (Z.eqb_spec u 0) as [-> | _].
  - exfalso. apply H. now left.
  - cbn [negb]. f_equal. apply IH. intros Hin. apply H. now right.
Qed.

(** X11: a text of ASCII characters without NUL, and without white space
    at either end, is read back by [decodeString]. *)
Theorem decodeString_reads_ascii (pre lengthWord payload post : Buffer) :
  List.length lengthWord = 32%nat ->
  beValue lengthWord = buflen payload ->
  Forall (fun b => 0 < byteVal b < 128) payload ->
  startsWithSpace (map byteVal payload) = false ->
  startsWithSpace (rev (map byteVal payload)) = false ->
  decodeString (pre ++ lengthWord ++ payload ++ post) (buflen pre)
  = Ok (map byteVal payload,
        Num (buflen pre + 32 + (buflen payload + 31) / 32 * 32)).
Proof.
  intros Lw Hv Hascii Hfirst Hlast. unfold decodeString, decodeBytes.
  rewrite (decodeBytesAt_layout pre lengthWord payload post Lw Hv).
  cbn [bind]. unfold bufferToHex.
  change (skipn 2 (str ("0x" ++ toString_hex payload))) with (str (toString_hex payload)).
  rewrite Buffer_from_hex_toString.
  rewrite toString_utf8_ascii
    by (eapply Forall_impl; [| exact Hascii]; cbn; intros; lia).
  rewrite removeNul_id.
  - now rewrite js_trim_id.
  - intros Hin. apply in_map_iff in Hin. destruct Hin as (b & Hb & Hin).
    pose proof (proj1 (Forall_forall _ _) Hascii b Hin). cbn in *. lia.
Qed.

Lemma decodeString_reads_ascii_witness :
  decodeString ([] ++ wordOf 2 ++ [x68; x69] ++ repeat x00 30) (buflen [])
  = Ok (str "hi", Num 64).
Proof.
  apply (decodeString_reads_ascii [] (wordOf 2) [x68; x69] (repeat x00 30));
    try reflexivity.
  repeat constructor.
Defined.

(** ** [parseInt] of a decimal numeral *)

Lemma digitsPrefix_stop (t : string) (acc : option Z) :
  closesNumeral t -> digitsPrefix digitValue 10 t acc = acc.
Proof. intros [-> | (r & ->)]; reflexivity. Qed.

Lemma digitsPrefix_uint (d : Decimal.uint) (t : string) :
  closesNumeral t ->
  forall acc,
    d <> Decimal.Nil ->
    digitsPrefix digitValue 10 (NilEmpty.string_of_uint d ++ t) acc
    = Some (uintValue d (optValue acc)).
Proof.
  intros Ht. induction d; intros acc Hd; [congruence | ..];
    cbn [NilEmpty.string_of_uint append digitsPrefix uintValue];
    change (digitValue "0") with (Some 0); change (digitValue "1") with (Some 1);
    change (digitValue "2") with (Some 2); change (digitValue "3") with (Some 3);
    change (digitValue "4") with (Some 4); change (digitValue "5") with (Some 5);
    change (digitValue "6") with (Some 6); change (digitValue "7") with (Some 7);
    change (digitValue "8") with (Some 8); change (digitValue "9") with (Some 9);
    cbv iota;
    (destruct (Decimal.uint_eq_dec d Decimal.Nil) as [-> | Hne];
     [ cbn [NilEmpty.string_of_uint append uintValue];
       rewrite (digitsPrefix_stop t _ Ht); destruct acc; cbn [optValue]; f_equal; lia
     | rewrite (IHd _ Hne); destruct acc; cbn [optValue]; f_equal; f_equal; lia ]).
Qed.

Lemma parseInt_uint (d : Decimal.uint) (t : string) :
  closesNumeral t -> d <> Decimal.Nil ->
  parseInt (NilEmpty.string_of_uint d ++ t) = Num (uintValue d 0).
Proof.
  intros Ht Hd.
  pose proof (digitsPrefix_uint d t Ht None Hd) as G. cbn [optValue] in G.
  destruct d as [| d' | d' | d' | d' | d' | d' | d' | d' | d' | d']; [congruence | ..];
    unfold parseInt; cbn [NilEmpty.string_of_uint append trimStart] in *;
    try (change (isSpaceChar _) with false; cbv iota; rewrite G; f_equal; lia).
  change (isSpaceChar "0") with false. cbv iota.
  assert (Hs : (NilEmpty.string_of_uint d' ++ t)%string = ""
               \/ exists c r, (NilEmpty.string_of_uint d' ++ t)%string = String c r
                               /\ Ascii.eqb c "x" = false /\ Ascii.eqb c "X" = false).
  { destruct d'; cbn [NilEmpty.string_of_uint append];
      try (right; eexists; eexists; repeat split; reflexivity).
    destruct Ht as [-> | (r & ->)]; [now left |].
    right; eexists; eexists; repeat split; reflexivity. }
  set (s := (NilEmpty.string_of_uint d' ++ t)%string) in *.
  replace (match s with
           | String "x" r => digitsPrefix hexValue 16 r None
           | String "X" r => digitsPrefix hexValue 16 r None
           | _ => digitsPrefix digitValue 10 (String "0" s) None
           end) with (digitsPrefix digitValue 10 (String "0" s) None).
  - cbn [digitsPrefix]. change (digitValue "0") with (Some 0). cbv iota.
    cbn [digitsPrefix] in G. change (digitValue "0") with (Some 0) in G. cbv iota in G.
    rewrite G. f_equal. lia.
  - destruct Hs as [-> | (c & r & -> & H1 & H2)]; [reflexivity |].
    destruct c as [[] [] [] [] [] [] [] []]; try reflexivity; discriminate.
Qed.

Lemma decimal_uint (n : Z) :
  0 <= n ->
  exists d, decimal n = NilEmpty.string_of_uint d /\ d <> Decimal.Nil
            /\ uintValue d 0 = n.
Proof.
  intros Hn. unfold decimal.
  destruct n as [| p | p]; [| | lia].
  - exists (Decimal.D0 Decimal.Nil). repeat split; discriminate.
  - cbn [Z.to_int NilZero.string_of_int].
    pose proof (DecimalPos.Unsigned.to_uint_nonnil p) as Hnn.
    pose proof (DecimalPos.Unsigned.of_to p) as Hof.
    exists (Pos.to_uint p). split; [| split].
    + unfold NilZero.string_of_uint. destruct (Pos.to_uint p); [congruence | reflexivity ..].
    + exact Hnn.
    + rewrite <- of_uint_value. unfold Z.of_uint. rewrite Hof. reflexivity.
Qed.

Lemma parseInt_decimal (n : Z) (t : string) :
  0 <= n -> closesNumeral t -> parseInt (decimal n ++ t) = Num n.
Proof.
  intros Hn Ht. destruct (decimal_uint n Hn) as (d & -> & Hd & <-).
  now apply parseInt_uint.
Qed.

Lemma append_nil_r (s : string) : (s ++ "")%string = s.
Proof. induction s as [| c s IH]; [reflexivity |]. cbn. now rewrite IH. Qed.

Lemma parseInt_decimal_alone (n : Z) : 0 <= n -> parseInt (decimal n) = Num n.
Proof.
  intros Hn. rewrite <- (append_nil_r (decimal n)).
  apply parseInt_decimal; [assumption | now left].
Qed.


Lemma substring_skip (p s : string) (m : nat) :
  String.substring (String.length p) m (p ++ s) = String.substring 0 m s.
Proof. induction p as [| c p IH]; [reflexivity |]. cbn. exact IH. Qed.

Lemma sliceFrom_app (p s : string) : sliceFrom (p ++ s) (Num (strlen p)) = s.
Proof.
  unfold sliceFrom, slice, strlen, relIndex. rewrite length_append.
  destruct (Z.ltb_spec (Z.of_nat (String.length p)) 0); [lia |].
  destruct (Z.ltb_spec (Z.of_nat (String.length p + String.length s)) 0); [lia |].
  rewrite Z.min_l by lia. rewrite Z.min_id.
  rewrite Nat2Z.id.
  replace (Z.to_nat _) with (String.length s) by lia.
  rewrite substring_skip. apply substring_all.
Qed.

Lemma includes_digits (s : string) (p : ascii) :
  isDigitChar p = false -> everyChar isDigitChar s = true ->
  includes s (String p "") = false.
Proof.
  intros Hp. induction s as [| c s IH]; intros Hs; [reflexivity |].
  cbn [everyChar] in Hs. apply andb_true_iff in Hs. destruct Hs as [Hc Hs].
  cbn [includes String.prefix]. rewrite (IH Hs).
  destruct (ascii_dec p c) as [-> | Hne]; [congruence |].
  destruct s; reflexivity.
Qed.

Lemma decimal_everyDigit (n : Z) : 0 <= n -> everyChar isDigitChar (decimal n) = true.
Proof.
  intros Hn. destruct (decimal_digits n Hn) as (c & r & -> & H). exact H.
Qed.



(** ** [bytesN] *)

(** X13: [bytesN] returns the N bytes at the offset for every N, 0 and
    the sizes above 32 included, and the next offset is always 32
    further. *)
Theorem decodeParameter_bytesN_any_size (n : Z) (pre w post : Buffer) :
  buflen w = n ->
  decodeParameter (TStr (bytesType n)) (pre ++ w ++ post) (buflen pre)
  = Ok (VStr (str (bufferToHex w)), Num (buflen pre + 32)).
Proof.
  intros Hw. pose proof (buflen_nonneg w) as Hn. rewrite Hw in Hn.
  pose proof (decimal_everyDigit n Hn) as Hd.
  pose proof (includes_digits (decimal n) "[" eq_refl Hd) as Hi.
  destruct (decimal_digits n Hn) as (c & r & E & _).
  unfold decodeParameter. cbn [decodeParameter_fuel]. unfold decodeParameter_body.
  cbn [typeStrOf].
  replace (includes (bytesType n) "[") with false
    by (unfold bytesType; cbn [append includes String.prefix]; now rewrite Hi).
  replace (sliceFrom (bytesType n) 5) with (decimal n)
    by (symmetry; apply (sliceFrom_app "bytes")).
  rewrite parseInt_decimal_alone by assumption.
  replace (5 <? strlen (bytesType n)) with true
    by (unfold bytesType, strlen; rewrite length_append, E; cbn [String.length];
        symmetry; apply Z.ltb_lt; lia).
  unfold bytesType. rewrite E.
  change (startsWith ("bytes" ++ String c r) "tuple") with false.
  change (("bytes" ++ String c r =? "bool")%string) with false.
  change (("bytes" ++ String c r =? "address")%string) with false.
  change (("bytes" ++ String c r =? "bytes")%string) with false.
  change (("bytes" ++ String c r =? "string")%string) with false.
  change (startsWith ("bytes" ++ String c r) "uint") with false.
  change (startsWith ("bytes" ++ String c r) "int") with false.
  replace (startsWith ("bytes" ++ String c r) "bytes") with true by reflexivity.
  cbn [andb]. unfold decodeFixedBytes, bufferToHex. cbn [nadd bind].
  rewrite <- Hw, buf_slice_middle. reflexivity.
Qed.

Lemma decodeParameter_bytesN_any_size_witness :
  decodeParameter (TStr "bytes33") ([] ++ repeat x11 33 ++ []) (buflen [])
  = Ok (VStr (str (bufferToHex (repeat x11 33))), Num 32)
  /\ decodeParameter (TStr "bytes0") ([] ++ [] ++ [xff]) (buflen [])
     = Ok (VStr (str "0x"), Num 32).
Proof.
  split.
  - exact (decodeParameter_bytesN_any_size 33 [] (repeat x11 33) [] eq_refl).
  - exact (decodeParameter_bytesN_any_size 0 [] [] [xff] eq_refl).
Defined.

(** ** Type strings of arrays *)

Lemma includes_char_cons (c d : ascii) (s : string) :
  includes (String d s) (String c "") = Ascii.eqb d c || includes s (String c "").
Proof.
  cbn [includes String.prefix].
  destruct (ascii_dec c d) as [-> | Hne].
  - rewrite Ascii.eqb_refl. now destruct s.
  - destruct (Ascii.eqb_spec d c) as [-> | _]; [congruence | reflexivity].
Qed.

Lemma includes_app_char (base : string) (c : ascii) (r : string) :
  includes (base ++ String c r) (String c "") = true.
Proof.
  induction base as [| d base IH]; cbn [append]; rewrite includes_char_cons.
  - now rewrite Ascii.eqb_refl.
  - rewrite IH. apply orb_true_r.
Qed.

Lemma indexOf_app (base : string) (c : ascii) (r : string) :
  includes base (String c "") = false ->
  indexOf (base ++ String c r) c = strlen base.
Proof.
  unfold strlen. induction base as [| d base IH]; intros H.
  - cbn. now rewrite Ascii.eqb_refl.
  - rewrite includes_char_cons in H. apply orb_false_iff in H. destruct H as [Hd Hb].
    cbn [append indexOf String.length]. rewrite Hd, (IH Hb).
    destruct (Z.ltb_spec (Z.of_nat (String.length base)) 0); lia.
Qed.

Lemma substring_prefix (p s : string) : String.substring 0 (String.length p) (p ++ s) = p.
Proof. induction p as [| c p IH]; [now destruct s |]. cbn. now rewrite IH. Qed.

Lemma slice_prefix (p s : string) : slice (p ++ s) 0 (Num (strlen p)) = p.
Proof.
  unfold slice, strlen, relIndex. rewrite length_append.
  change (0 <? 0) with false. cbv iota.
  destruct (Z.ltb_spec (Z.of_nat (String.length p)) 0); [lia |].
  rewrite Z.min_l by lia. rewrite Z.min_l by lia.
  rewrite Z.sub_0_r, Nat2Z.id. apply substring_prefix.
Qed.

Lemma slice_strip (c e : ascii) (s : string) :
  slice (String c (s ++ String e "")) 1 (-1) = s.
Proof.
  unfold slice, strlen, relIndex. cbn [String.length]. rewrite length_append.
  cbn [String.length].
  change (1 <? 0) with false. change (-1 <? 0) with true. cbv iota.
  rewrite Z.min_l by lia. rewrite Z.max_l by lia.
  replace (Z.to_nat 1) with 1%nat by reflexivity.
  replace (Z.to_nat _) with (String.length s) by lia.
  cbn [String.substring]. apply substring_prefix.
Qed.

(** The parts that [decodeArray] cuts a type string into. *)
Lemma array_parts (base spec : string) :
  includes base "[" = false ->
  let type := (base ++ String "[" spec)%string in
  indexOf type "[" = strlen base
  /\ slice type 0 (Num (indexOf type "[")) = base
  /\ sliceFrom type (Num (indexOf type "[")) = String "[" spec.
Proof.
  intros Hb type. subst type.
  rewrite (indexOf_app base "[" spec Hb).
  repeat split; [apply slice_prefix | apply sliceFrom_app].
Qed.

Lemma fixedArray_parts (n : Z) (rest : string) :
  0 <= n ->
  String.eqb (String "[" (decimal n ++ String "]" rest)) "[]" = false
  /\ parseInt (slice (String "[" (decimal n ++ "]")) 1 (-1)) = Num n.
Proof.
  intros Hn. split.
  - destruct (decimal_digits n Hn) as (c & r & -> & Hd).
    cbn [everyChar] in Hd. apply andb_true_iff in Hd. destruct Hd as [Hc _].
    cbn [append String.eqb]. change (Ascii.eqb "[" "[") with true. cbv iota.
    destruct (Ascii.eqb_spec c "]") as [-> | _]; [discriminate Hc | reflexivity].
  - rewrite slice_strip. now apply parseInt_decimal_alone.
Qed.

Lemma decodeParameter_fuel_uint256 (fuel : nat) (buffer : Buffer) (offset : num) :
  decodeParameter_fuel (S fuel) (TStr "uint256") buffer offset
  = ('(v, next) <- decodeUint buffer offset 256 ;; Ok (VStr v, next)).
Proof. reflexivity. Qed.

Lemma decodeStaticElements_uint256
    (rec : abitype -> Buffer -> num -> except (value * num)) (buffer : Buffer) :
  (forall o : Z, rec (TStr "uint256") buffer (Num o)
                 = ('(v, next) <- decodeUint buffer o 256 ;; Ok (VStr v, next))) ->
  forall (count : nat) (start : Z) (results : list value),
    decodeStaticElements rec "uint256" buffer (Num start) count results
    = Ok (results ++ uintWords buffer start count, Num (start + 32 * Z.of_nat count)).
Proof.
  intros Hrec. induction count as [| count IH]; intros start results.
  - cbn [decodeStaticElements uintWords]. now rewrite app_nil_r, Z.add_0_r.
  - cbn [decodeStaticElements uintWords]. rewrite Hrec, decodeUint_word. cbn [bind].
    rewrite IH, <- app_assoc. cbn [app]. do 3 f_equal. lia.
Qed.

(** X14: [uint256[n]] is decoded as the n consecutive words at the
    offset, and the next offset is 32 * n further, for an array shorter
    than 2^32 that ends at an offset of at most [MAX_SAFE_INTEGER]; no
    buffer makes it fail. *)
Theorem decodeParameter_fixed_uint256_array (n : Z) (buffer : Buffer) (offset : Z) :
  0 <= n < 2 ^ 32 ->
  0 <= offset ->
  offset + 32 * n <= MAX_SAFE_INTEGER ->
  decodeParameter (TStr (fixedArrayType "uint256" n)) buffer offset
  = Ok (VArray (uintWords buffer offset (Z.to_nat n)), Num (offset + 32 * n)).
Proof.
  intros [Hn _] _ _.
  assert (Hdyn : isDynamicType (TStr (fixedArrayType "uint256" n)) = Ok false).
  { destruct (decimal_digits n Hn) as (c & r & E & Hd).
    unfold fixedArrayType. rewrite E.
    pose proof (includes_open_bracket c r Hd) as Hi.
    set (tail := (String c r ++ "]")%string) in *.
    apply isDynamicType_plain; try reflexivity.
    cbn. cbn in Hi. exact Hi. }
  destruct (array_parts "uint256" (decimal n ++ "]") eq_refl) as (Hidx & Hbase & Hspec).
  destruct (fixedArray_parts n "" Hn) as (Hfix & Hsize).
  unfold decodeParameter. cbn [decodeParameter_fuel]. unfold decodeParameter_body.
  cbn [typeStrOf].
  change (fixedArrayType "uint256" n) with ("uint256" ++ String "[" (decimal n ++ "]"))%string
    in *.
  rewrite includes_app_char.
  unfold decodeArray.
  rewrite Hbase, Hspec, Hdyn, Hfix, Hsize. cbn [bind negb].
  replace (isDynamicType (TStr "uint256")) with (@Ok bool false) by reflexivity.
  cbn [bind].
  rewrite decodeStaticElements_uint256.
  - cbn [bind loop_count app]. do 3 f_equal. lia.
  - intros o. cbn [type_fuel]. apply decodeParameter_fuel_uint256.
Qed.

Lemma decodeParameter_fixed_uint256_array_witness :
  decodeParameter (TStr "uint256[2]") (wordOf 5 ++ wordOf 6) 0
  = Ok (VArray [VStr (str "5"); VStr (str "6")], Num 64).
Proof.
  apply (decodeParameter_fixed_uint256_array 2 (wordOf 5 ++ wordOf 6) 0).
  - split; [lia | reflexivity].
  - lia.
  - vm_compute. discriminate.
Defined.

Lemma decodeParameter_uint256_array_at (buffer : Buffer) (offset : Z) :
  decodeParameter (TStr "uint256[]") buffer offset
  = let dataOffset := beValue (wordAt buffer offset) in
    let arrayLength := beValue (wordAt buffer dataOffset) in
    Ok (VArray (uintWords buffer (dataOffset + 32) (Z.to_nat arrayLength)),
        Num (dataOffset + 32 + 32 * arrayLength)).
Proof.
  cbv zeta.
  pose proof (wordAt_bounds buffer (beValue (wordAt buffer offset))) as B.
  unfold decodeParameter. cbn [decodeParameter_fuel]. unfold decodeParameter_body.
  cbn [typeStrOf].
  replace (includes "uint256[]" "[") with true by reflexivity.
  unfold decodeArray.
  replace (isDynamicType (TStr "uint256[]")) with (@Ok bool true) by reflexivity.
  replace (slice "uint256[]" 0 (indexOf "uint256[]" "[")) with "uint256" by reflexivity.
  replace (sliceFrom "uint256[]" (indexOf "uint256[]" "[")) with "[]" by reflexivity.
  replace (isDynamicType (TStr "uint256")) with (@Ok bool false) by reflexivity.
  cbn [bind String.eqb Ascii.eqb Bool.eqb negb].
  rewrite decodeUint_word. cbn [bind]. rewrite Number_decimal.
  rewrite decodeUint_word. cbn [bind]. rewrite Number_decimal.
  rewrite decodeStaticElements_uint256.
  - cbn [bind loop_count app]. do 3 f_equal. lia.
  - intros o. apply decodeParameter_fuel_uint256.
Qed.

Lemma decodeParameters_uint256_array (data : string) :
  data <> "" -> data <> "0x" ->
  decodeParameters [TStr "uint256[]"] data
  = let buffer := hexToBuffer data in
    let head := beValue (wordAt buffer 0) in
    let dataOffset := beValue (wordAt buffer head) in
    let arrayLength := beValue (wordAt buffer dataOffset) in
    Ok [VArray (uintWords buffer (dataOffset + 32) (Z.to_nat arrayLength))].
Proof.
  intros H1 H2. unfold decodeParameters.
  destruct (String.eqb_spec data ""); [congruence |].
  destruct (String.eqb_spec data "0x"); [congruence |].
  cbn [orb decodeParametersLoop].
  replace (isDynamicType (TStr "uint256[]")) with (@Ok bool true) by reflexivity.
  cbn [bind].
  rewrite decodeUint_word. cbn [bind]. rewrite Number_decimal.
  rewrite decodeParameter_uint256_array_at. reflexivity.
Qed.

(** X15: [uint256[]]: the word at the offset is read as a further offset; the
    word found there is the length, and the elements follow it.  At the
    top level the head word is an offset as well, so the data of a
    [uint256[]] parameter is found through two offsets.  This holds, and
    the decoding cannot fail, for a length below 2^32 when the offsets and
    the end of the elements are at most [MAX_SAFE_INTEGER]. *)
Theorem decodeParameters_dynamic_array_two_offsets (data : string) :
  data <> "" -> data <> "0x" ->
  let buffer := hexToBuffer data in
  (forall offset,
     let dataOffset := beValue (wordAt buffer offset) in
     let arrayLength := beValue (wordAt buffer dataOffset) in
     0 <= offset <= MAX_SAFE_INTEGER ->
     arrayLength < 2 ^ 32 ->
     dataOffset + 32 + 32 * arrayLength <= MAX_SAFE_INTEGER ->
     decodeParameter (TStr "uint256[]") buffer (Num offset)
     = Ok (VArray (uintWords buffer (dataOffset + 32) (Z.to_nat arrayLength)),
           Num (dataOffset + 32 + 32 * arrayLength)))
  /\ (let head := beValue (wordAt buffer 0) in
      let dataOffset := beValue (wordAt buffer head) in
      let arrayLength := beValue (wordAt buffer dataOffset) in
      head <= MAX_SAFE_INTEGER ->
      arrayLength < 2 ^ 32 ->
      dataOffset + 32 + 32 * arrayLength <= MAX_SAFE_INTEGER ->
      decodeParameters [TStr "uint256[]"] data
      = Ok [VArray (uintWords buffer (dataOffset + 32) (Z.to_nat arrayLength))]).
Proof.
  intros H1 H2 buffer. split.
  - intros offset dataOffset arrayLength _ _ _. apply decodeParameter_uint256_array_at.
  - intros head dataOffset arrayLength _ _ _. now apply decodeParameters_uint256_array.
Qed.

Lemma decodeParameters_dynamic_array_two_offsets_witness :
  decodeParameters [TStr "uint256[]"] twoOffsetsData
  = Ok [VArray [VStr (str "5"); VStr (str "6")]].
Proof.
  refine (proj2 (decodeParameters_dynamic_array_two_offsets twoOffsetsData _ _) _ _ _);
    try discriminate; vm_compute; (reflexivity || discriminate).
Defined.

Lemma length_uintWords (buffer : Buffer) (count : nat) :
  forall start, List.length (uintWords buffer start count) = count.
Proof. induction count as [| count IH]; intros start; cbn; [| rewrite IH]; reflexivity. Qed.

(** The standard encoding of the array [5, 6] has one offset only: the
    decoder takes its length word for the second offset, and the word it
    reads at byte 2 gives an array of 32 * 2^16 elements. *)
Example decode_standard_array_encoding :
  exists elements,
    decodeParameters [TStr "uint256[]"] standardArrayData = Ok [VArray elements]
    /\ Z.of_nat (List.length elements) = 32 * 2 ^ 16.
Proof.
  assert (E := decodeParameters_uint256_array standardArrayData).
  cbv zeta in E. specialize (E ltac:(discriminate) ltac:(discriminate)). eexists. split; [exact E |].
  rewrite length_uintWords, Z2Nat.id by apply wordAt_bounds.
  vm_compute. reflexivity.
Qed.

(** ** Arrays of arrays *)

Lemma some_total {A : Type} (f : A -> except bool) (l : list A) :
  (forall x, In x l -> exists b, f x = Ok b) -> exists b, some f l = Ok b.
Proof.
  induction l as [| x l IH]; intros H; [now exists false |].
  cbn [some]. destruct (H x (or_introl eq_refl)) as (b & ->). cbn [bind].
  destruct b; [now exists true |].
  apply IH. intros y Hy. apply H. now right.
Qed.

Lemma isDynamicType_fuel_string (fuel : nat) :
  forall s, (String.length s < fuel)%nat ->
            exists b, isDynamicType_fuel fuel (TStr s) = Ok b.
Proof.
  induction fuel as [| fuel IH]; intros s Hs; [lia |].
  cbn [isDynamicType_fuel typeStrOf].
  destruct (String.eqb s "string" || String.eqb s "bytes"); [now exists true |].
  destruct (includes s "[]"); [now exists true |].
  destruct (startsWith s "tuple"); [| now exists false].
  destruct (match_tuple s) as [inner |] eqn:Em; [| now exists false].
  apply some_total. intros comp Hc. apply IH.
  pose proof (parseTupleComponents_length inner comp Hc).
  pose proof (match_tuple_length s inner Em). lia.
Qed.

(** On a type string [isDynamicType] always answers. *)
Lemma isDynamicType_string (s : string) : exists b, isDynamicType (TStr s) = Ok b.
Proof. apply isDynamicType_fuel_string. cbn [type_fuel]. lia. Qed.

Lemma includes_brackets_app (base r : string) :
  includes (base ++ String "[" (String "]" r)) "[]" = true.
Proof.
  induction base as [| c base IH]; cbn [append includes].
  - cbn. now destruct r.
  - rewrite IH. apply orb_true_r.
Qed.

Lemma isDynamicType_brackets (s : string) :
  includes s "[]" = true -> isDynamicType (TStr s) = Ok true.
Proof.
  intros H. unfold isDynamicType. cbn [type_fuel isDynamicType_fuel typeStrOf].
  rewrite H. now destruct (String.eqb s "string" || String.eqb s "bytes").
Qed.

(** X16: an array of dynamic arrays, [T[][]], is decoded as the empty array:
    the text between the outer brackets is not a number, so the loop over
    the elements does not run. *)
Theorem decodeParameter_array_of_arrays_is_empty (base : string) (buffer : Buffer)
    (offset : Z) :
  includes base "[" = false ->
  exists next,
    decodeParameter (TStr (base ++ "[][]")) buffer offset = Ok (VArray [], next).
Proof.
  intros Hb.
  destruct (array_parts base "][]" Hb) as (_ & Hbase & Hspec).
  destruct (isDynamicType_string base) as (dynamicBase & Hdb).
  unfold decodeParameter. cbn [decodeParameter_fuel]. unfold decodeParameter_body.
  cbn [typeStrOf]. rewrite includes_app_char.
  unfold decodeArray.
  rewrite Hbase, Hspec, (isDynamicType_brackets _ (includes_brackets_app base "[]")), Hdb.
  cbn [bind]. rewrite decodeUint_word. cbn [bind].
  replace (parseInt (slice "[][]" 1 (-1))) with NaN by reflexivity.
  change (negb ("[][]" =? "[]")%string) with true. cbv iota. cbn [bind loop_count].
  destruct dynamicBase; cbn [decodeDynamicElements decodeStaticElements bind];
    eexists; reflexivity.
Qed.

Lemma decodeParameter_array_of_arrays_is_empty_witness :
  exists next,
    decodeParameter (TStr ("uint256" ++ "[][]")) (hexToBuffer twoOffsetsData) 0
    = Ok (VArray [], next).
Proof.
  exact (decodeParameter_array_of_arrays_is_empty "uint256" (hexToBuffer twoOffsetsData) 0
           eq_refl).
Defined.

Lemma includes_false_neq (s t : string) (c : ascii) :
  includes s (String c "") = true -> includes t (String c "") = false ->
  String.eqb s t = false.
Proof.
  intros Hs Ht. destruct (String.eqb_spec s t) as [-> | _]; [congruence | reflexivity].
Qed.

Lemma prefix_brackets_not_open (c : ascii) (r : string) :
  Ascii.eqb c "[" = false -> String.prefix "[]" (String c r) = false.
Proof.
  intros H. cbn [String.prefix].
  destruct (ascii_dec "[" c) as [<- | _]; [discriminate H | reflexivity].
Qed.

Lemma includes_brackets_base (base tail : string) :
  includes base "[" = false ->
  includes (base ++ tail) "[]" = includes tail "[]".
Proof.
  induction base as [| c base IH]; intros H; [reflexivity |].
  rewrite includes_char_cons in H. apply orb_false_iff in H. destruct H as [Hc Hb].
  cbn [append includes]. rewrite (prefix_brackets_not_open c _ Hc), (IH Hb). reflexivity.
Qed.

Lemma includes_brackets_digits (s tail : string) :
  everyChar isDigitChar s = true ->
  includes (s ++ tail) "[]" = includes tail "[]".
Proof.
  induction s as [| c s IH]; intros H; [reflexivity |].
  cbn [everyChar] in H. apply andb_true_iff in H. destruct H as [Hc Hs].
  cbn [append includes]. rewrite (prefix_bracket_digit c _ Hc), (IH Hs). reflexivity.
Qed.

Lemma includes_brackets_fixed (n : Z) (tail : string) :
  0 <= n ->
  includes (String "[" (decimal n ++ String "]" tail)) "[]" = includes tail "[]".
Proof.
  intros Hn. pose proof (decimal_everyDigit n Hn) as Hd.
  destruct (decimal_digits n Hn) as (c & r & E & Hcr).
  cbn [includes]. rewrite (includes_brackets_digits _ _ Hd).
  cbn [includes]. rewrite E.
  cbn [everyChar] in Hcr. apply andb_true_iff in Hcr. destruct Hcr as [Hc _].
  cbn [append String.prefix].
  destruct (ascii_dec "[" "["); [| congruence].
  destruct (ascii_dec "]" c) as [<- | _]; [discriminate Hc |].
  destruct (ascii_dec "[" "]"); [discriminate |]. reflexivity.
Qed.

Lemma startsWith_tuple_app (base r : string) :
  startsWith base "tuple" = false ->
  startsWith (base ++ String "[" r) "tuple" = false.
Proof.
  unfold startsWith.
  destruct base as [| c1 [| c2 [| c3 [| c4 [| c5 base]]]]]; cbn [append String.prefix];
    intros H;
    repeat match goal with
           | |- context [ascii_dec ?a ?b] =>
               destruct (ascii_dec a b); try discriminate; try reflexivity
           | H : context [ascii_dec ?a ?b] |- _ =>
               destruct (ascii_dec a b); try discriminate; try reflexivity
           end.
  destruct base; discriminate H.
Qed.

Lemma isDynamicType_fixed_arrays (base tail : string) (n : Z) :
  0 <= n ->
  includes base "[" = false -> startsWith base "tuple" = false ->
  includes tail "[]" = false ->
  isDynamicType (TStr (base ++ String "[" (decimal n ++ String "]" tail))) = Ok false.
Proof.
  intros Hn Hb Ht Htail.
  apply isDynamicType_plain.
  - apply (includes_false_neq _ _ "["); [apply includes_app_char | reflexivity].
  - apply (includes_false_neq _ _ "["); [apply includes_app_char | reflexivity].
  - now rewrite (includes_brackets_base _ _ Hb), includes_brackets_fixed.
  - now apply startsWith_tuple_app.
Qed.

Lemma append_assoc (a b c : string) : ((a ++ b) ++ c = a ++ (b ++ c))%string.
Proof. induction a as [| x a IH]; [reflexivity |]. cbn. now rewrite IH. Qed.

Lemma decodeDynamicElements_same_dynamism
    (rec : abitype -> Buffer -> num -> except (value * num))
    (type1 type2 baseType : string) (buffer : Buffer) (offset staticOffset : num) :
  isDynamicType (TStr type1) = isDynamicType (TStr type2) ->
  forall (count : nat) (i : Z) (results : list value),
    decodeDynamicElements rec type1 baseType buffer offset staticOffset i count results
    = decodeDynamicElements rec type2 baseType buffer offset staticOffset i count results.
Proof.
  intros E. induction count as [| count IH]; intros i results; [reflexivity |].
  cbn [decodeDynamicElements]. rewrite E.
  destruct (decodeUint buffer (nadd staticOffset (nmul i 32)) 256) as [[s ?] |];
    [| reflexivity].
  cbn [bind]. destruct (isDynamicType (TStr type2)) as [d |]; [| reflexivity].
  cbn [bind]. destruct (rec _ _ _) as [[v ?] |]; [| reflexivity].
  cbn [bind]. apply IH.
Qed.

Lemma decodeArray_second_dimension
    (rec : abitype -> Buffer -> num -> except (value * num))
    (base : string) (n m : Z) (buffer : Buffer) (offset : num) :
  0 <= n -> 0 <= m ->
  includes base "[" = false -> startsWith base "tuple" = false ->
  decodeArray rec (fixedArrayType2 base n m) buffer offset
  = decodeArray rec (fixedArrayType base n) buffer offset.
Proof.
  intros Hn Hm Hb Ht.
  unfold fixedArrayType2, fixedArrayType.
  change (base ++ "[" ++ decimal n ++ "][" ++ decimal m ++ "]")%string
    with (base ++ String "[" (decimal n ++ String "]" (String "[" (decimal m ++ "]"))))%string.
  change (base ++ "[" ++ decimal n ++ "]")%string
    with (base ++ String "[" (decimal n ++ String "]" ""))%string.
  destruct (array_parts base (decimal n ++ String "]" (String "[" (decimal m ++ "]"))) Hb)
    as (_ & Hbase2 & Hspec2).
  destruct (array_parts base (decimal n ++ String "]" "") Hb) as (_ & Hbase1 & Hspec1).
  unfold decodeArray.
  rewrite Hbase1, Hspec1, Hbase2, Hspec2.
  rewrite (isDynamicType_fixed_arrays base "" n Hn Hb Ht eq_refl).
  rewrite (isDynamicType_fixed_arrays base _ n Hn Hb Ht
             (eq_trans (includes_brackets_fixed m "" Hm) eq_refl)).
  rewrite (proj1 (fixedArray_parts n "" Hn)).
  rewrite (proj1 (fixedArray_parts n (String "[" (decimal m ++ "]")) Hn)).
  rewrite (proj2 (fixedArray_parts n "" Hn)).
  replace (String "[" (decimal n ++ String "]" (String "[" (decimal m ++ "]"))))
    with (String "[" ((decimal n ++ String "]" (String "[" (decimal m))) ++ "]"))
    by (cbn; f_equal; rewrite !append_assoc; reflexivity).
  rewrite slice_strip.
  rewrite (parseInt_decimal n _ Hn (or_intror (ex_intro _ _ eq_refl))).
  cbn [bind negb].
  destruct (isDynamicType (TStr base)) as [[] |]; cbn [bind]; try reflexivity.
  rewrite (decodeDynamicElements_same_dynamism rec
             (base ++ String "[" ((decimal n ++ String "]" (String "[" (decimal m))) ++ "]"))
             (base ++ String "[" (decimal n ++ "]"))); [reflexivity |].
  replace (String "[" ((decimal n ++ String "]" (String "[" (decimal m))) ++ "]"))
    with (String "[" (decimal n ++ String "]" (String "[" (decimal m ++ "]"))))
    by (cbn; f_equal; rewrite !append_assoc; reflexivity).
  rewrite (isDynamicType_fixed_arrays base "" n Hn Hb Ht eq_refl).
  now rewrite (isDynamicType_fixed_arrays base _ n Hn Hb Ht
                 (eq_trans (includes_brackets_fixed m "" Hm) eq_refl)).
Qed.

(** X17: the second dimension of [T[n][m]] is ignored: the type is
    decoded as [T[n]]. *)
Theorem decodeParameter_second_dimension_ignored (base : string) (n m : Z)
    (buffer : Buffer) (offset : num) :
  0 <= n -> 0 <= m ->
  includes base "[" = false -> startsWith base "tuple" = false ->
  decodeParameter (TStr (fixedArrayType2 base n m)) buffer offset
  = decodeParameter (TStr (fixedArrayType base n)) buffer offset.
Proof.
  intros Hn Hm Hb Ht.
  assert (L : (String.length (fixedArrayType base n)
               <= String.length (fixedArrayType2 base n m))%nat).
  { unfold fixedArrayType, fixedArrayType2. rewrite !length_append. cbn [String.length]. lia. }
  assert (Hbase : slice (fixedArrayType base n) 0 (indexOf (fixedArrayType base n) "[") = base)
    by exact (proj1 (proj2 (array_parts base (decimal n ++ "]") Hb))).
  unfold decodeParameter. cbn [decodeParameter_fuel]. unfold decodeParameter_body.
  cbn [typeStrOf].
  replace (includes (fixedArrayType2 base n m) "[") with true
    by (symmetry; apply (includes_app_char base "[")).
  replace (includes (fixedArrayType base n) "[") with true
    by (symmetry; apply (includes_app_char base "[")).
  rewrite decodeArray_second_dimension by assumption.
  rewrite (decodeArray_ext
             (decodeParameter_fuel (type_fuel (TStr (fixedArrayType2 base n m))))
             (decodeParameter_fuel (type_fuel (TStr (fixedArrayType base n))))
             (fun c => (type_fuel c <= type_fuel (TStr (fixedArrayType base n)))%nat)).
  - reflexivity.
  - intros c Hc b o. apply decodeParameter_fuel_stable; [| exact Hc].
    cbn [type_fuel] in *. lia.
  - rewrite Hbase. cbn [type_fuel]. unfold fixedArrayType. rewrite length_append. lia.
Qed.

Lemma decodeParameter_second_dimension_ignored_witness :
  decodeParameter (TStr "uint256[2][3]") (hexToBuffer twoOffsetsData) 0
  = Ok (VArray [VStr (str "32"); VStr (str "64")], Num 64).
Proof.
  etransitivity.
  - apply (decodeParameter_second_dimension_ignored "uint256" 2 3); (lia || reflexivity).
  - reflexivity.
Defined.

(** ** The length of a fixed array *)

Lemma decodeDynamicElements_length
    (rec : abitype -> Buffer -> num -> except (value * num))
    (type baseType : string) (buffer : Buffer) (offset staticOffset : num) (count : nat) :
  forall (i : Z) (results out : list value),
    decodeDynamicElements rec type baseType buffer offset staticOffset i count results
    = Ok out ->
    List.length out = (List.length results + count)%nat.
Proof.
  induction count as [| count IH]; intros i results out H.
  - cbn in H. injection H as <-. lia.
  - cbn [decodeDynamicElements] in H.
    invert_bind H as [elementStr ?] He. invert_bind H as dynamic Hd.
    invert_bind H as [v ?] Hv. apply IH in H.
    rewrite H, length_app. cbn [List.length]. lia.
Qed.

Lemma decodeStaticElements_length
    (rec : abitype -> Buffer -> num -> except (value * num))
    (baseType : string) (buffer : Buffer) (count : nat) :
  forall (currentOffset : num) (results out : list value) (next : num),
    decodeStaticElements rec baseType buffer currentOffset count results = Ok (out, next) ->
    List.length out = (List.length results + count)%nat.
Proof.
  induction count as [| count IH]; intros currentOffset results out next H.
  - cbn in H. injection H as <- _. lia.
  - cbn [decodeStaticElements] in H. invert_bind H as [v n] Hv. apply IH in H.
    rewrite H, length_app. cbn [List.length]. lia.
Qed.

(** X18: whatever the buffer holds, a decoded [T[n]] has n elements. *)
Theorem decodeParameter_fixed_array_length (base : string) (n : Z) (buffer : Buffer)
    (offset : num) (v : value) (next : num) :
  0 <= n -> includes base "[" = false ->
  decodeParameter (TStr (fixedArrayType base n)) buffer offset = Ok (v, next) ->
  exists elements, v = VArray elements /\ Z.of_nat (List.length elements) = n.
Proof.
  intros Hn Hb H.
  destruct (array_parts base (decimal n ++ "]") Hb) as (_ & Hbase & Hspec).
  destruct (fixedArray_parts n "" Hn) as (Hfix & Hsize).
  unfold decodeParameter in H. cbn [decodeParameter_fuel] in H.
  unfold decodeParameter_body in H. cbn [typeStrOf] in H.
  change (fixedArrayType base n) with (base ++ String "[" (decimal n ++ "]"))%string in H.
  rewrite includes_app_char in H.
  invert_bind H as [elements n'] Ha. injection H as <- _.
  exists elements. split; [reflexivity |].
  unfold decodeArray in Ha. rewrite Hbase, Hspec, Hfix, Hsize in Ha.
  invert_bind Ha as dynamic Hd. invert_bind Ha as currentOffset Hc.
  cbn [negb bind] in Ha.
  invert_bind Ha as dynamicBase Hdb. cbn [loop_count] in Ha.
  destruct dynamicBase.
  - invert_bind Ha as results Hr. injection Ha as <- _.
    apply decodeDynamicElements_length in Hr. cbn [List.length] in Hr. lia.
  - apply decodeStaticElements_length in Ha. cbn [List.length] in Ha. lia.
Qed.

Lemma decodeParameter_fixed_array_length_witness :
  exists elements,
    VArray [VStr (str ""); VStr (str "")] = VArray elements
    /\ Z.of_nat (List.length elements) = 2.
Proof.
  apply (decodeParameter_fixed_array_length "string" 2 [] 0 _ 64); try reflexivity.
  lia.
Defined.

(** ** [decodeParameters] *)

Lemma decodeParametersLoop_length (buffer : Buffer) (types : list abitype) :
  forall (staticOffset : num) (results out : list value),
    decodeParametersLoop types buffer staticOffset results = Ok out ->
    List.length out = (List.length results + List.length types)%nat.
Proof.
  induction types as [| t types IH]; intros staticOffset results out H.
  - cbn in H. injection H as <-. cbn. lia.
  - cbn [decodeParametersLoop] in H.
    invert_bind H as dynamic Hdyn.
    invert_bind H as [v next] Hv.
    apply IH in H. rewrite H, length_app. cbn [List.length]. lia.
Qed.

(** X19: [decodeParameters] returns one value for each type: an array of nulls
    when there is no data, and otherwise one decoded value per type. *)
Theorem decodeParameters_one_value_per_type (types : list abitype) (data : string)
    (values : list value) :
  decodeParameters types data = Ok values ->
  List.length values = List.length types
  /\ (data = "" \/ data = "0x" -> Forall (fun v => v = VNull) values).
Proof.
  unfold decodeParameters. intros H.
  destruct (String.eqb_spec data "") as [E1 | N1]; cbn [orb] in H.
  - injection H as <-. split; [apply repeat_length |].
    intros _. apply Forall_forall. intros v Hv. now apply repeat_spec in Hv.
  - destruct (String.eqb_spec data "0x") as [E2 | N2].
    + injection H as <-. split; [apply repeat_length |].
      intros _. apply Forall_forall. intros v Hv. now apply repeat_spec in Hv.
    + split; [| intros [? | ?]; congruence].
      now apply decodeParametersLoop_length in H.
Qed.

Lemma decodeParameters_one_value_per_type_witness :
  List.length [VArray [VStr (str "1"); VStr (str "2")]; VStr (str "2")]
  = List.length [TStr "uint256[2]"; TStr "uint256"].
Proof.
  exact (proj1 (decodeParameters_one_value_per_type
                  [TStr "uint256[2]"; TStr "uint256"] data123 _ eq_refl)).
Defined.

Lemma decodeParameter_uint256 (buffer : Buffer) (offset : Z) :
  decodeParameter (TStr "uint256") buffer offset
  = Ok (VStr (str (decimal (beValue (wordAt buffer offset)))), Num (offset + 32)).
Proof.
  unfold decodeParameter. cbn [type_fuel]. rewrite decodeParameter_fuel_uint256.
  now rewrite decodeUint_word.
Qed.

Lemma decodeParametersLoop_uint256 (ws : list Buffer) :
  Forall (fun w => List.length w = 32%nat) ws ->
  forall (pre post : Buffer) (results : list value),
    decodeParametersLoop (map (fun _ => TStr "uint256") ws) (pre ++ List.concat ws ++ post)
      (buflen pre) results
    = Ok (results ++ map (fun w => VStr (str (decimal (beValue w)))) ws).
Proof.
  induction 1 as [| w ws Hw _ IH]; intros pre post results.
  - cbn. now rewrite app_nil_r.
  - cbn [map List.concat decodeParametersLoop].
    replace (isDynamicType (TStr "uint256")) with (@Ok bool false) by reflexivity.
    cbn [bind]. rewrite decodeParameter_uint256. cbn [bind].
    rewrite <- (app_assoc w), wordAt_middle by assumption.
    cbn [nadd].
    replace (buflen pre + 32) with (buflen (pre ++ w))
      by (rewrite buflen_app, (buflen_length w 32 Hw); reflexivity).
    rewrite (app_assoc pre w), IH, <- app_assoc. reflexivity.
Qed.

Lemma toString_hex_nil (bs : Buffer) : toString_hex bs = "" -> bs = [].
Proof. destruct bs; [reflexivity | discriminate]. Qed.

(** X20: a sequence of 32-byte words, written in hexadecimal, is decoded
    by [decodeParameters] as that many [uint256] values. *)
Theorem decodeParameters_reads_uint256_words (ws : list Buffer) :
  Forall (fun w => List.length w = 32%nat) ws ->
  decodeParameters (map (fun _ => TStr "uint256") ws) (bufferToHex (List.concat ws))
  = Ok (map (fun w => VStr (str (decimal (beValue w)))) ws).
Proof.
  intros Hws. unfold decodeParameters.
  change (bufferToHex (List.concat ws) =? "")%string with false. cbn [orb].
  destruct (String.eqb_spec (bufferToHex (List.concat ws)) "0x") as [E | _].
  - unfold bufferToHex in E. injection E as E. apply toString_hex_nil in E.
    destruct ws as [| w ws]; [reflexivity |].
    inversion Hws as [| ? ? Hw _]; subst. destruct w; discriminate.
  - rewrite hexToBuffer_inverse.
    pose proof (decodeParametersLoop_uint256 ws Hws [] [] []) as G.
    cbn [app] in G. rewrite app_nil_r in G. exact G.
Qed.

Lemma decodeParameters_reads_uint256_words_witness :
  decodeParameters [TStr "uint256"; TStr "uint256"] (bufferToHex (wordOf 7 ++ wordOf 9))
  = Ok [VStr (str "7"); VStr (str "9")].
Proof.
  apply (decodeParameters_reads_uint256_words [wordOf 7; wordOf 9]).
  repeat constructor.
Defined.

(** X21: the standard encoding of one [bytes] parameter (the head word
    32, the length word, the payload) is read back by [decodeParameters]. *)
Theorem decodeParameters_reads_bytes (head lengthWord payload post : Buffer) :
  List.length head = 32%nat -> beValue head = 32 ->
  List.length lengthWord = 32%nat -> beValue lengthWord = buflen payload ->
  decodeParameters [TStr "bytes"] (bufferToHex (head ++ lengthWord ++ payload ++ post))
  = Ok [VStr (str (bufferToHex payload))].
Proof.
  intros Lh Hh Lw Hw. unfold decodeParameters.
  change (String.eqb (bufferToHex (head ++ lengthWord ++ payload ++ post)) "") with false.
  cbn [orb].
  destruct (String.eqb_spec (bufferToHex (head ++ lengthWord ++ payload ++ post)) "0x")
    as [E | _].
  { unfold bufferToHex in E. injection E as E. apply toString_hex_nil in E.
    destruct head; discriminate. }
  rewrite hexToBuffer_inverse. cbn [decodeParametersLoop].
  replace (isDynamicType (TStr "bytes")) with (@Ok bool true) by reflexivity.
  cbn [bind]. rewrite decodeUint_word.
  pose proof (wordAt_middle [] head (lengthWord ++ payload ++ post) Lh) as Gh.
  change (buflen []) with 0 in Gh. cbn [app] in Gh. rewrite Gh, Hh.
  cbn [bind]. rewrite Number_decimal.
  unfold decodeParameter. cbn [type_fuel decodeParameter_fuel String.length].
  unfold decodeParameter_body. cbn [typeStrOf].
  replace (includes "bytes" "[") with false by reflexivity.
  change (startsWith "bytes" "tuple") with false.
  change ("bytes" =? "bool")%string with false.
  change ("bytes" =? "address")%string with false.
  change ("bytes" =? "bytes")%string with true. cbv iota.
  unfold decodeBytes.
  replace (Num 32) with (Num (buflen head)) by (now rewrite (buflen_length head 32 Lh)).
  rewrite (decodeBytesAt_layout head lengthWord payload post Lw Hw).
  reflexivity.
Qed.

Lemma decodeParameters_reads_bytes_witness :
  decodeParameters [TStr "bytes"]
    (bufferToHex (wordOf 32 ++ wordOf 3 ++ [x01; x02; x03] ++ repeat x00 29))
  = Ok [VStr (str "0x010203")].
Proof.
  exact (decodeParameters_reads_bytes (wordOf 32) (wordOf 3) [x01; x02; x03] (repeat x00 29)
           eq_refl eq_refl eq_refl eq_refl).
Defined.

(** ** [decodeLog] *)

Lemma decodeIndexed_topic0 (t0 t0' : string) (topics : list string)
    (params : list EventInput) :
  forall (i : nat) (args : list (string * value)),
    decodeIndexed params (t0 :: topics) i args
    = decodeIndexed params (t0' :: topics) i args.
Proof.
  induction params as [| param params IH]; intros i args; [reflexivity |].
  cbn [decodeIndexed]. rewrite Nat.add_1_r. cbn [nth_error].
  destruct (nth_error topics i) as [[| c r] |]; try apply IH.
  destruct (isDynamicType (TStr (in_type param))) as [[] |]; cbn [bind];
    try reflexivity; try apply IH.
  destruct (decodeParameter _ _ _) as [[v ?] |]; cbn [bind]; [apply IH | reflexivity].
Qed.

(** X22: [decodeLog] never looks at [topics[0]]: the signature topic of the
    log is not compared with the event, and any first topic gives the same
    decoding. *)
Theorem decodeLog_ignores_signature_topic (eventAbi : EventAbi) (data : string)
    (topic0 topic0' : string) (topics : list string) :
  decodeLog eventAbi data (topic0 :: topics)
  = decodeLog eventAbi data (topic0' :: topics).
Proof.
  unfold decodeLog. now rewrite (decodeIndexed_topic0 topic0 topic0').
Qed.

Lemma decodeIndexed_names (inputs : list EventInput) (topics : list string)
    (params : list EventInput) :
  incl params inputs ->
  forall (i : nat) (args out : list (string * value)),
    namesOf inputs args ->
    decodeIndexed params topics i args = Ok out ->
    namesOf inputs out.
Proof.
  induction params as [| param params IH]; intros Hincl i args out Hargs H.
  - cbn in H. now injection H as <-.
  - assert (Hp : In param inputs) by (apply Hincl; now left).
    assert (Hrest : incl params inputs) by (intros x Hx; apply Hincl; now right).
    assert (Hset : forall v, namesOf inputs (obj_set args (in_name param) v)).
    { intros v kv Hkv. apply obj_set_In in Hkv. destruct Hkv as [-> | Hkv].
      - now exists param.
      - now apply Hargs. }
    cbn [decodeIndexed] in H.
    destruct (nth_error topics (i + 1)) as [[| c r] |]; try (eapply IH; eassumption).
    invert_bind H as dynamic Hdyn. destruct dynamic.
    + eapply IH; [assumption | apply Hset | exact H].
    + invert_bind H as [v next] Hv. eapply IH; [assumption | apply Hset | exact H].
Qed.

Lemma storeData_names (inputs : list EventInput) (decodedData : list value)
    (params : list EventInput) :
  incl params inputs ->
  forall (i : nat) (args : list (string * value)),
    namesOf inputs args ->
    namesOf inputs (storeData params decodedData i args).
Proof.
  induction params as [| param params IH]; intros Hincl i args Hargs; [exact Hargs |].
  cbn [storeData]. apply IH; [intros x Hx; apply Hincl; now right |].
  intros kv Hkv. apply obj_set_In in Hkv. destruct Hkv as [-> | Hkv].
  - exists param. split; [apply Hincl; now left | reflexivity].
  - now apply Hargs.
Qed.

(** X23: the record returned by [decodeLog] carries the name of the
    event, and every key of its [args] is the name of an input of the
    event. *)
Theorem decodeLog_args_are_inputs (eventAbi : EventAbi) (data : string)
    (topics : list string) (result : LogResult) :
  decodeLog eventAbi data topics = Ok result ->
  log_name result = ev_name eventAbi
  /\ forall key v, In (key, v) (log_args result) ->
       exists input, In input (ev_inputs eventAbi) /\ in_name input = key.
Proof.
  unfold decodeLog. intros H.
  invert_bind H as args Hargs.
  invert_bind H as args' Hargs'.
  injection H as <-. cbn [log_name log_args]. split; [reflexivity |].
  assert (N1 : namesOf (ev_inputs eventAbi) args).
  { eapply decodeIndexed_names; [| | exact Hargs].
    - intros x Hx. now apply filter_In in Hx.
    - intros kv []. }
  assert (N2 : namesOf (ev_inputs eventAbi) args').
  { destruct (_ && _).
    - invert_bind Hargs' as decodedData Hd. injection Hargs' as <-.
      apply storeData_names; [| exact N1].
      intros x Hx. now apply filter_In in Hx.
    - now injection Hargs' as <-. }
  intros key v Hin. exact (N2 (key, v) Hin).
Qed.

Lemma decodeLog_args_are_inputs_witness :
  log_name (mkLog "Transfer"
              [("from", VStr (str "0x742d35cc6634c0532925a3b8d8e9eed89b7a6de6"))])
  = ev_name transferEvent.
Proof.
  exact (proj1 (decodeLog_args_are_inputs transferEvent "0x" [transferTopic; fromTopic] _
                  eq_refl)).
Defined.

(** ** [parseTupleComponents] *)

Lemma isNameChar_step (c : ascii) (components : list (string * string)) (depth : Z)
    (current : string) (inType : bool) :
  isNameChar c = true ->
  parseStep (mkParse components depth current inType) c
  = mkParse components depth (current ++ String c "") inType.
Proof.
  unfold isNameChar, parseStep. intros H.
  repeat (apply andb_true_iff in H; destruct H as [H ?]).
  apply negb_true_iff in H.
  repeat match goal with
         | H : negb _ = true |- _ => apply negb_true_iff in H
         end.
  assert (Hsp : Ascii.eqb c " " = false).
  { destruct (Ascii.eqb_spec c " ") as [-> | _]; [discriminate H | reflexivity]. }
  repeat match goal with
         | H : Ascii.eqb c _ = false |- _ => rewrite H; clear H
         end.
  reflexivity.
Qed.

Lemma parseLoop_name (w rest : string) (components : list (string * string))
    (depth : Z) (inType : bool) :
  everyChar isNameChar w = true ->
  forall current,
    parseLoop (w ++ rest) (mkParse components depth current inType)
    = parseLoop rest (mkParse components depth (current ++ w) inType).
Proof.
  induction w as [| c w IH]; intros Hw current.
  - cbn [append]. now rewrite append_nil_r.
  - cbn [everyChar] in Hw. apply andb_true_iff in Hw. destruct Hw as [Hc Hw].
    cbn [append parseLoop]. rewrite (isNameChar_step c _ _ _ _ Hc), (IH Hw).
    now rewrite append_assoc.
Qed.

Lemma isName_parts (s : string) :
  isName s = true ->
  exists c r, s = String c r /\ isNameChar c = true /\ everyChar isNameChar r = true.
Proof.
  unfold isName. intros H. apply andb_true_iff in H. destruct H as [Hne Hs].
  destruct s as [| c r]; [discriminate Hne |].
  cbn [everyChar] in Hs. apply andb_true_iff in Hs. destruct Hs as [Hc Hr].
  now exists c, r.
Qed.

Lemma isNameChar_not_space (c : ascii) : isNameChar c = true -> isSpaceChar c = false.
Proof.
  unfold isNameChar. intros H.
  repeat (apply andb_true_iff in H; destruct H as [H ?]).
  now apply negb_true_iff in H.
Qed.

Lemma trimEnd_name (s : string) :
  everyChar isNameChar s = true -> trimEnd s = s.
Proof.
  induction s as [| c s IH]; intros H; [reflexivity |].
  cbn [everyChar] in H. apply andb_true_iff in H. destruct H as [Hc Hs].
  cbn [trimEnd]. rewrite (IH Hs), (isNameChar_not_space c Hc). now destruct s.
Qed.

Lemma trimEnd_app (a b : string) :
  trimEnd b <> "" -> trimEnd (a ++ b) = (a ++ trimEnd b)%string.
Proof.
  intros Hb. induction a as [| c a IH]; [reflexivity |].
  cbn [append trimEnd]. rewrite IH.
  destruct (a ++ trimEnd b)%string eqn:E; [| reflexivity].
  destruct a; [cbn in E; congruence | discriminate E].
Qed.

Lemma trim_name (s : string) : isName s = true -> trim s = s.
Proof.
  intros H. destruct (isName_parts s H) as (c & r & -> & Hc & Hr).
  unfold trim. cbn [trimStart]. rewrite (isNameChar_not_space c Hc).
  apply trimEnd_name. cbn [everyChar]. now rewrite Hc, Hr.
Qed.

Lemma split_ws_from_name (s : string) :
  everyChar isNameChar s = true ->
  forall cur inWs rest,
    split_ws_from (s ++ rest) cur inWs = split_ws_from rest (cur ++ s) (inWs && String.eqb s "").
Proof.
  induction s as [| c s IH]; intros H cur inWs rest.
  - cbn [append]. now rewrite append_nil_r, andb_true_r.
  - cbn [everyChar] in H. apply andb_true_iff in H. destruct H as [Hc Hs].
    cbn [append split_ws_from]. rewrite (isNameChar_not_space c Hc), (IH Hs).
    rewrite append_assoc. cbn [append andb String.eqb]. now rewrite andb_false_r.
Qed.

Lemma split_ws_name (s : string) : isName s = true -> split_ws s = [s].
Proof.
  intros H. destruct (isName_parts s H) as (c & r & -> & Hc & Hr).
  assert (Hw : everyChar isNameChar (String c r) = true)
    by (cbn [everyChar]; now rewrite Hc, Hr).
  pose proof (split_ws_from_name (String c r) Hw "" false "") as G.
  rewrite append_nil_r in G. unfold split_ws. rewrite G. reflexivity.
Qed.

Lemma pushComponent_name (components : list (string * string)) (t : string) :
  isName t = true ->
  pushComponent components t
  = components ++ [(t, "field" ++ decimal_nat (List.length components))%string].
Proof.
  intros H. unfold pushComponent. rewrite (trim_name t H), (split_ws_name t H).
  destruct (isName_parts t H) as (c & r & -> & _). reflexivity.
Qed.

Lemma parseStep_comma (components : list (string * string)) (current : string)
    (inType : bool) :
  parseStep (mkParse components 0 current inType) ","
  = mkParse (pushComponent components current) 0 "" inType.
Proof. reflexivity. Qed.

Lemma parseLoop_numbered (types : list string) :
  Forall (fun t => isName t = true) types -> types <> [] ->
  forall components inType,
    let st := parseLoop (join "," types) (mkParse components 0 "" inType) in
    pushComponent (ps_components st) (ps_current st)
    = components ++ numbered (List.length components) types.
Proof.
  induction 1 as [| t types Ht Hts IH]; intros Hne components inType; [congruence |].
  destruct (isName_parts t Ht) as (c & r & Et & Hc & Hr).
  assert (Hw : everyChar isNameChar t = true)
    by (rewrite Et; cbn [everyChar]; now rewrite Hc, Hr).
  destruct types as [| t' types].
  - cbn [join numbered]. cbv zeta.
    pose proof (parseLoop_name t "" components 0 inType Hw "") as G.
    rewrite append_nil_r in G. rewrite G.
    cbn [parseLoop ps_components ps_current append].
    now apply pushComponent_name.
  - change (join "," (t :: t' :: types)) with (t ++ String "," (join "," (t' :: types)))%string.
    cbv zeta. rewrite (parseLoop_name t _ _ _ _ Hw).
    cbn [parseLoop append]. rewrite parseStep_comma.
    rewrite (pushComponent_name components t Ht).
    specialize (IH ltac:(discriminate) (components ++ [(t, ("field" ++ decimal_nat (List.length components))%string)]) inType).
    cbv zeta in IH. rewrite IH, <- app_assoc, length_app. cbn [List.length app numbered].
    now rewrite Nat.add_1_r.
Qed.

(** X24: a list of elementary types separated by commas is parsed into
    these types, in order, named [field0], [field1], ... *)
Theorem parseTupleComponents_unnamed (types : list string) :
  Forall (fun t => isName t = true) types ->
  parseTupleComponents (join "," types) = numbered 0 types.
Proof.
  intros H. destruct types as [| t types]; [reflexivity |].
  unfold parseTupleComponents.
  exact (parseLoop_numbered (t :: types) H ltac:(discriminate) [] true).
Qed.

Lemma parseTupleComponents_unnamed_witness :
  parseTupleComponents "uint256,address,bool"
  = [("uint256", "field0"); ("address", "field1"); ("bool", "field2")].
Proof.
  apply (parseTupleComponents_unnamed ["uint256"; "address"; "bool"]).
  repeat constructor.
Defined.

Lemma parseStep_first_space (components : list (string * string)) (current : string) :
  isName current = true ->
  parseStep (mkParse components 0 current true) " "
  = mkParse components 0 current false.
Proof.
  intros H. unfold parseStep. rewrite (trim_name current H).
  destruct (isName_parts current H) as (c & r & -> & _). reflexivity.
Qed.

Lemma parseStep_later_space (components : list (string * string)) (current : string) :
  parseStep (mkParse components 0 current false) " "
  = mkParse components 0 (current ++ " ") false.
Proof. unfold parseStep. cbn. now rewrite andb_false_r. Qed.

Lemma isName_app (a b : string) :
  isName a = true -> everyChar isNameChar b = true -> isName (a ++ b) = true.
Proof.
  intros Ha Hb. destruct (isName_parts a Ha) as (c & r & -> & Hc & Hr).
  unfold isName. cbn [append String.eqb negb andb everyChar]. rewrite Hc. cbn [andb].
  clear Ha Hc. induction r as [| d r IH]; [exact Hb |].
  cbn [everyChar] in Hr. apply andb_true_iff in Hr. destruct Hr as [Hd Hr].
  cbn [append everyChar]. now rewrite Hd, (IH Hr).
Qed.

Lemma isName_every (s : string) : isName s = true -> everyChar isNameChar s = true.
Proof. unfold isName. intros H. now apply andb_true_iff in H. Qed.

Lemma trim_framed (a n : string) :
  isName a = true -> isName n = true ->
  forall mid, trim (a ++ mid ++ n) = (a ++ mid ++ n)%string.
Proof.
  intros Ha Hn mid.
  destruct (isName_parts a Ha) as (c & r & -> & Hc & _).
  destruct (isName_parts n Hn) as (d & q & En & _).
  unfold trim. cbn [append trimStart]. rewrite (isNameChar_not_space c Hc).
  change (String c (r ++ mid ++ n)) with (String c r ++ mid ++ n)%string.
  rewrite <- !append_assoc.
  rewrite trimEnd_app; rewrite (trimEnd_name n (isName_every n Hn));
    [reflexivity | rewrite En; discriminate].
Qed.

Lemma pushComponent_named (components : list (string * string)) (t n : string) :
  isName t = true -> isName n = true ->
  pushComponent components (t ++ " " ++ n) = components ++ [(t, n)].
Proof.
  intros Ht Hn. unfold pushComponent.
  rewrite (trim_framed t n Ht Hn " ").
  destruct (isName_parts t Ht) as (c & r & Et & Hc & Hr).
  destruct (isName_parts n Hn) as (d & q & En & Hd & Hq).
  assert (Esplit : split_ws (t ++ " " ++ n) = [t; n]).
  { unfold split_ws. rewrite (split_ws_from_name t (isName_every t Ht)).
    cbn [append andb split_ws_from]. change (isSpaceChar " ") with true. cbv iota.
    f_equal.
    pose proof (split_ws_from_name n (isName_every n Hn) "" true "") as G.
    rewrite append_nil_r in G. rewrite G, En. reflexivity. }
  rewrite Esplit. cbn [nth nth_error].
  replace (String.eqb (t ++ " " ++ n) "") with false
    by (rewrite Et; reflexivity).
  rewrite En. reflexivity.
Qed.

Lemma parseLoop_named_one (c : string * string) (rest : string)
    (components : list (string * string)) :
  isName (fst c) = true -> isName (snd c) = true ->
  parseLoop (namedComponent c ++ rest) (mkParse components 0 "" false)
  = parseLoop rest (mkParse components 0 (namedComponent c) false).
Proof.
  intros Ht Hn. unfold namedComponent.
  rewrite !append_assoc.
  rewrite (parseLoop_name (fst c) _ _ _ _ (isName_every _ Ht)).
  cbn [append parseLoop]. rewrite parseStep_later_space.
  rewrite (parseLoop_name (snd c) _ _ _ _ (isName_every _ Hn)).
  now rewrite append_assoc.
Qed.

Lemma parseLoop_named_rest (cs : list (string * string)) :
  Forall (fun c => isName (fst c) = true /\ isName (snd c) = true) cs -> cs <> [] ->
  forall components,
    let st := parseLoop (join "," (map namedComponent cs)) (mkParse components 0 "" false) in
    pushComponent (ps_components st) (ps_current st) = components ++ cs.
Proof.
  induction 1 as [| c cs [Ht Hn] Hcs IH]; intros Hne components; [congruence |].
  destruct cs as [| c' cs].
  - cbn [map join]. cbv zeta.
    pose proof (parseLoop_named_one c "" components Ht Hn) as G.
    rewrite append_nil_r in G. rewrite G. cbn [parseLoop ps_components ps_current].
    unfold namedComponent. rewrite (pushComponent_named _ _ _ Ht Hn).
    now destruct c.
  - change (join "," (map namedComponent (c :: c' :: cs)))
      with (namedComponent c ++ String "," (join "," (map namedComponent (c' :: cs))))%string.
    cbv zeta. rewrite (parseLoop_named_one c _ components Ht Hn).
    cbn [parseLoop]. rewrite parseStep_comma.
    replace (pushComponent components (namedComponent c))
      with (components ++ [(fst c, snd c)])
      by (symmetry; apply pushComponent_named; assumption).
    specialize (IH ltac:(discriminate) (components ++ [(fst c, snd c)])).
    cbv zeta in IH. rewrite IH, <- app_assoc. now destruct c.
Qed.

(** X25: in the format [type1 name1,type2 name2,...] the first space of the
    string is dropped: the first name is appended to the first type, which
    is then named [field0]; the other components are read as written. *)
Theorem parseTupleComponents_named (first : string * string)
    (others : list (string * string)) :
  Forall (fun c => isName (fst c) = true /\ isName (snd c) = true) (first :: others) ->
  parseTupleComponents (join "," (map namedComponent (first :: others)))
  = (fst first ++ snd first, "field0")%string :: others.
Proof.
  intros H. inversion H as [| ? ? [Ht Hn] Hothers]; subst.
  assert (Hglued : isName (fst first ++ snd first) = true)
    by (apply isName_app; [exact Ht | now apply isName_every]).
  assert (Hloop : forall rest,
             parseLoop (namedComponent first ++ rest) (mkParse [] 0 "" true)
             = parseLoop rest (mkParse [] 0 (fst first ++ snd first) false)).
  { intros rest. unfold namedComponent. rewrite !append_assoc.
    rewrite (parseLoop_name (fst first) _ _ _ _ (isName_every _ Ht)).
    cbn [append parseLoop]. rewrite (parseStep_first_space _ _ Ht).
    now rewrite (parseLoop_name (snd first) _ _ _ _ (isName_every _ Hn)). }
  unfold parseTupleComponents.
  destruct others as [| c cs].
  - cbn [map join]. pose proof (Hloop "") as G. rewrite append_nil_r in G.
    rewrite G. cbn [parseLoop ps_components ps_current].
    now rewrite (pushComponent_name [] _ Hglued).
  - change (join "," (map namedComponent (first :: c :: cs)))
      with (namedComponent first ++ String "," (join "," (map namedComponent (c :: cs))))%string.
    rewrite Hloop. cbn [parseLoop]. rewrite parseStep_comma.
    rewrite (pushComponent_name [] _ Hglued).
    exact (parseLoop_named_rest (c :: cs) Hothers ltac:(discriminate) _).
Qed.

Lemma parseTupleComponents_named_witness :
  parseTupleComponents "address owner,uint256 amount"
  = [("addressowner", "field0"); ("uint256", "amount")].
Proof.
  apply (parseTupleComponents_named ("address", "owner") [("uint256", "amount")]).
  repeat constructor.
Defined.

(** A tuple type string whose first component is named cannot be decoded
    when the glued text is not a type. *)
Example decode_named_tuple :
  decodeParameter (TStr "tuple(address owner,uint256 amount)")
    (repeat x00 64) 0
  = Err (UnsupportedType "addressowner")
  /\ decodeParameter (TStr "tuple(address,uint256)") (wordOf 1 ++ wordOf 2) 0
     = Ok (VObject [("field0", VStr (str "0x0000000000000000000000000000000000000001"));
                    ("field1", VStr (str "2"))], Num 64).
Proof. split; reflexivity. Qed.

(** ** [isDynamicType] of a tuple type string *)

Lemma includes_char_app (a b : string) (c : ascii) :
  includes (a ++ b) (String c "")
  = includes a (String c "") || includes b (String c "").
Proof.
  induction a as [| d a IH]; [reflexivity |].
  cbn [append]. rewrite !includes_char_cons, IH. apply orb_assoc.
Qed.

Lemma anyChar_app (f : ascii -> bool) (a b : string) :
  anyChar f (a ++ b) = anyChar f a || anyChar f b.
Proof.
  induction a as [| d a IH]; [reflexivity |].
  cbn [append anyChar]. rewrite IH. apply orb_assoc.
Qed.

Lemma isNameChar_plain (c : ascii) :
  isNameChar c = true ->
  isLineTerminator c = false /\ Ascii.eqb c "[" = false /\ Ascii.eqb c "(" = false.
Proof.
  unfold isNameChar. intros H.
  repeat (apply andb_true_iff in H; destruct H as [H ?]).
  repeat match goal with
         | H : negb _ = true |- _ => apply negb_true_iff in H
         end.
  repeat split; try assumption.
  unfold isSpaceChar, isWhiteSpace in H. unfold isLineTerminator.
  destruct (Z.eqb_spec (code c) 10) as [E | _]; [rewrite E in H; discriminate H |].
  destruct (Z.eqb_spec (code c) 13) as [E | _]; [rewrite E in H; discriminate H |].
  reflexivity.
Qed.

Lemma name_plain (t : string) :
  everyChar isNameChar t = true ->
  anyChar isLineTerminator t = false /\ includes t "[" = false
  /\ includes t "(" = false.
Proof.
  induction t as [| c t IH]; intros H; [repeat split |].
  cbn [everyChar] in H. apply andb_true_iff in H. destruct H as [Hc Ht].
  destruct (isNameChar_plain c Hc) as (H1 & H2 & H3).
  destruct (IH Ht) as (I1 & I2 & I3).
  cbn [anyChar]. rewrite !includes_char_cons, H1, H2, H3, I1, I2, I3. repeat split.
Qed.

Lemma join_plain (types : list string) :
  Forall (fun t => isName t = true) types ->
  anyChar isLineTerminator (join "," types) = false
  /\ includes (join "," types) "[" = false.
Proof.
  induction 1 as [| t types Ht _ IH]; [split; reflexivity |].
  destruct (name_plain t (isName_every t Ht)) as (N1 & N2 & _).
  destruct IH as (I1 & I2).
  destruct types as [| t' types]; [now split |].
  change (join "," (t :: t' :: types)) with (t ++ String "," (join "," (t' :: types)))%string.
  rewrite anyChar_app, includes_char_app. cbn [anyChar].
  rewrite includes_char_cons, N1, N2, I1, I2. split; reflexivity.
Qed.

Lemma substringFrom_tuple (inner : string) :
  substringFrom ("tuple(" ++ inner ++ ")") 6 = (inner ++ ")")%string.
Proof.
  unfold substringFrom. cbn [append String.length Nat.sub String.substring].
  rewrite Nat.sub_0_r. apply substring_all.
Qed.

Lemma match_tuple_wrap (inner : string) :
  inner <> "" -> anyChar isLineTerminator inner = false ->
  match_tuple ("tuple(" ++ inner ++ ")") = Some inner.
Proof.
  intros Hne Hlt. unfold match_tuple.
  replace (startsWith ("tuple(" ++ inner ++ ")") "tuple(") with true
    by (unfold startsWith; cbn; now destruct (inner ++ ")")%string).
  replace (substringFrom ("tuple(" ++ inner ++ ")") 6) with (inner ++ ")")%string
    by (symmetry; exact (substringFrom_tuple inner)).
  rewrite length_append. cbn [String.length].
  replace (String.length inner + 1 - 1)%nat with (String.length inner) by lia.
  rewrite substring_prefix, Hlt. unfold substringFrom.
  rewrite length_append. cbn [String.length].
  replace (String.length inner + 1 - String.length inner)%nat with 1%nat by lia.
  rewrite substring_skip. cbn [String.substring String.eqb Ascii.eqb Bool.eqb andb negb].
  destruct inner as [| c inner]; [congruence |].
  cbn [String.length]. rewrite Nat.add_1_r. reflexivity.
Qed.

Lemma some_existsb {A : Type} (f : A -> except bool) (g : A -> bool) (l : list A) :
  (forall x, In x l -> f x = Ok (g x)) -> some f l = Ok (existsb g l).
Proof.
  induction l as [| x l IH]; intros H; [reflexivity |].
  cbn [some existsb]. rewrite (H x (or_introl eq_refl)). cbn [bind].
  destruct (g x); [reflexivity |]. apply IH. intros y Hy. apply H. now right.
Qed.

Lemma not_tuple_with_components (t : string) :
  includes t "(" = false -> startsWith t "tuple(" = false.
Proof.
  unfold startsWith.
  destruct t as [| c1 [| c2 [| c3 [| c4 [| c5 [| c6 t]]]]]]; try reflexivity;
    cbn [String.prefix]; intros H;
    repeat match goal with
           | |- context [ascii_dec ?a ?b] =>
               destruct (ascii_dec a b); try reflexivity
           end.
  subst. pose proof (includes_app_char "tuple" "(" t) as G. cbn [append] in G. congruence.
Qed.

Lemma isDynamicType_fuel_TStr (fuel : nat) (s : string) :
  isDynamicType_fuel (S fuel) (TStr s)
  = if String.eqb s "string" || String.eqb s "bytes" then Ok true
    else if includes s "[]" then Ok true
    else if startsWith s "tuple" then
      match match_tuple s with
      | Some inner =>
          some (fun comp => isDynamicType_fuel fuel (TStr (fst comp)))
               (parseTupleComponents inner)
      | None => Ok false
      end
    else Ok false.
Proof. reflexivity. Qed.

Lemma isDynamicType_fuel_name (fuel : nat) (t : string) :
  isName t = true ->
  isDynamicType_fuel (S fuel) (TStr t) = Ok (isStringOrBytes t).
Proof.
  intros Ht. destruct (name_plain t (isName_every t Ht)) as (_ & N2 & N3).
  rewrite isDynamicType_fuel_TStr. unfold isStringOrBytes.
  destruct (String.eqb t "string" || String.eqb t "bytes"); [reflexivity |].
  pose proof (includes_brackets_base t "" N2) as E.
  rewrite append_nil_r in E. rewrite E. cbn [includes String.prefix orb].
  destruct (startsWith t "tuple"); [| reflexivity].
  unfold match_tuple. now rewrite (not_tuple_with_components t N3).
Qed.

Lemma existsb_numbered (g : string -> bool) (types : list string) :
  forall k, existsb (fun c => g (fst c)) (numbered k types) = existsb g types.
Proof.
  induction types as [| t types IH]; intros k; [reflexivity |].
  cbn [numbered existsb fst]. now rewrite IH.
Qed.

Lemma In_numbered (types : list string) (c : string * string) :
  forall k, In c (numbered k types) -> In (fst c) types.
Proof.
  induction types as [| t types IH]; intros k H; [contradiction |].
  cbn [numbered In] in *. destruct H as [<- | H]; [now left | right; eapply IH, H].
Qed.

(** X26: a tuple type string [tuple(type1,...,typek)] of elementary types
    is dynamic exactly when one of the types is [string] or [bytes]. *)
Theorem isDynamicType_tuple_of_elementary (types : list string) :
  types <> [] ->
  Forall (fun t => isName t = true) types ->
  isDynamicType (TStr (tupleType types)) = Ok (existsb isStringOrBytes types).
Proof.
  intros Hne Hts. destruct (join_plain types Hts) as (J1 & J2).
  assert (Hinner : join "," types <> "").
  { destruct types as [| t types]; [congruence |].
    inversion Hts as [| ? ? Ht _]; subst.
    destruct (isName_parts t Ht) as (c & r & -> & _).
    destruct types; discriminate. }
  unfold isDynamicType.
  assert (Hf : exists k, type_fuel (TStr (tupleType types)) = S (S k))
    by (unfold tupleType; cbn [type_fuel append String.length]; eexists; reflexivity).
  destruct Hf as (k & ->). rewrite isDynamicType_fuel_TStr. unfold tupleType.
  change (("tuple(" ++ join "," types ++ ")" =? "string")%string) with false.
  change (("tuple(" ++ join "," types ++ ")" =? "bytes")%string) with false.
  cbn [orb].
  replace (includes ("tuple(" ++ join "," types ++ ")") "[]") with false.
  2:{ symmetry.
      pose proof (includes_brackets_base ("tuple(" ++ join "," types ++ ")") "") as E.
      rewrite append_nil_r in E. rewrite E; [reflexivity |].
      change ("tuple(" ++ join "," types ++ ")")%string
        with ("tuple(" ++ (join "," types ++ ")"))%string.
      rewrite includes_char_app, includes_char_app, J2. reflexivity. }
  change (startsWith ("tuple(" ++ join "," types ++ ")") "tuple") with true. cbv iota.
  rewrite (match_tuple_wrap _ Hinner J1).
  unfold parseTupleComponents.
  rewrite (parseLoop_numbered types Hts Hne [] true). cbn [app List.length].
  rewrite <- (existsb_numbered isStringOrBytes types 0).
  apply some_existsb. intros c Hc.
  apply isDynamicType_fuel_name.
  exact (proj1 (Forall_forall _ _) Hts _ (In_numbered types c 0 Hc)).
Qed.

Lemma isDynamicType_tuple_of_elementary_witness :
  isDynamicType (TStr "tuple(uint256,string)") = Ok true
  /\ isDynamicType (TStr "tuple(uint256,address)") = Ok false.
Proof.
  split.
  - apply (isDynamicType_tuple_of_elementary ["uint256"; "string"]);
      [discriminate | repeat constructor].
  - apply (isDynamicType_tuple_of_elementary ["uint256"; "address"]);
      [discriminate | repeat constructor].
Defined.

(** ** The keys of a decoded tuple *)

Lemma obj_set_keys (o : list (string * value)) (k : string) (v : value) (key : string) :
  In key (map fst (obj_set o k v))
  <-> (key = k /\ key <> "__proto__") \/ In key (map fst o).
Proof.
  unfold obj_set. destruct (String.eqb_spec k "__proto__") as [-> | Hp].
  - intuition congruence.
  - induction o as [| [k' v'] o IH]; cbn [obj_define map fst In].
    + intuition congruence.
    + destruct (String.eqb_spec k' k) as [-> | Hne]; cbn [map fst In].
      * intuition congruence.
      * rewrite IH. intuition congruence.
Qed.

Section TupleKeys.

Variable rec : abitype -> Buffer -> num -> except (value * num).
Variable buffer : Buffer.

Lemma decodeTupleFirst_keys (offset : num) (components : list abitype) :
  forall (i : nat) (result : list (string * value)) (currentOffset : num)
         (dynamicOffsets : list dynamicInfo) out,
    decodeTupleFirst rec components buffer offset i result currentOffset dynamicOffsets
    = Ok out ->
    forall key,
      In key (map fst (fst (fst out)))
      \/ (In key (map di_fieldName (snd out)) /\ key <> "__proto__")
      <-> In key (map fst result)
          \/ (In key (map di_fieldName dynamicOffsets) /\ key <> "__proto__")
          \/ ((exists j c, nth_error components j = Some c
                           /\ fieldNameOf c (i + j) = key)
              /\ key <> "__proto__").
Proof.
  induction components as [| c components IH];
    intros i result currentOffset dynamicOffsets out H key.
  - cbn in H. injection H as <-. cbn [fst snd]. split; [tauto |].
    intros [? | [? | ((j & c & Hj & _) & _)]]; [tauto | tauto |].
    destruct j; discriminate Hj.
  - cbn [decodeTupleFirst] in H. invert_bind H as dynamic Hd.
    assert (Hshift : (exists j c', nth_error (c :: components) j = Some c'
                                   /\ fieldNameOf c' (i + j) = key)
                     <-> fieldNameOf c i = key
                         \/ exists j c', nth_error components j = Some c'
                                         /\ fieldNameOf c' (S i + j) = key).
    { split.
      - intros (j & c' & Hj & Hk). destruct j as [| j].
        + cbn in Hj. injection Hj as <-. left. now rewrite Nat.add_0_r in Hk.
        + right. exists j, c'. split; [exact Hj |].
          now replace (S i + j)%nat with (i + S j)%nat by lia.
      - intros [Hk | (j & c' & Hj & Hk)].
        + exists O, c. split; [reflexivity | now rewrite Nat.add_0_r].
        + exists (S j), c'. split; [exact Hj |].
          now replace (i + S j)%nat with (S i + j)%nat by lia. }
    rewrite Hshift. destruct dynamic.
    + invert_bind H as [offsetStr ?] Ho.
      rewrite (IH _ _ _ _ _ H key), map_app, in_app_iff. cbn [map In di_fieldName].
      intuition congruence.
    + invert_bind H as [v n] Hv.
      rewrite (IH _ _ _ _ _ H key), obj_set_keys. intuition congruence.
Qed.

Lemma decodeTupleSecond_keys (dynamicOffsets : list dynamicInfo) :
  forall (result out : list (string * value)),
    decodeTupleSecond rec dynamicOffsets buffer result = Ok out ->
    forall key,
      In key (map fst out)
      <-> In key (map fst result)
          \/ (In key (map di_fieldName dynamicOffsets) /\ key <> "__proto__").
Proof.
  induction dynamicOffsets as [| info rest IH]; intros result out H key.
  - cbn in H. injection H as <-. cbn. tauto.
  - cbn [decodeTupleSecond] in H. invert_bind H as [v n] Hv.
    rewrite (IH _ _ H key), obj_set_keys. cbn [map In]. intuition congruence.
Qed.

Lemma decodeTuple_own_keys (type : abitype) (offset : num)
    (fields : list (string * value)) (next : num) (components : list abitype) :
  decodeTuple rec type buffer offset = Ok (fields, next) ->
  tupleComponents type = Ok components ->
  forall key,
    In key (map fst fields)
    <-> key <> "__proto__"
        /\ exists i c, nth_error components i = Some c /\ fieldNameOf c i = key.
Proof.
  unfold decodeTuple. intros H Hc key. rewrite Hc in H. cbn [bind] in H.
  invert_bind H as [[result currentOffset] dynamicOffsets] H1.
  invert_bind H as out H2. injection H as <- _.
  rewrite (decodeTupleSecond_keys _ _ _ H2 key).
  pose proof (decodeTupleFirst_keys _ _ _ _ _ _ _ H1 key) as G.
  cbn [fst snd map In] in G. rewrite G. cbn [Nat.add]. tauto.
Qed.

End TupleKeys.

(** X27: the keys of the object that [decodeTuple] returns, with the
    parameter decoder for its components, are the names of the components,
    [field{i}] standing for a component without a name, except the name
    [__proto__]: the assignment [result['__proto__'] = value] stores no
    property. *)
Theorem decodeTuple_keys (fuel : nat) (type : abitype) (buffer : Buffer)
    (offset : num) (fields : list (string * value)) (next : num)
    (components : list abitype) :
  decodeTuple (decodeParameter_fuel fuel) type buffer offset = Ok (fields, next) ->
  tupleComponents type = Ok components ->
  forall key,
    In key (map fst fields)
    <-> key <> "__proto__"
        /\ exists i c, nth_error components i = Some c /\ fieldNameOf c i = key.
Proof. apply decodeTuple_own_keys. Qed.

Lemma decodeTuple_keys_witness :
  (In "b" (map fst [("b", VStr (str "0x0000000000000000000000000000000000000002"))])
   <-> "b" <> "__proto__"
       /\ exists i c,
            nth_error [TObj "uint256" "__proto__" None; TObj "address" "b" None] i
            = Some c
            /\ fieldNameOf c i = "b")
  /\ ~ In "__proto__"
         (map fst [("b", VStr (str "0x0000000000000000000000000000000000000002"))]).
Proof.
  pose proof (decodeTuple_keys 2 protoParam (wordOf 1 ++ wordOf 2) 0
                _ 64 _ eq_refl eq_refl) as H.
  split; [exact (H "b") |].
  intros Hin. apply (H "__proto__") in Hin. destruct Hin as [Hne _].
  apply Hne. reflexivity.
Defined.

(** ** lib/utils.js: canonical types and signatures *)

Lemma beforeChar_split (s : string) (c : ascii) :
  (beforeChar s c ++ substringFrom s (String.length (beforeChar s c)))%string = s.
Proof.
  unfold substringFrom. induction s as [| d s IH]; [reflexivity |].
  cbn [beforeChar]. destruct (Ascii.eqb d c).
  - change (String.length "") with O. rewrite Nat.sub_0_r. cbn [append].
    apply substring_all.
  - cbn [append String.length Nat.sub String.substring]. now rewrite IH.
Qed.

Lemma beforeChar_no_char (s : string) (c : ascii) :
  includes s (String c "") = false -> beforeChar s c = s.
Proof.
  induction s as [| d s IH]; intros H; [reflexivity |].
  rewrite includes_char_cons in H. apply orb_false_iff in H. destruct H as [Hd Hs].
  cbn [beforeChar]. now rewrite Hd, (IH Hs).
Qed.

Lemma beforeChar_app (base r : string) (c : ascii) :
  includes base (String c "") = false ->
  beforeChar (base ++ String c r) c = base.
Proof.
  induction base as [| d base IH]; intros H.
  - cbn. now rewrite Ascii.eqb_refl.
  - rewrite includes_char_cons in H. apply orb_false_iff in H. destruct H as [Hd Hb].
    cbn [append beforeChar]. now rewrite Hd, (IH Hb).
Qed.

Lemma includes_beforeChar (s : string) (c : ascii) :
  includes (beforeChar s c) (String c "") = false.
Proof.
  induction s as [| d s IH]; [reflexivity |].
  cbn [beforeChar]. destruct (Ascii.eqb d c) eqn:E; [reflexivity |].
  rewrite includes_char_cons, E, IH. reflexivity.
Qed.

Lemma substringFrom_bracket (s : string) :
  includes s "[" = true ->
  exists r, substringFrom s (String.length (beforeChar s "[")) = String "[" r.
Proof.
  unfold substringFrom. induction s as [| d s IH]; intros H; [discriminate |].
  rewrite includes_char_cons in H. cbn [beforeChar].
  destruct (Ascii.eqb_spec d "[") as [-> | Hne].
  - change (String.length "") with O. rewrite Nat.sub_0_r, substring_all. now exists s.
  - cbn [orb] in H. cbn [String.length Nat.sub String.substring]. now apply IH.
Qed.

Lemma getBaseCanonicalType_fixed (type : string) :
  String.eqb type "uint" = false -> String.eqb type "int" = false ->
  getBaseCanonicalType type = type.
Proof.
  intros H1 H2. unfold getBaseCanonicalType. rewrite H1, H2.
  destruct (String.eqb_spec type "tuple") as [-> | _]; [reflexivity |].
  destruct (String.eqb_spec type "bytes") as [-> | _]; reflexivity.
Qed.

Lemma getCanonicalType_canonical (type name : string) (components : option (list abitype)) :
  isCanonical type = true ->
  getCanonicalType (TObj type name components) = Ok type.
Proof.
  unfold isCanonical. intros H. apply andb_true_iff in H. destruct H as [H1 H2].
  apply negb_true_iff in H1, H2. cbn [getCanonicalType].
  destruct (includes type "[") eqn:E.
  - rewrite (getBaseCanonicalType_fixed _ H1 H2). now rewrite beforeChar_split.
  - rewrite (beforeChar_no_char type "[" E) in H1, H2.
    now rewrite (getBaseCanonicalType_fixed _ H1 H2).
Qed.

Lemma getBaseCanonicalType_no_bracket (type : string) :
  includes type "[" = false -> includes (getBaseCanonicalType type) "[" = false.
Proof.
  intros H. unfold getBaseCanonicalType.
  destruct (String.eqb type "tuple"); [reflexivity |].
  destruct (String.eqb type "uint"); [reflexivity |].
  destruct (String.eqb type "int"); [reflexivity |].
  destruct (String.eqb type "bytes" && negb (includes type "bytes")); [reflexivity |].
  exact H.
Qed.

Lemma getBaseCanonicalType_not_alias (type : string) :
  String.eqb (getBaseCanonicalType type) "uint" = false
  /\ String.eqb (getBaseCanonicalType type) "int" = false.
Proof.
  unfold getBaseCanonicalType.
  destruct (String.eqb type "tuple"); [split; reflexivity |].
  destruct (String.eqb type "uint") eqn:E1; [split; reflexivity |].
  destruct (String.eqb type "int") eqn:E2; [split; reflexivity |].
  destruct (String.eqb type "bytes" && negb (includes type "bytes")); [split; reflexivity |].
  now split.
Qed.

Lemma getCanonicalType_isCanonical (type name : string)
    (components : option (list abitype)) (canonical : string) :
  getCanonicalType (TObj type name components) = Ok canonical ->
  isCanonical canonical = true.
Proof.
  cbn [getCanonicalType]. unfold isCanonical.
  destruct (getBaseCanonicalType_not_alias type) as (A1 & A2).
  destruct (getBaseCanonicalType_not_alias (beforeChar type "[")) as (B1 & B2).
  destruct (includes type "[") eqn:E; intros [= <-].
  - destruct (substringFrom_bracket type E) as (r & ->).
    rewrite beforeChar_app, B1, B2; [reflexivity |].
    apply getBaseCanonicalType_no_bracket, includes_beforeChar.
  - rewrite beforeChar_no_char by (now apply getBaseCanonicalType_no_bracket).
    now rewrite A1, A2.
Qed.

(** X28: [getCanonicalType] is idempotent: a canonical type is its own
    canonical type. *)
Theorem getCanonicalType_idempotent (type name : string)
    (components : option (list abitype)) (canonical : string) :
  getCanonicalType (TObj type name components) = Ok canonical ->
  getCanonicalType (TObj canonical name components) = Ok canonical.
Proof.
  intros H. apply getCanonicalType_canonical.
  exact (getCanonicalType_isCanonical type name components canonical H).
Qed.

Lemma getCanonicalType_idempotent_witness :
  getCanonicalType (TObj "uint[3]" "xs" None) = Ok "uint256[3]"
  /\ getCanonicalType (TObj "uint256[3]" "xs" None) = Ok "uint256[3]".
Proof.
  split; [reflexivity |].
  exact (getCanonicalType_idempotent "uint[3]" "xs" None "uint256[3]" eq_refl).
Defined.




(** ** Decoded integers and [toBigInt] *)

(** X30: a value returned by [decodeUint] lies in the range of the width, and
    one returned by [decodeInt] in the signed range; [toBigInt] converts
    the decimal string back to that integer. *)
Theorem decoded_integer_in_range (buffer : Buffer) (offset : num) (bits : Z)
    (s : jsstring) (next : num) :
  (decodeUint buffer offset bits = Ok (s, next) ->
   exists z, 0 <= z < 2 ^ bits /\ s = str (decimal z) /\ toBigInt (JString s) = inl z)
  /\ (decodeInt buffer offset bits = Ok (s, next) ->
      exists z, - 2 ^ (bits - 1) <= z < 2 ^ (bits - 1)
                /\ s = str (decimal z) /\ toBigInt (JString s) = inl z).
Proof.
  split.
  - intros H. destruct (decodeUint_decimal _ _ _ _ _ H) as (z0 & Hz0 & Es0).
    unfold decodeUint in H. invert_bind H as value Hvalue.
    rewrite shiftl_1 in H.
    destruct (Z.gtb_spec value (2 ^ bits - 1)); [discriminate |].
    injection H as <- _. exists value.
    assert (Ev : value = z0).
    { apply (f_equal StringToBigInt) in Es0.
      rewrite !StringToBigInt_decimal in Es0. congruence. }
    split; [lia | split; [reflexivity |]].
    unfold toBigInt, BigInt_of_string. rewrite StringToBigInt_decimal.
    now destruct (js_startsWith0x _).
  - intros H. unfold decodeInt in H. invert_bind H as value Hvalue.
    rewrite !shiftl_1 in H.
    match type of H with
    | (if (?v <? ?lo) || (?v >? ?hi) then _ else _) = _ =>
        destruct (Z.ltb_spec v lo); [discriminate |];
        destruct (Z.gtb_spec v hi); [discriminate |];
        exists v
    end.
    injection H as <- _.
    split; [lia | split; [reflexivity |]].
    unfold toBigInt, BigInt_of_string. rewrite StringToBigInt_decimal.
    now destruct (js_startsWith0x _).
Qed.

Lemma decoded_integer_in_range_witness :
  exists z, 0 <= z < 2 ^ 8 /\ str "7" = str (decimal z)
            /\ toBigInt (JString (str "7")) = inl z.
Proof.
  exact (proj1 (decoded_integer_in_range (wordOf 7) 0 8 (str "7") 32) eq_refl).
Defined.
